(** * PixelGrid: a PSF modelled as interpolation between a grid of points

    A shallow embedding of [piff/pixelgrid.py].  Floating-point arrays are
    modelled by lists of real numbers, Python integers by [Z], exceptions by
    a result type, and the numpy arrays that hold a star's parameters live in
    an explicit store, because [fit] and [normalize] update them in place. *)

From Stdlib Require Import Reals Lra Lia ZArith List String.
From stdpp Require Import base option list strings gmap.
Import ListNotations.
Local Open Scope R_scope.

(** ** Exceptions *)

Inductive exn : Set :=
  | ValueError | IndexError | AssertionError | TypeError
  | ZeroDivisionError | LinAlgError.

Inductive result (A : Type) : Type :=
  | Ok (a : A)
  | Raise (e : exn).
Arguments Ok {A} a.
Arguments Raise {A} e.

Definition rbind {A B} (r : result A) (k : A -> result B) : result B :=
  match r with Ok a => k a | Raise e => Raise e end.

Notation "'do' x <- r ; k" := (rbind r (fun x => k))
  (at level 10, x pattern, r at level 100, k at level 200).

(** ** The store of parameter arrays

    A location names one numpy array; two records that hold the same location
    share the array. *)

Abbreviation loc := nat.
Abbreviation heap := (list (list R)).

Definition M (A : Type) : Type := heap -> result (A * heap).

Definition ret {A} (a : A) : M A := fun h => Ok (a, h).
Definition bind {A B} (c : M A) (k : A -> M B) : M B :=
  fun h => match c h with Ok (a, h') => k a h' | Raise e => Raise e end.
Definition raise {A} (e : exn) : M A := fun _ => Raise e.
Definition lift {A} (r : result A) : M A :=
  fun h => match r with Ok a => Ok (a, h) | Raise e => Raise e end.

Notation "'let*' x := c 'in' k" := (bind c (fun x => k))
  (at level 10, x pattern, c at level 100, k at level 200).

Definition load (l : loc) : M (list R) :=
  fun h => match h !! l with Some v => Ok (v, h) | None => Raise TypeError end.
Definition store (l : loc) (v : list R) : M unit :=
  fun h => Ok (tt, <[l := v]> h).
Definition alloc (v : list R) : M loc :=
  fun h => Ok (length h, h ++ [v]).

#[global] Instance R_eq_dec : EqDecision R := Req_dec_T.
#[global] Instance Rle_decision (x y : R) : Decision (x <= y) := Rle_dec x y.

(** ** numpy *)

Module np.

Definition sum (l : list R) : R := foldr Rplus 0 l.

Definition zeros (n : nat) : list R := replicate n 0.

(** [np.arange(a, b)] *)
Definition arange (a b : Z) : list Z := seqZ a (b - a).

(** [x.dot(y)] for two vectors. *)
Definition dot (x y : list R) : R := sum (zip_with Rmult x y).

(** [np.meshgrid(xs, ys)], both results ravelled in row-major order:
    entry [r * len xs + c] of the first is [xs[c]], of the second [ys[r]]. *)
Definition meshgrid (xs ys : list Z) : list Z * list Z :=
  (mjoin ((fun _ => xs) <$> ys),
   mjoin ((fun y => (fun _ => y) <$> xs) <$> ys)).

(** An index into an axis of length [n]: negative indices count from the
    end, anything outside [-n, n) is an IndexError. *)
Definition index (n i : Z) : result nat :=
  if (0 <=? i)%Z && (i <? n)%Z then Ok (Z.to_nat i)
  else if (- n <=? i)%Z && (i <? 0)%Z then Ok (Z.to_nat (i + n))
  else Raise IndexError.

(** [arr[r, c] = x] on a [(n, n)] array stored row-major. *)
Definition set2 {A} (n : Z) (arr : list A) (r c : Z) (x : A) : result (list A) :=
  do r' <- index n r;
  do c' <- index n c;
  Ok (<[ (r' * Z.to_nat n + c')%nat := x ]> arr).

(** [arr[mask] = vals] for a boolean mask of the shape of [arr]. *)
Fixpoint put_mask (mask : list bool) (vals arr : list R) : list R :=
  match mask, arr with
  | true :: mk, a :: ar =>
      match vals with
      | x :: vs => x :: put_mask mk vs ar
      | [] => a :: put_mask mk [] ar
      end
  | false :: mk, a :: ar => a :: put_mask mk vals ar
  | _, _ => arr
  end.

Definition count_true (mask : list bool) : nat :=
  length (filter (fun x => x = true) mask).

Definition set_mask (mask : list bool) (vals arr : list R) : result (list R) :=
  if decide (count_true mask = length vals) then Ok (put_mask mask vals arr)
  else if decide (length vals = 1%nat)
       then Ok (put_mask mask (replicate (count_true mask) (default 0 (head vals))) arr)
       else Raise ValueError.

(** [a[s:e]] with Python's treatment of negative and oversized bounds. *)
Definition clamp (n i : Z) : Z :=
  if (i <? 0)%Z then Z.max (i + n) 0 else Z.min i n.

Definition slice {A} (l : list A) (s e : Z) : list A :=
  let n := Z.of_nat (length l) in
  let s' := clamp n s in
  let e' := clamp n e in
  take (Z.to_nat (e' - s')) (drop (Z.to_nat s') l).

(** [l[mask]] for a boolean mask. *)
Fixpoint select {A} (mask : list bool) (l : list A) : list A :=
  match mask, l with
  | keep :: mk, x :: xs => if keep then x :: select mk xs else select mk xs
  | _, _ => []
  end.

(** [arr[idx] = vals] for a list of integer indices: the values must have
    the shape of the indices, or be a single value. *)
Fixpoint put_at (arr : list R) (kxs : list (Z * R)) : result (list R) :=
  match kxs with
  | [] => Ok arr
  | (k, x) :: rest =>
      do i <- index (Z.of_nat (length arr)) k;
      put_at (<[ i := x ]> arr) rest
  end.

Definition put (arr : list R) (idx : list Z) (vals : list R) : result (list R) :=
  if decide (length idx = length vals) then put_at arr (zip idx vals)
  else if decide (length vals = 1%nat)
       then put_at arr (zip idx (replicate (length idx) (default 0 (head vals))))
       else Raise ValueError.

(** [A.dot(x)] for a matrix given by its rows. *)
Definition matvec (A : list (list R)) (x : list R) : list R :=
  (fun row => dot row x) <$> A.

(** [A.T.dot(A)] for a matrix of [n] columns given by its rows. *)
Definition column (A : list (list R)) (j : nat) : list R :=
  (fun row => default 0 (row !! j)) <$> A.
Definition AtA (n : nat) (A : list (list R)) : list (list R) :=
  (fun j => (fun k => dot (column A j) (column A k)) <$> seq 0 n) <$> seq 0 n.

Definition diagonal (C : list (list R)) : list R :=
  imap (fun i row => default 0 (row !! i)) C.

(** In-place [a += d] and [a /= s] on the array at a location. *)
Definition iadd (p : loc) (d : list R) : M unit :=
  let* v := load p in
  if decide (length v = length d) then store p (zip_with Rplus v d)
  else if decide (length d = 1%nat)
       then store p ((fun x => x + default 0 (head d)) <$> v)
       else raise ValueError.

Definition idiv (p : loc) (s : R) : M unit :=
  let* v := load p in
  store p ((fun x => x / s) <$> v).

End np.

(** ** galsim: profiles and the rendering service

    A profile is its surface brightness as a function of the offset (u, v)
    in world coordinates.  Drawing with method [no_pixel] through the local
    WCS samples the profile at each pixel and multiplies by the pixel area. *)

Record Interpolant : Type :=
  { xrange : R; xval : R -> R }.

Module galsim.

Definition Profile : Type := R -> R -> R.

Definition shift (du dv : R) (f : Profile) : Profile :=
  fun u v => f (u - du) (v - dv).

(** [prof.dilate(s)] keeps the flux. *)
Definition dilate (s : R) (f : Profile) : Profile :=
  fun u v => f (u / s) (v / s) / (s * s).

(** An InterpolatedImage of the 1x1 image [[1.]] with scale 1. *)
Definition unit_pixel (k : Interpolant) : Profile :=
  fun x y => xval k x * xval k y.

End galsim.

(** ** Stars *)

Record Pixel : Type :=
  { pix_data : R; pix_weight : R; pix_u : R; pix_v : R }.

Module StarData.

(** [hsm_sigma] is [star.hsm[3]], the size that the moment-measurement
    service reports for the star. *)
Record t : Type := mk
  { pixels : list Pixel;
    pixel_area : R;
    hsm_sigma : R }.

(** The image that [prof._drawReal] or [prof.drawFFT] leaves for a profile
    put at offset [(u0, v0)]. *)
Definition draw (d : t) (u0 v0 : R) (prof : galsim.Profile) : list R :=
  (fun p => prof (pix_u p - u0) (pix_v p - v0) * pixel_area d) <$> pixels d.

End StarData.

Module StarFit.

Record t : Type := mk
  { params : option loc;
    flux : R;
    center : R * R;
    params_var : option (list R);
    A : option (list (list R));
    b : option (list R);
    chisq : option R;
    dof : option nat }.

(** Modelled from the spec: [StarFit.get_params] is defined in
    piff/star.py, outside the sources.  The star record gives "read access
    to ... [the] current parameter vector", and the vector's lifecycle is
    "created by Initializer, mutated in place by Least-Squares Solver,
    rewritten by Normalizer": what is handed out is the star's own array,
    on which the callers' [+=] and [/=] act, not a copy of it. *)
Definition get_params (f : t) : option loc := params f.

(** Modelled from the spec: [StarFit.newParams] is defined in piff/star.py,
    outside the sources.  Write access to a star is "limited to producing a
    new record", "each star owns exactly one ParameterVector" and a fit
    cycle works "on its own star ... producing its own updated copy": the
    new record holds the given values in a vector of its own.  It keeps
    flux and center.  The matrix, the residual, chisq, dof and the
    variances are the "per-star transient" state, "created fresh" by each
    chisq call and "consumed and discarded" by the solver: the new record
    has the variance and the chisq that the caller passes ([fit] passes
    both, [initialize] and [normalize] pass neither) and nothing else of
    it.  It complains when the size of the parameter vector changes (the
    comment in [normalize]). *)
Definition newParams (f : t) (p : list R) (var : option (list R))
    (chi : option R) : M t :=
  let* _ :=
    match params f with
    | None => ret tt
    | Some old =>
        let* v := load old in
        if decide (length v = length p) then ret tt else raise ValueError
    end in
  let* l := alloc p in
  ret (mk (Some l) (flux f) (center f) var None None chi None).

(** Modelled from the spec: [StarFit.withNew] is defined in piff/star.py,
    outside the sources.  The chisq call returns a star "carrying
    (A, b, chisq, dof) without updating params": a record with these four
    fields replaced and everything else, the parameter array included, as
    it was. *)
Definition withNew (f : t) (chi : R) (n : nat) (a : list (list R))
    (r : list R) : t :=
  mk (params f) (flux f) (center f) (params_var f) (Some a) (Some r)
     (Some chi) (Some n).

(** [fit.params = v] *)
Definition set_params (f : t) (v : option loc) : t :=
  mk v (flux f) (center f) (params_var f) (A f) (b f) (chisq f) (dof f).

End StarFit.

Module Star.

Record t : Type := mk
  { data : StarData.t;
    fit : StarFit.t }.

End Star.

(** ** The model *)

Module PixelGrid.

Record t : Type := mk
  { scale : R;
    size : Z;
    interp : Interpolant;
    centered : bool;
    init : option string;
    fit_flux : bool }.

Definition pixel_area (m : t) : R := scale m * scale m.
Definition maxuv (m : t) : R := (IZR (size m) + 1) / 2 * scale m.
Definition origin (m : t) : Z := (size m / 2)%Z.
Definition nparams (m : t) : Z := (size m * size m)%Z.

(** [PixelGrid.__init__] *)
Definition new (scale : R) (size : Z) (interp : Interpolant) (centered : bool)
    (init : option string) (fit_flux : bool) : result t :=
  if (size <=? 0)%Z then Raise ValueError
  else Ok (mk scale size interp centered init fit_flux).

(** *** initialize *)

Definition initial_params (m : t) (method : string) (sigma : R) : result (list R) :=
  if String.eqb method "hsm" || String.eqb method "zero" then
    let u := (fun i => IZR i * scale m) <$> np.arange (- origin m) (size m - origin m) in
    let v := (fun i => IZR i * scale m) <$> np.arange (- origin m) (size m - origin m) in
    let rsq := (fun a => (fun c => a * a + c * c) <$> v) <$> u in
    let gauss := (fun row => (fun x => exp (- x / (2 * sigma ^ 2))) <$> row) <$> rsq in
    let params := mjoin gauss in
    let params := (fun x => x / np.sum params) <$> params in
    if String.eqb method "zero" then Ok ((fun x => x * 1e-10) <$> params)
    else Ok params
  else if String.eqb method "delta" then
    let params := np.zeros (Z.to_nat (size m ^ 2)) in
    let icenter := (origin m * size m + origin m)%Z in
    do i <- np.index (Z.of_nat (length params)) icenter;
    Ok (<[ i := 1 ]> params)
  else Raise ValueError.

Definition initialize (m : t) (star : Star.t) (default_init : option string)
    : M Star.t :=
  let method := match init m with Some i => Some i | None => default_init end in
  let method := match method with Some i => i | None => "hsm"%string end in
  let* params := lift (initial_params m method (StarData.hsm_sigma (Star.data star))) in
  let* fit := StarFit.newParams (Star.fit star) params None None in
  ret (Star.mk (Star.data star) fit).

(** *** normalize *)

(** The backwards compatibility remap: [params] holds [nparams - 1] or
    [nparams - 3] values. *)
Definition legacy_remap (m : t) (params : list R) : result (list R) :=
  let nparams1 := Z.of_nat (length params) in
  let nparams2 := (size m ^ 2)%Z in
  if negb ((nparams2 - nparams1 =? 1)%Z || (nparams2 - nparams1 =? 3)%Z)
  then Raise AssertionError
  else
    let temp := np.zeros (Z.to_nat nparams2) in
    let mask := replicate (Z.to_nat nparams2) true in
    let o := (size m / 2)%Z in
    do mask <- np.set2 (size m) mask o o false;
    do mask <- (if (nparams2 =? nparams1 + 3)%Z then
                  do mask <- np.set2 (size m) mask (o + 1) o false;
                  np.set2 (size m) mask o (o + 1) false
                else Ok mask);
    do temp <- np.set_mask mask params temp;
    let delta_u := np.arange (- o) (size m - o) in
    let delta_v := np.arange (- o) (size m - o) in
    let '(u, v) := np.meshgrid delta_u delta_v in
    do temp <- (if (nparams2 =? nparams1 + 3)%Z then
                  do temp <- np.set2 (size m) temp (o + 1) o
                               (- np.sum (zip_with (fun a x => IZR a * x) v temp));
                  np.set2 (size m) temp o (o + 1)
                    (- np.sum (zip_with (fun a x => IZR a * x) u temp))
                else Ok temp);
    if decide (pixel_area m = 0) then Raise ZeroDivisionError
    else np.set2 (size m) temp o o (1 / pixel_area m - np.sum temp).

(** [normalize] modifies the star in place: the result is the state of
    that star object after the call. *)
Definition normalize (m : t) (star : Star.t) : M Star.t :=
  match StarFit.get_params (Star.fit star) with
  | None => raise TypeError
  | Some p =>
      let* v := load p in
      let* (p, star) :=
        (if (Z.of_nat (length v) <? size m ^ 2)%Z then
           let* temp := lift (legacy_remap m v) in
           let* p' := alloc temp in
           ret (p', Star.mk (Star.data star)
                      (StarFit.set_params (Star.fit star) None))
         else ret (p, star)) in
      if fit_flux m then ret star
      else
        let* v := load p in
        let* _ := np.idiv p (np.sum v) in
        let* v := load p in
        let* fit := StarFit.newParams (Star.fit star) v None None in
        ret (Star.mk (Star.data star) fit)
  end.

(** *** chisq *)

(** [_getBasisProfile]: the shifts of the basis pixels, [(du, dv)]. *)
Definition basis_shifts (m : t) : list Z * list Z :=
  np.meshgrid (np.arange (- origin m) (- origin m + size m))
              (np.arange (- origin m) (- origin m + size m)).

(** Only data points where the model gives reasonable support. *)
Definition in_support (m : t) (u0 v0 : R) (p : Pixel) : bool :=
  bool_decide (Rabs (pix_u p - u0) <= maxuv m)
  && bool_decide (Rabs (pix_v p - v0) <= maxuv m)
  && negb (bool_decide (pix_weight p = 0)).

(** [np.arange(nparams).reshape(du.shape)]: row [r], column [c] holds
    [r * size + c]. *)
Definition col_index (m : t) : list (list Z) :=
  (fun r => (fun c => (r * size m + c)%Z) <$> np.arange 0 (size m))
    <$> np.arange 0 (size m).

(** The slice [i1:i2] into [col_index] and [p1:p2] into the weights, for
    a pixel whose coordinate has integer part [vi]. *)
Definition window (m : t) (xr vi : Z) : Z * Z * Z * Z :=
  let i1 := (vi - xr + origin m + 1)%Z in
  let i2 := (vi + xr + origin m + 1)%Z in
  let p1 := 0%Z in
  let p2 := (2 * xr)%Z in
  let '(p1, i1) := if (i1 <? 0)%Z then ((- i1)%Z, 0%Z) else (p1, i1) in
  let '(p2, i2) :=
    if (i2 >? size m)%Z then ((p2 - (i2 - size m))%Z, size m) else (p2, i2) in
  (i1, i2, p1, p2).

(** [xval(argu)]: the kernel at the integer positions near a pixel whose
    coordinate has fractional part [uf], for basis pixel minus image pixel. *)
Definition kernel_weights (m : t) (xr : Z) (uf : R) : list R :=
  xval (interp m) <$> ((fun n => - uf + IZR n) <$> np.arange (- xr + 1) (xr + 1)).

(** [col_index[i1:i2, j1:j2].ravel()] *)
Definition window_cols (m : t) (i1 i2 j1 j2 : Z) : list Z :=
  mjoin ((fun row => np.slice row j1 j2) <$> np.slice (col_index m) i1 i2).

(** [uvwt[i, p1:p2, q1:q2].ravel()], where [uvwt[i, p, q] = uwt[q] * vwt[p]]. *)
Definition window_weights (uwt vwt : list R) (p1 p2 q1 q2 : Z) : list R :=
  mjoin ((fun wv => (fun wu => wu * wv) <$> np.slice uwt q1 q2)
           <$> np.slice vwt p1 p2).

(** One pass of the loop [for i in range(nmask)]: the row of [A] of a
    pixel at [(u, v)], in units of the grid scale. *)
Definition fast_row (m : t) (flux_scaling u v : R) : result (list R) :=
  let ui := Zfloor u in
  let uf := u - IZR ui in
  let vi := Zfloor v in
  let vf := v - IZR vi in
  let xr := Zceil (xrange (interp m)) in
  let uwt := kernel_weights m xr uf in
  let vwt := kernel_weights m xr vf in
  let uwt := (fun x => x * flux_scaling) <$> uwt in
  let '(i1, i2, p1, p2) := window m xr vi in
  let '(j1, j2, q1, q2) := window m xr ui in
  np.put (np.zeros (Z.to_nat (nparams m)))
    (window_cols m i1 i2 j1 j2) (window_weights uwt vwt p1 p2 q1 q2).

Fixpoint rows (f : R * R -> result (list R)) (uv : list (R * R))
    : result (list (list R)) :=
  match uv with
  | [] => Ok []
  | p :: rest => do row <- f p; do A <- rows f rest; Ok (row :: A)
  end.

(** The branch taken without a [convert_func]. *)
Definition jacobian_fast (m : t) (star : Star.t) (u0 v0 : R) (mask : list bool)
    : result (list (list R)) :=
  let u := (fun p => pix_u p - u0) <$> StarData.pixels (Star.data star) in
  let v := (fun p => pix_v p - v0) <$> StarData.pixels (Star.data star) in
  let u := (fun x => x / scale m) <$> np.select mask u in
  let v := (fun x => x / scale m) <$> np.select mask v in
  if decide (pixel_area m = 0) then Raise ZeroDivisionError
  else
    let flux_scaling := StarData.pixel_area (Star.data star) / pixel_area m in
    rows (fun '(u, v) => fast_row m flux_scaling u v) (zip u v).

(** The branch taken with a [convert_func]: one rendering per basis
    pixel, which becomes a column of [A]. *)
Definition jacobian_slow (m : t) (star : Star.t)
    (convert_func : galsim.Profile -> galsim.Profile) (u0 v0 : R)
    (mask : list bool) : list (list R) :=
  let basis_profile := galsim.dilate (scale m) (galsim.unit_pixel (interp m)) in
  let '(du, dv) := basis_shifts m in
  let du := (fun x => IZR x * scale m) <$> du in
  let dv := (fun x => IZR x * scale m) <$> dv in
  let columns :=
    (fun '(k, (duk, dvk)) =>
       let prof := galsim.shift duk dvk basis_profile in
       let prof := convert_func prof in
       np.select mask (StarData.draw (Star.data star) u0 v0 prof))
      <$> zip (np.arange 0 (nparams m)) (zip du dv) in
  let nmask := length (filter (fun x => x = true) mask) in
  (fun i => (fun k => default 0 (columns !! k ≫= (.!! i)))
              <$> seq 0 (Z.to_nat (nparams m)))
    <$> seq 0 nmask.

Section Services.

(** [galsim.InterpolatedImage] of a [size] x [size] image with the given
    values, scale, interpolant and flux, and the two scipy.linalg
    routines; [inv] is [None] when scipy raises LinAlgError. *)
Variable InterpolatedImage :
  Z -> list R -> R -> Interpolant -> option R -> galsim.Profile.
Variable lstsq : nat -> list (list R) -> list R -> list R.
Variable inv : list (list R) -> option (list (list R)).

Definition getProfile (m : t) (params : list R) : result galsim.Profile :=
  if decide (Z.of_nat (length params) = (size m * size m)%Z) then
    let flux := if fit_flux m then None else Some 1 in
    Ok (InterpolatedImage (size m) params (scale m) (interp m) flux)
  else Raise ValueError.

Definition check_draw_method (draw_method : option string) : M unit :=
  match draw_method with
  | None => ret tt
  | Some s => if String.eqb s "no_pixel" then ret tt else raise AssertionError
  end.

Definition chisq (m : t) (star : Star.t)
    (convert_func : option (galsim.Profile -> galsim.Profile))
    (draw_method : option string) : M Star.t :=
  let* _ := check_draw_method draw_method in
  match StarFit.get_params (Star.fit star) with
  | None => raise TypeError
  | Some p =>
      let* params := load p in
      let* prof := lift (getProfile m params) in
      let '(u0, v0) := StarFit.center (Star.fit star) in
      let prof := galsim.shift u0 v0 prof in
      let prof := match convert_func with Some c => c prof | None => prof end in
      let image := StarData.draw (Star.data star) 0 0 prof in
      let model := (fun x => x * StarFit.flux (Star.fit star)) <$> image in
      let mask := in_support m u0 v0 <$> StarData.pixels (Star.data star) in
      let nmask := length (filter (fun x => x = true) mask) in
      let data := np.select mask (pix_data <$> StarData.pixels (Star.data star)) in
      let model := np.select mask model in
      let weight := np.select mask (pix_weight <$> StarData.pixels (Star.data star)) in
      let b := zip_with Rminus data model in
      let* A :=
        lift (match convert_func with
              | Some c => Ok (jacobian_slow m star c u0 v0 mask)
              | None => jacobian_fast m star u0 v0 mask
              end) in
      let A := (fun row => (fun x => x * StarFit.flux (Star.fit star)) <$> row) <$> A in
      let sw := sqrt <$> weight in
      let A := zip_with (fun row s => (fun x => x * s) <$> row) A sw in
      let b := zip_with Rmult b sw in
      let chisq := np.sum ((fun x => x ^ 2) <$> b) in
      let dof := length (filter (fun w => w <> 0) weight) in
      ret (Star.mk (Star.data star)
             (StarFit.withNew (Star.fit star) chisq dof A b))
  end.

(** *** fit *)

Definition fit (m : t) (star : Star.t)
    (convert_func : option (galsim.Profile -> galsim.Profile))
    (draw_method : option string) : M Star.t :=
  let* _ := check_draw_method draw_method in
  let* star1 := chisq m star convert_func None in
  match StarFit.A (Star.fit star1), StarFit.b (Star.fit star1),
        StarFit.chisq (Star.fit star1) with
  | Some A, Some b, Some chisq0 =>
      let dparam := lstsq (Z.to_nat (nparams m)) A b in
      let Adp := np.matvec A dparam in
      let new_chisq := chisq0 + np.dot Adp Adp - 2 * np.dot Adp b in
      let params_var :=
        match inv (np.AtA (Z.to_nat (nparams m)) A) with
        | Some C => np.diagonal C
        | None => (fun x => x * 1e100) <$> replicate (length dparam) 1
        end in
      match StarFit.get_params (Star.fit star) with
      | None => raise TypeError
      | Some params =>
          let* _ := np.iadd params dparam in
          let* v := load params in
          let* fit := StarFit.newParams (Star.fit star1) v (Some params_var)
                        (Some new_chisq) in
          let star := Star.mk (Star.data star1) fit in
          normalize m star
      end
  | _, _, _ => raise TypeError
  end.

End Services.

(** *** Serialized keyword arguments *)

(** What a kwargs dict holds: the values of the serialized fields, or an
    interpolant object [galsim.Lanczos(n)]. *)
Inductive kwarg : Type :=
  | KNone
  | KBool (b : bool)
  | KInt (n : Z)
  | KFloat (x : R)
  | KStr (s : string)
  | KLanczos (n : Z).

(** [self.kwargs] as [__init__] builds it, given [repr] on interpolants. *)
Definition kwargs (repr : Interpolant -> string) (m : t) : gmap string kwarg :=
  {[ "scale"%string := KFloat (scale m);
     "size"%string := KInt (size m);
     "centered"%string := KBool (centered m);
     "interp"%string := KStr (repr (interp m));
     "init"%string := match init m with Some s => KStr s | None => KNone end;
     "fit_flux"%string := KBool (fit_flux m) ]}.

(** [PixelGrid._fix_kwargs]: the dict is updated in place; the result is
    its state after the call. *)
Definition _fix_kwargs (kwargs : gmap string kwarg) : gmap string kwarg :=
  let kwargs := delete "degenerate"%string kwargs in
  let kwargs := delete "start_sigma"%string kwargs in
  match kwargs !! "interp"%string with
  | None => <[ "interp"%string := KLanczos 3 ]> kwargs
  | Some _ => kwargs
  end.

End PixelGrid.

(** ** Quantities the specification speaks about *)

Module Spec.

Import PixelGrid.

(** The model with its initialization method set. *)
Definition with_init (m : t) (method : string) : t :=
  mk (scale m) (size m) (interp m) (centered m) (Some method) (fit_flux m).

(** The parameter vector that a star carries in a given store. *)
Definition params_of (star : Star.t) (h : heap) : option (list R) :=
  StarFit.params (Star.fit star) ≫= (h !!.).

(** The vector divided by its sum. *)
Definition normalized (v : list R) : list R := (fun x => x / np.sum v) <$> v.

(** The least-squares update for the [(A, b)] that a star carries. *)
Definition dparam (lstsq : nat -> list (list R) -> list R -> list R) (m : t)
    (star1 : Star.t) : list R :=
  match StarFit.A (Star.fit star1), StarFit.b (Star.fit star1) with
  | Some A, Some b => lstsq (Z.to_nat (nparams m)) A b
  | _, _ => []
  end.

(** The value of the quadratic model of chisq at that update. *)
Definition quadratic_chisq (lstsq : nat -> list (list R) -> list R -> list R)
    (m : t) (star1 : Star.t) : option R :=
  match StarFit.A (Star.fit star1), StarFit.b (Star.fit star1),
        StarFit.chisq (Star.fit star1) with
  | Some A, Some b, Some chisq =>
      let Adp := np.matvec A (lstsq (Z.to_nat (nparams m)) A b) in
      Some (chisq - 2 * np.dot Adp b + np.dot Adp Adp)
  | _, _, _ => None
  end.

(** The variances: the diagonal of the inverse of [A.T A], or the sentinel
    for every parameter when there is no inverse. *)
Definition variances (inv : list (list R) -> option (list (list R))) (m : t)
    (star1 : Star.t) : option (list R) :=
  match StarFit.A (Star.fit star1) with
  | Some A =>
      match inv (np.AtA (Z.to_nat (nparams m)) A) with
      | Some C => Some (np.diagonal C)
      | None => Some (replicate (Z.to_nat (nparams m)) 1e100)
      end
  | None => None
  end.

(** The flat index of the grid cell in row [r], column [c]. *)
Definition cell (m : t) (r c : Z) : nat := Z.to_nat (r * size m + c).

(** The first moments of a grid of values: each value weighted by its
    column offset (u) or row offset (v) from the central cell. *)
Definition moment_u (m : t) (values : list R) : R :=
  np.sum (imap (fun k x => IZR (Z.of_nat k `mod` size m - origin m) * x) values).
Definition moment_v (m : t) (values : list R) : R :=
  np.sum (imap (fun k x => IZR (Z.of_nat k `div` size m - origin m) * x) values).

(** The three cells that the oldest encoding left out. *)
Definition center_cell (m : t) : nat := cell m (origin m) (origin m).
Definition below_cell (m : t) : nat := cell m (origin m + 1) (origin m).
Definition right_cell (m : t) : nat := cell m (origin m) (origin m + 1).

Definition clear_reserved (m : t) (values : list R) : list R :=
  <[ center_cell m := 0 ]> (<[ below_cell m := 0 ]> (<[ right_cell m := 0 ]> values)).

(** The cells that are not reserved, in row-major order. *)
Definition free_cells (m : t) (values : list R) : list R :=
  np.select
    (imap (fun k _ => bool_decide (k <> center_cell m /\ k <> below_cell m
                                   /\ k <> right_cell m)) values)
    values.

(** The entry that the slow path renders for basis pixel [k] at a pixel. *)
Definition rendered (m : t) (d : StarData.t) (u0 v0 : R) (p : Pixel) (k : nat) : R :=
  galsim.shift (IZR (Z.of_nat k `mod` size m - origin m) * scale m)
               (IZR (Z.of_nat k `div` size m - origin m) * scale m)
               (galsim.dilate (scale m) (galsim.unit_pixel (interp m)))
    (pix_u p - u0) (pix_v p - v0) * StarData.pixel_area d.

(** The pixels that [chisq] keeps: inside the support of the model around
    the star's center, with a weight that is not zero. *)
Definition retained (m : t) (star : Star.t) : list Pixel :=
  filter (fun p => in_support m (StarFit.center (Star.fit star)).1
                     (StarFit.center (Star.fit star)).2 p = true)
    (StarData.pixels (Star.data star)).

(** The model of the star's image at a pixel: the profile of the given
    parameters, put at the star's center and passed through the composition
    function, sampled there and scaled by the pixel area and the flux. *)
Definition model_at
    (InterpolatedImage : Z -> list R -> R -> Interpolant -> option R -> galsim.Profile)
    (m : t) (star : Star.t) (conv : option (galsim.Profile -> galsim.Profile))
    (params : list R) (p : Pixel) : R :=
  let prof :=
    galsim.shift (StarFit.center (Star.fit star)).1 (StarFit.center (Star.fit star)).2
      (InterpolatedImage (size m) params (scale m) (interp m)
         (if fit_flux m then None else Some 1)) in
  let prof := match conv with Some c => c prof | None => prof end in
  prof (pix_u p) (pix_v p) * StarData.pixel_area (Star.data star)
  * StarFit.flux (Star.fit star).

(** The offsets of grid cell [k] from the central cell, along u and v. *)
Definition du (m : t) (k : nat) : Z := (Z.of_nat k `mod` size m - origin m)%Z.
Definition dv (m : t) (k : nat) : Z := (Z.of_nat k `div` size m - origin m)%Z.

End Spec.

(** ** Concrete inputs *)

Module Ex.

Import PixelGrid.

(** [galsim.Linear()] and [galsim.Delta()], which has no extent. *)
Definition Linear : Interpolant :=
  {| xrange := 1;
     xval := fun x => if decide (Rabs x <= 1) then 1 - Rabs x else 0 |}.

Definition Delta : Interpolant :=
  {| xrange := 0;
     xval := fun x => if decide (x = 0) then 1 else 0 |}.

(** An interpolated image: the grid values spread by the kernel, rescaled
    to the requested flux when there is one. *)
Definition InterpolatedImage (size : Z) (values : list R) (scale : R)
    (k : Interpolant) (flux : option R) : galsim.Profile :=
  fun u v =>
    let total :=
      np.sum (imap (fun j x =>
                      x * xval k (u / scale - IZR (Z.of_nat j `mod` size - size / 2))
                        * xval k (v / scale - IZR (Z.of_nat j `div` size - size / 2)))
                values) in
    match flux with
    | Some f => f * total / (np.sum values * (scale * scale))
    | None => total / (scale * scale)
    end.

(** Least squares and inversion for systems of one unknown; an empty system
    has the zero solution. *)
Definition lstsq (n : nat) (A : list (list R)) (b : list R) : list R :=
  match A, b with
  | [[a]], [y] => [y / a]
  | _, _ => replicate n 0
  end.

Definition inv (C : list (list R)) : option (list (list R)) :=
  match C with
  | [[c]] => if decide (c = 0) then None else Some [[1 / c]]
  | _ => None
  end.

Definition grid (kernel : Interpolant) (scale : R) (size : Z) (fit_flux : bool) : t :=
  mk scale size kernel true None fit_flux.

(** A star of one pixel at the origin, and the same star with that pixel
    masked; its parameter array is the first of the store. *)
Definition star_fit : StarFit.t :=
  StarFit.mk (Some 0%nat) 1 (0, 0) None None None None None.

Definition star : Star.t :=
  Star.mk (StarData.mk [ {| pix_data := 3; pix_weight := 1; pix_u := 0; pix_v := 0 |} ] 1 1)
          star_fit.

Definition star_masked : Star.t :=
  Star.mk (StarData.mk [ {| pix_data := 3; pix_weight := 0; pix_u := 0; pix_v := 0 |} ] 1 1)
          star_fit.

(** The same star with one more pixel, of weight zero. *)
Definition star_padded : Star.t :=
  Star.mk (StarData.mk [ {| pix_data := 3; pix_weight := 1; pix_u := 0; pix_v := 0 |};
                         {| pix_data := 9; pix_weight := 0; pix_u := 0; pix_v := 0 |} ] 1 1)
          star_fit.

(** The same star before it is initialized: it has no parameters yet. *)
Definition fresh_star : Star.t :=
  Star.mk (Star.data star) (StarFit.mk None 1 (0, 0) None None None None None).

(** A pixel on the edge of the support of a grid of size 1 and scale 1. *)
Definition edge_pixel : Pixel :=
  {| pix_data := 3; pix_weight := 1; pix_u := 1; pix_v := 0 |}.

End Ex.

(** * Properties *)

(** ** Sums and in-place updates *)

Section SumLemmas.

Lemma sum_app (l k : list R) : np.sum (l ++ k) = np.sum l + np.sum k.
Proof. induction l as [|a l IH]; simpl; [lra | rewrite IH; lra]. Qed.

Lemma sum_insert (l : list R) (i : nat) (x y : R) :
  l !! i = Some y -> np.sum (<[ i := x ]> l) = np.sum l + (x - y).
Proof.
  revert i; induction l as [|a l IH]; intros [|i] Hi; simpl in *; try discriminate.
  - injection Hi as ->. lra.
  - rewrite (IH _ Hi). lra.
Qed.

Lemma wsum_insert {W} (f : W -> R) (w : list W) (l : list R) (i : nat) (a : W) (x y : R) :
  w !! i = Some a -> l !! i = Some y ->
  np.sum (zip_with (fun a x => f a * x) w (<[ i := x ]> l))
  = np.sum (zip_with (fun a x => f a * x) w l) + f a * (x - y).
Proof.
  revert w i; induction l as [|b l IH]; intros [|c w] [|i] Hw Hl;
    simpl in *; try discriminate.
  - injection Hw as ->. injection Hl as ->. lra.
  - rewrite (IH _ _ Hw Hl). lra.
Qed.

Lemma sum_scale (l : list R) (c : R) :
  np.sum ((fun x => x * c) <$> l) = np.sum l * c.
Proof. induction l as [|a l IH]; csimpl; [lra | rewrite IH; lra]. Qed.

Lemma sum_div (l : list R) (c : R) :
  np.sum ((fun x => x / c) <$> l) = np.sum l / c.
Proof. apply (sum_scale l (/ c)). Qed.

Lemma sum_zeros (n : nat) : np.sum (np.zeros n) = 0.
Proof.
  unfold np.zeros. induction n as [|n IH]; simpl; [reflexivity | rewrite IH; lra].
Qed.

End SumLemmas.

(** ** Indexing *)

Section IndexLemmas.

Lemma index_in_range (n i : Z) :
  (0 <= i < n)%Z -> np.index n i = Ok (Z.to_nat i).
Proof.
  intros [H0 Hn]. unfold np.index.
  destruct (Z.leb_spec 0 i); [|lia]. destruct (Z.ltb_spec i n); [|lia]. reflexivity.
Qed.

Lemma index_too_large (n i : Z) :
  (0 < n <= i)%Z -> np.index n i = Raise IndexError.
Proof.
  intros [H0 Hn]. unfold np.index.
  destruct (Z.leb_spec 0 i); [|lia]. destruct (Z.ltb_spec i n); [lia|]. simpl.
  destruct (Z.leb_spec (- n) i); [|lia]. destruct (Z.ltb_spec i 0); [lia|]. reflexivity.
Qed.

Lemma set2_in_range {A} (n : Z) (arr : list A) (r c : Z) (x : A) :
  (0 <= r < n)%Z -> (0 <= c < n)%Z ->
  np.set2 n arr r c x = Ok (<[ Z.to_nat (r * n + c) := x ]> arr).
Proof.
  intros Hr Hc. unfold np.set2.
  rewrite (index_in_range n r Hr), (index_in_range n c Hc). simpl.
  do 2 f_equal. nia.
Qed.

(** Entry [r * n + c] of a ravelled meshgrid. *)
Lemma meshgrid_lookup (xs ys : list Z) (r c : nat) (x y : Z) :
  xs !! c = Some x -> ys !! r = Some y ->
  (np.meshgrid xs ys).1 !! (r * length xs + c)%nat = Some x
  /\ (np.meshgrid xs ys).2 !! (r * length xs + c)%nat = Some y.
Proof.
  intros Hx Hy. unfold np.meshgrid; simpl.
  assert (c < length xs)%nat by (eapply lookup_lt_Some; eauto).
  split.
  - apply (join_lookup_Some_same_length' (length xs)); [|done|].
    + apply Forall_fmap, Forall_true. done.
    + exists xs. rewrite list_lookup_fmap, Hy. done.
  - apply (join_lookup_Some_same_length' (length xs)); [|done|].
    + apply Forall_fmap, Forall_true. intros ?. simpl. apply length_fmap.
    + exists ((fun _ => y) <$> xs). rewrite !list_lookup_fmap, Hy, Hx. done.
Qed.

Lemma meshgrid_length (xs ys : list Z) :
  length (np.meshgrid xs ys).1 = (length ys * length xs)%nat
  /\ length (np.meshgrid xs ys).2 = (length ys * length xs)%nat.
Proof.
  unfold np.meshgrid; simpl. split.
  - induction ys as [|y ys IH]; csimpl; [done|]. rewrite length_app, IH. done.
  - induction ys as [|y ys IH]; csimpl; [done|].
    rewrite length_app, length_fmap, IH. done.
Qed.

Lemma arange_lookup (a b : Z) (i : nat) :
  (Z.of_nat i < b - a)%Z -> np.arange a b !! i = Some (a + Z.of_nat i)%Z.
Proof. intros. unfold np.arange. apply lookup_seqZ_lt. done. Qed.

Lemma arange_length (a b : Z) : length (np.arange a b) = Z.to_nat (b - a).
Proof. apply length_seqZ. Qed.

Lemma meshgrid_arange_lookup (a b n : Z) (k : nat) :
  (0 < n)%Z -> (b - a = n)%Z -> (k < Z.to_nat (n * n))%nat ->
  let g := np.meshgrid (np.arange a b) (np.arange a b) in
  g.1 !! k = Some (a + Z.of_nat k `mod` n)%Z
  /\ g.2 !! k = Some (a + Z.of_nat k `div` n)%Z.
Proof.
  intros Hn Hb Hk g. set (n' := Z.to_nat n).
  assert (Hlen : length (np.arange a b) = n').
  { rewrite arange_length. unfold n'. f_equal. lia. }
  assert (Hkn : (k < n' * n')%nat) by (unfold n'; nia).
  assert (Hn0 : (n' <> 0)%nat) by (unfold n'; lia).
  pose proof (Nat.div_mod_eq k n') as Hdm.
  pose proof (Nat.mod_upper_bound k n' Hn0) as Hmod.
  assert (Hdiv : (k / n' < n')%nat) by (apply Nat.Div0.div_lt_upper_bound; lia).
  destruct (meshgrid_lookup (np.arange a b) (np.arange a b)
              (k / n') (k mod n') (a + Z.of_nat (k mod n'))
              (a + Z.of_nat (k / n'))) as [Hu Hv].
  { apply arange_lookup. unfold n' in *. lia. }
  { apply arange_lookup. unfold n' in *. lia. }
  rewrite Hlen in Hu, Hv.
  replace (k / n' * n' + k mod n')%nat with k in Hu, Hv by lia.
  assert (Z.of_nat n' = n) as Hzn by (unfold n'; lia).
  split.
  - subst g. rewrite Hu. f_equal. rewrite Nat2Z.inj_mod, Hzn. lia.
  - subst g. rewrite Hv. f_equal. rewrite Nat2Z.inj_div, Hzn. lia.
Qed.

End IndexLemmas.

(** ** Boolean masks *)

Section MaskLemmas.

Lemma count_true_cons (x : bool) (l : list bool) :
  np.count_true (x :: l) = ((if x then 1 else 0) + np.count_true l)%nat.
Proof.
  unfold np.count_true. destruct x; reflexivity.
Qed.

Lemma count_true_replicate (n : nat) : np.count_true (replicate n true) = n.
Proof.
  induction n as [|n IH]; [done|]. simpl replicate. rewrite count_true_cons, IH. done.
Qed.

Lemma count_true_insert_false (l : list bool) (k : nat) :
  l !! k = Some true ->
  np.count_true (<[ k := false ]> l) = (np.count_true l - 1)%nat.
Proof.
  revert k; induction l as [|x l IH]; intros [|k] Hk; simpl in *; try discriminate.
  - injection Hk as ->. rewrite !count_true_cons. lia.
  - rewrite !count_true_cons, (IH _ Hk).
    assert (1 <= np.count_true l)%nat; [|destruct x; lia].
    clear IH. revert k Hk. induction l as [|y l IH]; intros [|k] Hk; simpl in *;
      try discriminate; rewrite count_true_cons.
    + injection Hk as ->. lia.
    + specialize (IH _ Hk). lia.
Qed.

Lemma put_mask_length (mask : list bool) (vals arr : list R) :
  length (np.put_mask mask vals arr) = length arr.
Proof.
  revert vals arr; induction mask as [|x mask IH]; intros vals [|a arr]; simpl; try done.
  - destruct x; done.
  - destruct x; [destruct vals|]; simpl; rewrite IH; done.
Qed.

Lemma put_mask_lookup_false (mask : list bool) (vals arr : list R) (k : nat) :
  mask !! k = Some false -> np.put_mask mask vals arr !! k = arr !! k.
Proof.
  revert vals arr k; induction mask as [|x mask IH]; intros vals arr k Hk; [done|].
  destruct arr as [|a arr]; [by destruct x|].
  destruct k as [|k]; simpl in Hk.
  - injection Hk as ->. done.
  - destruct x; [destruct vals|]; simpl; apply IH; done.
Qed.

Lemma select_put_mask (mask : list bool) (vals arr : list R) :
  length mask = length arr -> np.count_true mask = length vals ->
  np.select mask (np.put_mask mask vals arr) = vals.
Proof.
  revert vals arr; induction mask as [|x mask IH]; intros vals [|a arr] Hl Hc;
    simpl in *; try discriminate.
  - destruct vals; [done|discriminate].
  - rewrite count_true_cons in Hc. destruct x.
    + destruct vals as [|v vals]; [discriminate|]. simpl. f_equal. apply IH; [lia|].
      simpl in Hc. lia.
    + simpl. apply IH; [lia|]. simpl in Hc. lia.
Qed.

Lemma select_insert_false {A} (mask : list bool) (l : list A) (k : nat) (x : A) :
  mask !! k = Some false -> np.select mask (<[ k := x ]> l) = np.select mask l.
Proof.
  revert l k; induction mask as [|y mask IH]; intros [|a l] [|k] Hk;
    simpl in *; try discriminate; try done.
  - injection Hk as ->. done.
  - rewrite (IH _ _ Hk). done.
Qed.

Lemma select_fmap {A B} (P : A -> bool) (f : A -> B) (l : list A) :
  np.select (P <$> l) (f <$> l) = f <$> filter (fun x => P x = true) l.
Proof.
  induction l as [|x l IH]; csimpl; [done|]. rewrite filter_cons.
  destruct (P x) eqn:HP; case_decide; try congruence; csimpl; rewrite ?IH; done.
Qed.

Lemma count_mask {A} (P : A -> bool) (l : list A) :
  length (filter (fun x => x = true) (P <$> l))
  = length (filter (fun x => P x = true) l).
Proof.
  induction l as [|x l IH]; csimpl; [done|]. rewrite !filter_cons.
  destruct (P x) eqn:HP; repeat case_decide; try congruence; csimpl; rewrite ?IH; done.
Qed.

End MaskLemmas.

(** ** Slices and scattered assignment *)

Section Slices.

Lemma clamp_in_range (n i : Z) : (0 <= i <= n)%Z -> np.clamp n i = i.
Proof. intros. unfold np.clamp. destruct (Z.ltb_spec i 0); lia. Qed.

Lemma slice_fmap {A B} (f : A -> B) (l : list A) (s e : Z) :
  np.slice (f <$> l) s e = f <$> np.slice l s e.
Proof. unfold np.slice. rewrite length_fmap, fmap_take, fmap_drop. done. Qed.

Lemma slice_seqZ (a len s e : Z) :
  (0 <= s <= e)%Z -> (e <= len)%Z ->
  np.slice (seqZ a len) s e = seqZ (a + s) (e - s).
Proof.
  intros Hs He. unfold np.slice. rewrite length_seqZ, Z2Nat.id by lia.
  rewrite !clamp_in_range by lia.
  apply list_eq; intros i.
  destruct (decide (Z.of_nat i < e - s)%Z) as [Hi|Hi].
  - rewrite lookup_take_lt by lia. rewrite lookup_drop.
    rewrite !lookup_seqZ_lt by lia. f_equal. lia.
  - rewrite lookup_take_ge by lia. rewrite lookup_seqZ_ge by lia. done.
Qed.

Lemma slice_empty {A} (l : list A) (s e : Z) :
  (np.clamp (Z.of_nat (length l)) e <= np.clamp (Z.of_nat (length l)) s)%Z ->
  np.slice l s e = [].
Proof.
  intros H. unfold np.slice.
  replace (Z.to_nat _) with 0%nat by lia. done.
Qed.

(** A scattered assignment whose values are a function of their index. *)
Lemma put_at_fun (F : Z -> R) (kxs : list (Z * R)) (arr : list R) :
  Forall (fun kx => (0 <= kx.1 < Z.of_nat (length arr))%Z /\ kx.2 = F kx.1) kxs ->
  np.put_at arr kxs
  = Ok (imap (fun j a => if decide (Z.of_nat j ∈ kxs.*1) then F (Z.of_nat j) else a) arr).
Proof.
  revert arr; induction kxs as [|[k x] kxs IH]; intros arr Hall.
  - simpl. f_equal. apply list_eq; intros j. rewrite list_lookup_imap.
    destruct (arr !! j); done.
  - apply Forall_cons in Hall as [[Hk Hx] Hall]. simpl in Hk, Hx. subst x. simpl.
    rewrite index_in_range by done. simpl.
    rewrite IH by (rewrite length_insert; done). f_equal.
    change (((k, F k) :: kxs).*1) with (k :: kxs.*1).
    apply list_eq; intros j. rewrite !list_lookup_imap.
    destruct (decide (j = Z.to_nat k)) as [->|Hj].
    + rewrite list_lookup_insert_eq by lia.
      destruct (lookup_lt_is_Some_2 arr (Z.to_nat k)) as [a Ha]; [lia|]. rewrite Ha. simpl.
      rewrite Z2Nat.id by lia.
      f_equal. destruct (decide (k ∈ kxs.*1)); case_decide as Hn; try done.
      all: exfalso; apply Hn; left.
    + rewrite list_lookup_insert_ne by done.
      destruct (arr !! j) as [a|]; simpl; [|done]. f_equal.
      destruct (decide (Z.of_nat j ∈ kxs.*1)) as [Hin|Hin]; case_decide as Hn; try done.
      * exfalso; apply Hn; right; done.
      * apply elem_of_cons in Hn as [Hc|Hc]; [lia|done].
Qed.

Lemma put_fun (F : Z -> R) (idx : list Z) (arr : list R) :
  Forall (fun k => (0 <= k < Z.of_nat (length arr))%Z) idx ->
  np.put arr idx (F <$> idx)
  = Ok (imap (fun j a => if decide (Z.of_nat j ∈ idx) then F (Z.of_nat j) else a) arr).
Proof.
  intros Hall. unfold np.put. rewrite decide_True by (rewrite length_fmap; done).
  assert (Hz : zip idx (F <$> idx) = (fun k => (k, F k)) <$> idx).
  { clear Hall. induction idx as [|k idx IH]; csimpl; [done|]. rewrite IH. done. }
  rewrite Hz, (put_at_fun F).
  - replace (((fun k => (k, F k)) <$> idx).*1) with idx; [done|].
    rewrite <- list_fmap_compose. clear. induction idx as [|k idx IH]; csimpl; [done|].
    rewrite <- IH. done.
  - apply Forall_fmap. eapply Forall_impl; [exact Hall|]. intros k Hk. simpl. done.
Qed.

End Slices.

(** ** The backwards compatibility remap *)

Section Legacy.
Import PixelGrid.

Lemma grid_offsets_lookup (m : t) (k : nat) :
  (0 < size m)%Z -> (k < Z.to_nat (size m * size m))%nat ->
  let g := np.meshgrid (np.arange (- (size m / 2)) (size m - size m / 2))
                       (np.arange (- (size m / 2)) (size m - size m / 2)) in
  g.1 !! k = Some (Z.of_nat k `mod` size m - size m / 2)%Z
  /\ g.2 !! k = Some (Z.of_nat k `div` size m - size m / 2)%Z.
Proof.
  intros Hn Hk g. subst g.
  destruct (meshgrid_arange_lookup (- (size m / 2)) (size m - size m / 2) (size m) k)
    as [Hu Hv]; [lia..|].
  rewrite Hu, Hv. split; f_equal; lia.
Qed.

Lemma moments_meshgrid (m : t) (values : list R) :
  (0 < size m)%Z -> length values = Z.to_nat (size m * size m) ->
  let g := np.meshgrid (np.arange (- (size m / 2)) (size m - size m / 2))
                       (np.arange (- (size m / 2)) (size m - size m / 2)) in
  np.sum (zip_with (fun a x => IZR a * x) g.1 values) = Spec.moment_u m values
  /\ np.sum (zip_with (fun a x => IZR a * x) g.2 values) = Spec.moment_v m values.
Proof.
  intros Hn Hlen g. unfold Spec.moment_u, Spec.moment_v, origin.
  split; f_equal; apply list_eq; intros k;
    rewrite lookup_zip_with, list_lookup_imap;
    destruct (values !! k) as [x|] eqn:Hx.
  - assert (k < Z.to_nat (size m * size m))%nat as Hk
      by (rewrite <- Hlen; eapply lookup_lt_Some; eauto).
    destruct (grid_offsets_lookup m k Hn Hk) as [Hu _]. fold g in Hu.
    rewrite Hu. done.
  - destruct (g.1 !! k); done.
  - assert (k < Z.to_nat (size m * size m))%nat as Hk
      by (rewrite <- Hlen; eapply lookup_lt_Some; eauto).
    destruct (grid_offsets_lookup m k Hn Hk) as [_ Hv]. fold g in Hv.
    rewrite Hv. done.
  - destruct (g.2 !! k); done.
Qed.

Lemma pixel_area_nonzero (m : t) : scale m <> 0 -> pixel_area m <> 0.
Proof. unfold pixel_area. intros H. nra. Qed.

Lemma half_size_bounds (m : t) :
  (3 <= size m)%Z -> (0 <= size m / 2 /\ size m / 2 + 1 < size m)%Z.
Proof.
  intros Hn. split; [apply Z.div_pos; lia|].
  pose proof (Z.div_mod (size m) 2 ltac:(lia)).
  pose proof (Z.mod_pos_bound (size m) 2 ltac:(lia)). lia.
Qed.

Lemma cell_div_mod (m : t) (r c : Z) :
  (0 <= r)%Z -> (0 <= c < size m)%Z ->
  (Z.of_nat (Spec.cell m r c) `mod` size m = c
   /\ Z.of_nat (Spec.cell m r c) `div` size m = r)%Z.
Proof.
  intros Hr Hc. unfold Spec.cell. rewrite Z2Nat.id by nia. split; symmetry.
  - apply (Z.mod_unique_pos _ _ r); lia.
  - apply (Z.div_unique_pos _ _ _ c); lia.
Qed.

Lemma reserved_cells (m : t) :
  (3 <= size m)%Z ->
  (Spec.center_cell m < Z.to_nat (nparams m)
   /\ Spec.below_cell m < Z.to_nat (nparams m)
   /\ Spec.right_cell m < Z.to_nat (nparams m)
   /\ Spec.center_cell m <> Spec.below_cell m
   /\ Spec.center_cell m <> Spec.right_cell m
   /\ Spec.below_cell m <> Spec.right_cell m)%nat.
Proof.
  intros Hn. destruct (half_size_bounds m Hn) as [Ho1 Ho2].
  unfold Spec.center_cell, Spec.below_cell, Spec.right_cell, Spec.cell, origin, nparams.
  assert ((size m / 2 + 1) * size m <= (size m - 1) * size m)%Z by nia.
  assert (0 <= size m / 2 * size m)%Z by nia.
  lia.
Qed.

Lemma legacy_remap_short3 (m : t) (params : list R) :
  (3 <= size m)%Z -> scale m <> 0 ->
  Z.of_nat (length params) = (nparams m - 3)%Z ->
  let N := Z.to_nat (nparams m) in
  let mask := <[ Spec.right_cell m := false ]>
                (<[ Spec.below_cell m := false ]>
                   (<[ Spec.center_cell m := false ]> (replicate N true))) in
  let g := np.meshgrid (np.arange (- (size m / 2)) (size m - size m / 2))
                       (np.arange (- (size m / 2)) (size m - size m / 2)) in
  let temp0 := np.put_mask mask params (np.zeros N) in
  let temp1 :=
    <[ Spec.below_cell m := - np.sum (zip_with (fun a x => IZR a * x) g.2 temp0) ]> temp0 in
  let temp2 :=
    <[ Spec.right_cell m := - np.sum (zip_with (fun a x => IZR a * x) g.1 temp1) ]> temp1 in
  legacy_remap m params
  = Ok (<[ Spec.center_cell m := 1 / pixel_area m - np.sum temp2 ]> temp2).
Proof.
  intros Hn Hs Hlen N mask g temp0 temp1 temp2.
  unfold legacy_remap. unfold nparams in *. rewrite Z.pow_2_r.
  assert (0 <= size m / 2 /\ size m / 2 + 1 < size m)%Z as [Ho1 Ho2].
  { split; [apply Z.div_pos; lia|]. 
    pose proof (Z.div_mod (size m) 2 ltac:(lia)).
    pose proof (Z.mod_pos_bound (size m) 2 ltac:(lia)). lia. }
  replace ((size m * size m - Z.of_nat (length params) =? 1)%Z) with false
    by (symmetry; apply Z.eqb_neq; lia).
  replace ((size m * size m - Z.of_nat (length params) =? 3)%Z) with true
    by (symmetry; apply Z.eqb_eq; lia).
  replace ((size m * size m =? Z.of_nat (length params) + 3)%Z) with true
    by (symmetry; apply Z.eqb_eq; lia).
  simpl negb. cbv iota.
  rewrite !set2_in_range by lia. simpl rbind.
  rewrite !set2_in_range by lia. simpl rbind.
  fold N. 
  change (Z.to_nat (size m / 2 * size m + size m / 2)) with (Spec.center_cell m).
  change (Z.to_nat ((size m / 2 + 1) * size m + size m / 2)) with (Spec.below_cell m).
  change (Z.to_nat (size m / 2 * size m + (size m / 2 + 1))) with (Spec.right_cell m).
  fold mask.
  destruct (reserved_cells m Hn) as (Hc0 & Hc1 & Hc2 & H01 & H02 & H12).
  fold N in Hc0, Hc1, Hc2.
  assert (Hcount : np.count_true mask = length params).
  { unfold mask. rewrite !count_true_insert_false, count_true_replicate.
    - unfold N. lia.
    - apply lookup_replicate_2. done.
    - rewrite list_lookup_insert_ne by done. apply lookup_replicate_2. done.
    - rewrite !list_lookup_insert_ne by done. apply lookup_replicate_2. done. }
  rewrite set2_in_range by lia. simpl rbind.
  change (Z.to_nat (size m / 2 * size m + (size m / 2 + 1))) with (Spec.right_cell m).
  fold mask.
  unfold np.set_mask. rewrite decide_True by done. simpl rbind.
  fold temp0.
  rewrite set2_in_range by lia. simpl rbind.
  change (Z.to_nat ((size m / 2 + 1) * size m + size m / 2)) with (Spec.below_cell m).
  rewrite set2_in_range by lia. simpl rbind.
  change (Z.to_nat (size m / 2 * size m + (size m / 2 + 1))) with (Spec.right_cell m).
  rewrite decide_False by (apply pixel_area_nonzero; done).
  rewrite set2_in_range by lia.
  reflexivity.
Qed.

(** C2 (as amended): on a grid of size at least 3 and nonzero scale, the
    remap of a vector of [nparams - 3] values returns a full-length vector
    whose first moments along u and v are exactly zero and whose central
    value is [1 / pixel_area] minus the sum of all other values; the two
    off-centre reserved cells are solved first, from the supplied values
    alone, and the supplied values fill the other cells in order. *)
Theorem legacy_remap_zero_centroid (m : t) (params : list R) :
  (3 <= size m)%Z -> scale m <> 0 ->
  Z.of_nat (length params) = (nparams m - 3)%Z ->
  exists values c,
    legacy_remap m params = Ok values
    /\ Z.of_nat (length values) = nparams m
    /\ Spec.moment_u m values = 0
    /\ Spec.moment_v m values = 0
    /\ values !! Spec.center_cell m = Some c
    /\ c = 1 / pixel_area m - np.sum (<[ Spec.center_cell m := 0 ]> values)
    /\ values !! Spec.below_cell m
       = Some (- Spec.moment_v m (Spec.clear_reserved m values))
    /\ values !! Spec.right_cell m
       = Some (- Spec.moment_u m (Spec.clear_reserved m values))
    /\ Spec.free_cells m values = params.
Proof.
  intros Hn Hs Hlen.
  pose proof (legacy_remap_short3 m params Hn Hs Hlen) as Heq. cbv zeta in Heq.
  set (N := Z.to_nat (nparams m)) in *.
  set (mask := <[ Spec.right_cell m := false ]> _) in *.
  set (g := np.meshgrid _ _) in *.
  set (temp0 := np.put_mask mask params (np.zeros N)) in *.
  set (temp1 := <[ Spec.below_cell m := _ ]> temp0) in *.
  set (temp2 := <[ Spec.right_cell m := _ ]> temp1) in *.
  assert (0 <= size m / 2 /\ size m / 2 + 1 < size m)%Z as [Ho1 Ho2].
  { split; [apply Z.div_pos; lia|].
    pose proof (Z.div_mod (size m) 2 ltac:(lia)).
    pose proof (Z.mod_pos_bound (size m) 2 ltac:(lia)). lia. }
  destruct (reserved_cells m Hn) as (Hc0 & Hc1 & Hc2 & H01 & H02 & H12).
  fold N in Hc0, Hc1, Hc2.
  assert (Hmask0 : mask !! Spec.center_cell m = Some false).
  { unfold mask. rewrite !list_lookup_insert_ne by done.
    apply list_lookup_insert_eq. rewrite length_replicate. done. }
  assert (Hmask1 : mask !! Spec.below_cell m = Some false).
  { unfold mask. rewrite list_lookup_insert_ne by done.
    apply list_lookup_insert_eq. rewrite length_insert, length_replicate. done. }
  assert (Hmask2 : mask !! Spec.right_cell m = Some false).
  { unfold mask. apply list_lookup_insert_eq.
    rewrite !length_insert, length_replicate. done. }
  assert (Hlen0 : length temp0 = N).
  { unfold temp0. rewrite put_mask_length. apply length_replicate. }
  assert (Hz : forall k, (k < N)%nat -> mask !! k = Some false -> temp0 !! k = Some 0).
  { intros k Hk Hm. unfold temp0. rewrite put_mask_lookup_false by done.
    apply lookup_replicate_2. done. }
  pose proof (Hz _ Hc0 Hmask0) as Ht0.
  pose proof (Hz _ Hc1 Hmask1) as Ht1.
  pose proof (Hz _ Hc2 Hmask2) as Ht2.
  assert (Hg : forall r c, (0 <= r < size m)%Z -> (0 <= c < size m)%Z ->
             g.1 !! Spec.cell m r c = Some (c - size m / 2)%Z
             /\ g.2 !! Spec.cell m r c = Some (r - size m / 2)%Z).
  { intros r c Hr Hc.
    destruct (grid_offsets_lookup m (Spec.cell m r c)) as [Hu Hv]; [lia| |].
    { unfold Spec.cell. nia. }
    fold g in Hu, Hv. rewrite Hu, Hv.
    destruct (cell_div_mod m r c) as [-> ->]; [lia..|]. done. }
  destruct (Hg (size m / 2)%Z (size m / 2)%Z) as [Hu0 Hv0]; [lia..|].
  destruct (Hg (size m / 2 + 1)%Z (size m / 2)%Z) as [Hu1 Hv1]; [lia..|].
  destruct (Hg (size m / 2)%Z (size m / 2 + 1)%Z) as [Hu2 Hv2]; [lia..|].
  change (Spec.cell m (size m / 2)%Z (size m / 2)%Z) with (Spec.center_cell m) in Hu0, Hv0.
  change (Spec.cell m (size m / 2 + 1)%Z (size m / 2)%Z)
    with (Spec.below_cell m) in Hu1, Hv1.
  change (Spec.cell m (size m / 2)%Z (size m / 2 + 1)%Z)
    with (Spec.right_cell m) in Hu2, Hv2.
  replace (size m / 2 - size m / 2)%Z with 0%Z in * by lia.
  replace (size m / 2 + 1 - size m / 2)%Z with 1%Z in * by lia.
  set (Su := fun t => np.sum (zip_with (fun (a : Z) (x : R) => IZR a * x) g.1 t)) in *.
  set (Sv := fun t => np.sum (zip_with (fun (a : Z) (x : R) => IZR a * x) g.2 t)) in *.
  assert (Hv_1 : Sv temp1 = 0).
  { unfold Sv, temp1. rewrite (wsum_insert IZR g.2 temp0 _ 1%Z _ 0) by done.
    fold (Sv temp0). lra. }
  assert (Hu_1 : Su temp1 = Su temp0).
  { unfold Su, temp1. rewrite (wsum_insert IZR g.1 temp0 _ 0%Z _ 0) by done. lra. }
  assert (Ht1_2 : temp1 !! Spec.right_cell m = Some 0).
  { unfold temp1. rewrite list_lookup_insert_ne by done. done. }
  assert (Ht1_0 : temp1 !! Spec.center_cell m = Some 0).
  { unfold temp1. rewrite list_lookup_insert_ne by done. done. }
  assert (Hu_2 : Su temp2 = 0).
  { unfold Su, temp2. rewrite (wsum_insert IZR g.1 temp1 _ 1%Z _ 0) by done.
    fold (Su temp1). lra. }
  assert (Hv_2 : Sv temp2 = 0).
  { unfold Sv, temp2. rewrite (wsum_insert IZR g.2 temp1 _ 0%Z _ 0) by done.
    fold (Sv temp1). lra. }
  assert (Ht2_0 : temp2 !! Spec.center_cell m = Some 0).
  { unfold temp2. rewrite list_lookup_insert_ne by done. done. }
  assert (Hlen2 : length temp2 = N).
  { unfold temp2, temp1. rewrite !length_insert. done. }
  set (c := 1 / pixel_area m - np.sum temp2) in *.
  set (values := <[ Spec.center_cell m := c ]> temp2) in *.
  assert (Hlenv : length values = N) by (unfold values; rewrite length_insert; done).
  assert (Hclear : Spec.clear_reserved m values = temp0).
  { unfold Spec.clear_reserved, values, temp2, temp1.
    apply list_eq; intros k.
    destruct (decide (k = Spec.center_cell m)) as [->|].
    { rewrite list_lookup_insert_eq by (rewrite !length_insert; lia). done. }
    rewrite list_lookup_insert_ne by done.
    destruct (decide (k = Spec.below_cell m)) as [->|].
    { rewrite list_lookup_insert_eq by (rewrite !length_insert; lia). done. }
    rewrite list_lookup_insert_ne by done.
    destruct (decide (k = Spec.right_cell m)) as [->|].
    { rewrite list_lookup_insert_eq by (rewrite !length_insert; lia). done. }
    rewrite !list_lookup_insert_ne by done. done. }
  destruct (moments_meshgrid m values) as [Hmu Hmv]; [lia|done|].
  destruct (moments_meshgrid m temp0) as [Hmu0 Hmv0]; [lia|done|].
  fold g in Hmu, Hmv, Hmu0, Hmv0. fold (Su values) in Hmu. fold (Sv values) in Hmv.
  fold (Su temp0) in Hmu0. fold (Sv temp0) in Hmv0.
  exists values, c. repeat split.
  - exact Heq.
  - unfold N in Hlenv. unfold nparams in *. lia.
  - rewrite <- Hmu. unfold Su, values.
    rewrite (wsum_insert IZR g.1 temp2 _ 0%Z _ 0) by done. fold (Su temp2). lra.
  - rewrite <- Hmv. unfold Sv, values.
    rewrite (wsum_insert IZR g.2 temp2 _ 0%Z _ 0) by done. fold (Sv temp2). lra.
  - unfold values. apply list_lookup_insert_eq. lia.
  - unfold values. rewrite list_insert_insert_eq, list_insert_id by done. done.
  - rewrite Hclear, <- Hmv0. unfold values, temp2.
    rewrite !list_lookup_insert_ne by done. unfold temp1.
    apply list_lookup_insert_eq. lia.
  - rewrite Hclear, <- Hmu0, <- Hu_1. unfold values.
    rewrite list_lookup_insert_ne by done. unfold temp2.
    apply list_lookup_insert_eq. unfold temp1. rewrite length_insert. lia.
  - unfold Spec.free_cells.
    replace (imap _ values) with mask.
    + unfold values, temp2, temp1. rewrite !select_insert_false by done.
      apply select_put_mask.
      * unfold mask. rewrite !length_insert, length_replicate.
        symmetry. apply length_replicate.
      * unfold mask. rewrite !count_true_insert_false, count_true_replicate.
        -- unfold N. lia.
        -- apply lookup_replicate_2. done.
        -- rewrite list_lookup_insert_ne by done. apply lookup_replicate_2. done.
        -- rewrite !list_lookup_insert_ne by done. apply lookup_replicate_2. done.
    + apply list_eq; intros k. rewrite list_lookup_imap.
      destruct (decide (k < N)%nat) as [Hk|Hk].
      * destruct (lookup_lt_is_Some_2 values k) as [x Hx]; [lia|]. rewrite Hx. simpl.
        unfold mask.
        destruct (decide (k = Spec.right_cell m)) as [->|].
        { rewrite list_lookup_insert_eq by (rewrite !length_insert, length_replicate; lia).
          rewrite bool_decide_eq_false_2; [done|]. tauto. }
        rewrite list_lookup_insert_ne by done.
        destruct (decide (k = Spec.below_cell m)) as [->|].
        { rewrite list_lookup_insert_eq by (rewrite !length_insert, length_replicate; lia).
          rewrite bool_decide_eq_false_2; [done|]. tauto. }
        rewrite list_lookup_insert_ne by done.
        destruct (decide (k = Spec.center_cell m)) as [->|].
        { rewrite list_lookup_insert_eq by (rewrite ?length_insert, length_replicate; lia).
          rewrite bool_decide_eq_false_2; [done|]. tauto. }
        rewrite list_lookup_insert_ne by done.
        rewrite lookup_replicate_2 by done.
        rewrite bool_decide_eq_true_2; done.
      * rewrite (lookup_ge_None_2 values) by lia. simpl.
        apply lookup_ge_None_2. unfold mask.
        rewrite !length_insert, length_replicate. lia.
Qed.
End Legacy.

(** ** normalize *)

Section Normalize.
Import PixelGrid.

Lemma load_ok (h : heap) (p : loc) (v : list R) :
  h !! p = Some v -> load p h = Ok (v, h).
Proof. intros H. unfold load. rewrite H. done. Qed.

Lemma idiv_ok (h : heap) (p : loc) (v : list R) (s : R) :
  h !! p = Some v -> np.idiv p s h = Ok (tt, <[ p := (fun x => x / s) <$> v ]> h).
Proof. intros H. unfold np.idiv, bind. rewrite (load_ok h p v H). done. Qed.

Lemma newParams_ok (f : StarFit.t) (h : heap) (p : loc) (old v : list R)
    (var : option (list R)) (chi : option R) :
  StarFit.params f = Some p -> h !! p = Some old -> length old = length v ->
  StarFit.newParams f v var chi h
  = Ok (StarFit.mk (Some (length h)) (StarFit.flux f) (StarFit.center f) var
          None None chi None, h ++ [v]).
Proof.
  intros Hp Hh Hl. unfold StarFit.newParams, bind. rewrite Hp.
  rewrite (load_ok h p old Hh). rewrite decide_True by done. done.
Qed.

Lemma newParams_fresh (f : StarFit.t) (h : heap) (v : list R)
    (var : option (list R)) (chi : option R) :
  StarFit.params f = None ->
  StarFit.newParams f v var chi h
  = Ok (StarFit.mk (Some (length h)) (StarFit.flux f) (StarFit.center f) var
          None None chi None, h ++ [v]).
Proof. intros Hp. unfold StarFit.newParams, bind. rewrite Hp. done. Qed.

(** The standard path with [fit_flux] off: the array is divided by its sum
    in place and a new record takes a copy of it. *)
Lemma normalize_standard (m : t) (star : Star.t) (h : heap) (p : loc) (v : list R) :
  fit_flux m = false ->
  StarFit.params (Star.fit star) = Some p -> h !! p = Some v ->
  (size m ^ 2 <= Z.of_nat (length v))%Z ->
  let w := (fun x => x / np.sum v) <$> v in
  normalize m star h
  = Ok (Star.mk (Star.data star)
          (StarFit.mk (Some (length h)) (StarFit.flux (Star.fit star))
             (StarFit.center (Star.fit star)) None None None None None),
        <[ p := w ]> h ++ [w]).
Proof.
  intros Hff Hp Hv Hlen w. unfold normalize, StarFit.get_params. rewrite Hp.
  unfold bind at 1. rewrite (load_ok h p v Hv).
  replace (Z.of_nat (length v) <? size m ^ 2)%Z with false
    by (symmetry; apply Z.ltb_ge; done).
  unfold bind at 1. unfold ret at 1. rewrite Hff.
  unfold bind at 1. rewrite (load_ok h p v Hv).
  unfold bind at 1. rewrite (idiv_ok h p v _ Hv). fold w.
  assert (Hw : <[ p := w ]> h !! p = Some w).
  { apply list_lookup_insert_eq. eapply lookup_lt_Some; eauto. }
  unfold bind at 1. rewrite (load_ok _ p w Hw).
  unfold bind at 1. rewrite (newParams_ok _ _ p w w _ _ Hp Hw eq_refl).
  unfold ret. rewrite length_insert. done.
Qed.

(** With [fit_flux] on, a full-length vector is left alone. *)
Lemma normalize_fit_flux_full (m : t) (star : Star.t) (h : heap) (p : loc) (v : list R) :
  fit_flux m = true ->
  StarFit.params (Star.fit star) = Some p -> h !! p = Some v ->
  (size m ^ 2 <= Z.of_nat (length v))%Z ->
  normalize m star h = Ok (star, h).
Proof.
  intros Hff Hp Hv Hlen. unfold normalize, StarFit.get_params. rewrite Hp.
  unfold bind at 1. rewrite (load_ok h p v Hv).
  replace (Z.of_nat (length v) <? size m ^ 2)%Z with false
    by (symmetry; apply Z.ltb_ge; done).
  unfold bind at 1. unfold ret at 1. rewrite Hff. done.
Qed.

(** With [fit_flux] on, a legacy vector is remapped into a new array, but
    the star is left without parameters. *)
Lemma normalize_fit_flux_legacy (m : t) (star : Star.t) (h : heap) (p : loc)
    (v temp : list R) :
  fit_flux m = true ->
  StarFit.params (Star.fit star) = Some p -> h !! p = Some v ->
  (Z.of_nat (length v) < size m ^ 2)%Z ->
  legacy_remap m v = Ok temp ->
  normalize m star h
  = Ok (Star.mk (Star.data star) (StarFit.set_params (Star.fit star) None),
        h ++ [temp]).
Proof.
  intros Hff Hp Hv Hlen Ht. unfold normalize, StarFit.get_params. rewrite Hp.
  unfold bind at 1. rewrite (load_ok h p v Hv).
  replace (Z.of_nat (length v) <? size m ^ 2)%Z with true
    by (symmetry; apply Z.ltb_lt; done).
  unfold bind at 1. unfold bind at 1. unfold lift. rewrite Ht.
  unfold bind at 1. unfold alloc, ret. rewrite Hff. done.
Qed.

End Normalize.

(** ** initialize *)

Section Initialize.
Import PixelGrid.

Lemma initial_params_hsm_zero (m : t) (sigma : R) :
  exists v,
    initial_params m "hsm" sigma = Ok v
    /\ initial_params m "zero" sigma = Ok ((fun x => x * 1e-10) <$> v).
Proof. eexists. split; reflexivity. Qed.




End Initialize.

(** ** The index windows *)

Section Windows.
Import PixelGrid.

Lemma origin_bounds (m : t) :
  (0 < size m)%Z -> (2 * origin m <= size m <= 2 * origin m + 1)%Z.
Proof.
  intros Hn. unfold origin.
  pose proof (Z.div_mod (size m) 2 ltac:(lia)).
  pose proof (Z.mod_pos_bound (size m) 2 ltac:(lia)). lia.
Qed.

(** The integer part of a coordinate inside the support. *)
Lemma floor_in_support (m : t) (x : R) :
  0 < scale m -> Rabs x <= maxuv m ->
  (- size m - 2 <= 2 * Zfloor (x / scale m) <= size m + 1)%Z.
Proof.
  intros Hs Hx. unfold maxuv in Hx.
  assert (Hx' : - ((IZR (size m) + 1) / 2 * scale m) <= x
                /\ x <= (IZR (size m) + 1) / 2 * scale m)
    by (unfold Rabs in Hx; destruct (Rcase_abs x); lra).
  clear Hx. destruct Hx' as [Hx1 Hx2].
  assert (Hy : - ((IZR (size m) + 1) / 2) <= x / scale m <= (IZR (size m) + 1) / 2).
  { split.
    - apply (Rmult_le_reg_r (scale m)); [done|]. field_simplify; [|lra]. lra.
    - apply (Rmult_le_reg_r (scale m)); [done|]. field_simplify; [|lra]. lra. }
  pose proof (Zfloor_bound (x / scale m)) as [Hf1 Hf2].
  split.
  - assert (IZR (- size m - 3) < IZR (2 * Zfloor (x / scale m))); [|apply lt_IZR in H; lia].
    rewrite minus_IZR, opp_IZR, mult_IZR. lra.
  - apply le_IZR. rewrite mult_IZR, plus_IZR. lra.
Qed.

(** The window of a pixel along one axis, clipped at the grid. *)
Lemma window_clipped (m : t) (xr vi : Z) :
  (0 < size m)%Z -> (1 <= xr)%Z ->
  (- size m - 2 <= 2 * vi <= size m + 1)%Z ->
  let '(i1, i2, p1, p2) := window m xr vi in
  i1 = Z.max (vi - xr + origin m + 1) 0
  /\ i2 = Z.min (vi + xr + origin m + 1) (size m)
  /\ (0 <= i1 <= i2)%Z /\ (i2 <= size m)%Z
  /\ (0 <= p1 <= p2)%Z /\ (p2 <= 2 * xr)%Z
  /\ (i2 - i1 = p2 - p1)%Z
  /\ (i1 - p1 = vi - xr + origin m + 1)%Z.
Proof.
  intros Hn Hxr Hvi. pose proof (origin_bounds m Hn). unfold window.
  destruct (Z.ltb_spec (vi - xr + origin m + 1) 0);
    destruct (Z.gtb_spec (vi + xr + origin m + 1) (size m)); lia.
Qed.

End Windows.

(** ** The fast path, row by row *)

Section FastRow.
Import PixelGrid.

Lemma fmap_mjoin {A B} (f : A -> B) (ls : list (list A)) :
  f <$> mjoin ls = mjoin (fmap f <$> ls).
Proof. induction ls as [|l ls IH]; csimpl; [done|]. rewrite fmap_app, IH. done. Qed.

Lemma seqZ_shift (a d len : Z) : seqZ (a + d) len = Z.add d <$> seqZ a len.
Proof. rewrite fmap_add_seqZ. f_equal. lia. Qed.

Lemma window_cols_in_range (m : t) (i1 i2 j1 j2 : Z) :
  (0 <= i1 <= i2)%Z -> (i2 <= size m)%Z -> (0 <= j1 <= j2)%Z -> (j2 <= size m)%Z ->
  window_cols m i1 i2 j1 j2
  = mjoin ((fun r => (fun c => (r * size m + c)%Z) <$> seqZ j1 (j2 - j1))
             <$> seqZ i1 (i2 - i1)).
Proof.
  intros Hi1 Hi2 Hj1 Hj2. unfold window_cols, col_index, np.arange.
  rewrite slice_fmap, slice_seqZ by lia. rewrite <- list_fmap_compose.
  f_equal. apply list_fmap_ext. intros _ r _. simpl.
  rewrite slice_fmap, slice_seqZ by lia. done.
Qed.

Lemma elem_of_window_cols (m : t) (i1 i2 j1 j2 k : Z) :
  (0 < size m)%Z ->
  (0 <= i1 <= i2)%Z -> (i2 <= size m)%Z -> (0 <= j1 <= j2)%Z -> (j2 <= size m)%Z ->
  k ∈ window_cols m i1 i2 j1 j2
  <-> (i1 <= k `div` size m < i2)%Z /\ (j1 <= k `mod` size m < j2)%Z.
Proof.
  intros Hn Hi1 Hi2 Hj1 Hj2. rewrite window_cols_in_range by done.
  rewrite list_elem_of_join. split.
  - intros (l & Hk & Hl). apply list_elem_of_fmap in Hl as (r & -> & Hr).
    apply list_elem_of_fmap in Hk as (c & -> & Hc).
    apply elem_of_seqZ in Hr, Hc.
    rewrite (Z.add_comm (r * size m)), Z.div_add, Z.mod_add, Z.div_small, Z.mod_small by lia.
    lia.
  - intros [Hr Hc].
    exists ((fun c => (k `div` size m * size m + c)%Z) <$> seqZ j1 (j2 - j1)). split.
    + apply list_elem_of_fmap. exists (k `mod` size m)%Z. split.
      * pose proof (Z.div_mod k (size m) ltac:(lia)). lia.
      * apply elem_of_seqZ. lia.
    + apply list_elem_of_fmap. exists (k `div` size m)%Z. split; [done|].
      apply elem_of_seqZ. lia.
Qed.

Lemma window_cols_bounded (m : t) (i1 i2 j1 j2 : Z) :
  (0 < size m)%Z ->
  (0 <= i1 <= i2)%Z -> (i2 <= size m)%Z -> (0 <= j1 <= j2)%Z -> (j2 <= size m)%Z ->
  Forall (fun k => (0 <= k < nparams m)%Z) (window_cols m i1 i2 j1 j2).
Proof.
  intros Hn Hi1 Hi2 Hj1 Hj2. apply Forall_forall. intros k Hk.
  apply elem_of_window_cols in Hk as [Hr Hc]; [|done..].
  pose proof (Z.div_mod k (size m) ltac:(lia)). unfold nparams. nia.
Qed.

(** The weights of a window are a function of the column they go to. *)
Lemma window_weights_fun (m : t) (xr : Z) (fs uf vf : R) (i1 i2 p1 p2 j1 j2 q1 q2 : Z) :
  (0 < size m)%Z ->
  (0 <= i1 <= i2)%Z -> (i2 <= size m)%Z -> (0 <= j1 <= j2)%Z -> (j2 <= size m)%Z ->
  (0 <= p1 <= p2)%Z -> (p2 <= 2 * xr)%Z -> (0 <= q1 <= q2)%Z -> (q2 <= 2 * xr)%Z ->
  (i2 - i1 = p2 - p1)%Z -> (j2 - j1 = q2 - q1)%Z ->
  window_weights ((fun x => x * fs) <$> kernel_weights m xr uf) (kernel_weights m xr vf)
    p1 p2 q1 q2
  = (fun k =>
       xval (interp m) (- uf + IZR (k `mod` size m - j1 + q1 - xr + 1)) * fs
       * xval (interp m) (- vf + IZR (k `div` size m - i1 + p1 - xr + 1)))
      <$> window_cols m i1 i2 j1 j2.
Proof.
  intros Hn Hi1 Hi2 Hj1 Hj2 Hp1 Hp2 Hq1 Hq2 Hh Hw.
  rewrite window_cols_in_range by done.
  unfold window_weights, kernel_weights, np.arange.
  rewrite <- !list_fmap_compose, !slice_fmap, !slice_seqZ by lia.
  rewrite fmap_mjoin, <- !list_fmap_compose.
  replace (p2 - p1)%Z with (i2 - i1)%Z by lia.
  replace (q2 - q1)%Z with (j2 - j1)%Z by lia.
  replace (- xr + 1 + p1)%Z with (i1 + (- xr + 1 + p1 - i1))%Z by lia.
  replace (- xr + 1 + q1)%Z with (j1 + (- xr + 1 + q1 - j1))%Z by lia.
  rewrite !seqZ_shift, <- !list_fmap_compose.
  f_equal. apply list_fmap_ext. intros ir r Hr. simpl.
  apply lookup_seqZ in Hr as [-> Hr].
  rewrite <- !list_fmap_compose.
  apply list_fmap_ext. intros ic c Hc. simpl.
  apply lookup_seqZ in Hc as [-> Hc].
  rewrite (Z.add_comm (_ * size m)), Z.div_add, Z.mod_add, Z.div_small, Z.mod_small by lia.
  f_equal; [f_equal|]; f_equal; f_equal; f_equal; lia.
Qed.

Lemma kernel_outside (k : Interpolant) (xr t : Z) (v : R) :
  xrange k <= IZR xr ->
  (forall x, xrange k <= Rabs x -> xval k x = 0) ->
  (t <= Zfloor v - xr \/ Zfloor v + xr + 1 <= t)%Z ->
  xval k (v - IZR t) = 0.
Proof.
  intros Hxr Hsup Ht. apply Hsup.
  pose proof (Zfloor_bound v) as [Hf1 Hf2].
  destruct Ht as [Ht|Ht]; apply IZR_le in Ht.
  - rewrite minus_IZR in Ht. unfold Rabs. destruct (Rcase_abs _); lra.
  - rewrite !plus_IZR in Ht. unfold Rabs. destruct (Rcase_abs _); lra.
Qed.

Lemma fast_row_rendered (m : t) (d : StarData.t) (u0 v0 : R) (p : Pixel) :
  (0 < size m)%Z -> 0 < scale m -> 0 < xrange (interp m) ->
  (forall x, xval (interp m) (- x) = xval (interp m) x) ->
  (forall x, xrange (interp m) <= Rabs x -> xval (interp m) x = 0) ->
  in_support m u0 v0 p = true ->
  fast_row m (StarData.pixel_area d / pixel_area m)
    ((pix_u p - u0) / scale m) ((pix_v p - v0) / scale m)
  = Ok (Spec.rendered m d u0 v0 p <$> seq 0 (Z.to_nat (nparams m))).
Proof.
  intros Hn Hs Hxr Hsym Hsup Hin.
  unfold in_support in Hin. apply andb_prop in Hin as [Hin _].
  apply andb_prop in Hin as [Hu Hv].
  apply bool_decide_eq_true in Hu, Hv.
  pose proof (floor_in_support m _ Hs Hu) as Hui.
  pose proof (floor_in_support m _ Hs Hv) as Hvi.
  set (u := (pix_u p - u0) / scale m) in *.
  set (v := (pix_v p - v0) / scale m) in *.
  assert (Hxr1 : (1 <= Zceil (xrange (interp m)))%Z).
  { pose proof (Zceil_bound (xrange (interp m))) as [_ Hc].
    assert (0 < IZR (Zceil (xrange (interp m)))) as H0 by lra.
    apply lt_IZR in H0. lia. }
  assert (Hxr2 : xrange (interp m) <= IZR (Zceil (xrange (interp m))))
    by apply Zceil_bound.
  unfold fast_row. fold u v.
  set (xr := Zceil (xrange (interp m))) in *.
  pose proof (window_clipped m xr (Zfloor v) Hn Hxr1 Hvi) as Hwv.
  pose proof (window_clipped m xr (Zfloor u) Hn Hxr1 Hui) as Hwu.
  destruct (window m xr (Zfloor v)) as [[[i1 i2] p1] p2].
  destruct (window m xr (Zfloor u)) as [[[j1 j2] q1] q2].
  destruct Hwv as (Ei1 & Ei2 & Hi1 & Hi2 & Hp1 & Hp2 & Hh & Hip).
  destruct Hwu as (Ej1 & Ej2 & Hj1 & Hj2 & Hq1 & Hq2 & Hw & Hjq).
  rewrite (window_weights_fun m xr _ _ _ i1 i2 p1 p2 j1 j2 q1 q2) by done.
  rewrite put_fun.
  2:{ unfold np.zeros. rewrite length_replicate, Z2Nat.id by (unfold nparams; nia).
      apply window_cols_bounded; done. }
  f_equal. apply list_eq; intros k.
  rewrite list_lookup_imap, list_lookup_fmap.
  destruct (decide (k < Z.to_nat (nparams m))%nat) as [Hk|Hk].
  2:{ unfold np.zeros.
      rewrite (lookup_ge_None_2 (replicate _ _)) by (rewrite length_replicate; lia).
      rewrite lookup_seq_ge by lia. done. }
  unfold np.zeros. rewrite lookup_replicate_2 by done.
  rewrite lookup_seq_lt by done. simpl. f_equal.
  assert (Hkn : (0 <= Z.of_nat k < size m * size m)%Z) by (unfold nparams in Hk; lia).
  pose proof (Z.div_mod (Z.of_nat k) (size m) ltac:(lia)) as Hdm.
  pose proof (Z.mod_pos_bound (Z.of_nat k) (size m) Hn) as Hc.
  assert (Hr : (0 <= Z.of_nat k `div` size m < size m)%Z).
  { split; [apply Z.div_pos; lia|]. apply Z.div_lt_upper_bound; lia. }
  set (c := (Z.of_nat k `mod` size m)%Z) in *.
  set (r := (Z.of_nat k `div` size m)%Z) in *.
  unfold Spec.rendered, galsim.shift, galsim.dilate, galsim.unit_pixel. fold c r.
  replace ((pix_u p - u0 - IZR (c - origin m) * scale m) / scale m)
    with (u - IZR (c - origin m)) by (unfold u; field; lra).
  replace ((pix_v p - v0 - IZR (r - origin m) * scale m) / scale m)
    with (v - IZR (r - origin m)) by (unfold v; field; lra).
  case_decide as Hmem.
  - apply elem_of_window_cols in Hmem as [Hr' Hc']; [|done..].
    fold r c in Hr', Hc'.
    replace (c - j1 + q1 - xr + 1)%Z with (c - origin m - Zfloor u)%Z by lia.
    replace (r - i1 + p1 - xr + 1)%Z with (r - origin m - Zfloor v)%Z by lia.
    rewrite <- (Hsym (u - IZR (c - origin m))), <- (Hsym (v - IZR (r - origin m))).
    rewrite !(minus_IZR _ (Zfloor _)).
    replace (- (u - IZR (Zfloor u)) + (IZR (c - origin m) - IZR (Zfloor u)))
      with (- (u - IZR (c - origin m))) by lra.
    replace (- (v - IZR (Zfloor v)) + (IZR (r - origin m) - IZR (Zfloor v)))
      with (- (v - IZR (r - origin m))) by lra.
    unfold pixel_area. field. lra.
  - assert (Hout : (r - origin m <= Zfloor v - xr \/ Zfloor v + xr + 1 <= r - origin m
                    \/ c - origin m <= Zfloor u - xr
                    \/ Zfloor u + xr + 1 <= c - origin m)%Z).
    { destruct (decide (i1 <= r < i2 /\ j1 <= c < j2)%Z) as [Hyes|Hno].
      - exfalso. apply Hmem. apply elem_of_window_cols; done.
      - lia. }
    destruct Hout as [Ho|[Ho|Ho]].
    + rewrite (kernel_outside (interp m) xr (r - origin m) v) by (auto; lia). lra.
    + rewrite (kernel_outside (interp m) xr (r - origin m) v) by (auto; lia). lra.
    + rewrite (kernel_outside (interp m) xr (c - origin m) u) by (auto; lia). lra.
Qed.

End FastRow.

(** ** The two constructions of the design matrix *)

Section Jacobian.
Import PixelGrid.

Lemma rows_fmap {A} (f : R * R -> result (list R)) (g : A -> R * R)
    (h : A -> list R) (l : list A) :
  Forall (fun p => f (g p) = Ok (h p)) l -> rows f (g <$> l) = Ok (h <$> l).
Proof.
  induction 1 as [|p l Hp _ IH]; csimpl; [done|]. rewrite Hp. simpl. rewrite IH. done.
Qed.

Lemma zip_fmap_same {A B C} (f : A -> B) (g : A -> C) (l : list A) :
  zip (f <$> l) (g <$> l) = (fun x => (f x, g x)) <$> l.
Proof. induction l as [|x l IH]; csimpl; [done|]. rewrite IH. done. Qed.

Lemma fmap_seq_lookup {A B} (F : option A -> B) (l : list A) :
  (fun i => F (l !! i)) <$> seq 0 (length l) = (fun x => F (Some x)) <$> l.
Proof.
  apply list_eq; intros i. rewrite !list_lookup_fmap.
  destruct (decide (i < length l)%nat) as [Hi|Hi].
  - rewrite lookup_seq_lt by done. simpl.
    destruct (lookup_lt_is_Some_2 l i Hi) as [x Hx]. rewrite Hx. done.
  - rewrite lookup_seq_ge by lia. rewrite lookup_ge_None_2 by lia. done.
Qed.

Lemma jacobian_fast_rendered (m : t) (star : Star.t) (u0 v0 : R) :
  (0 < size m)%Z -> 0 < scale m -> 0 < xrange (interp m) ->
  (forall x, xval (interp m) (- x) = xval (interp m) x) ->
  (forall x, xrange (interp m) <= Rabs x -> xval (interp m) x = 0) ->
  jacobian_fast m star u0 v0 (in_support m u0 v0 <$> StarData.pixels (Star.data star))
  = Ok ((fun p => Spec.rendered m (Star.data star) u0 v0 p <$> seq 0 (Z.to_nat (nparams m)))
          <$> filter (fun p => in_support m u0 v0 p = true)
                (StarData.pixels (Star.data star))).
Proof.
  intros Hn Hs Hxr Hsym Hsup. unfold jacobian_fast.
  rewrite decide_False by (unfold pixel_area; nra).
  rewrite !select_fmap, <- !list_fmap_compose, zip_fmap_same.
  apply rows_fmap. apply Forall_forall. intros p Hp.
  apply list_elem_of_filter in Hp as [Hp _]. simpl.
  apply fast_row_rendered; done.
Qed.



End Jacobian.

(** ** chisq and fit *)

Section Fit.
Import PixelGrid.

Variable InterpolatedImage :
  Z -> list R -> R -> Interpolant -> option R -> galsim.Profile.
Variable lstsq : nat -> list (list R) -> list R -> list R.
Variable inv : list (list R) -> option (list (list R)).

(** What a successful [chisq] tells: the store is untouched, the star had a
    full-length parameter vector, and the result is the input's record with
    the four fields of the expansion replaced. *)
Lemma chisq_inv (m : t) (star star1 : Star.t)
    (conv : option (galsim.Profile -> galsim.Profile)) (dm : option string)
    (h h1 : heap) :
  chisq InterpolatedImage m star conv dm h = Ok (star1, h1) ->
  h1 = h
  /\ exists p v chi n A b,
       StarFit.params (Star.fit star) = Some p /\ h !! p = Some v
       /\ Z.of_nat (length v) = nparams m
       /\ star1 = Star.mk (Star.data star)
                    (StarFit.withNew (Star.fit star) chi n A b).
Proof.
  unfold chisq, bind, check_draw_method, StarFit.get_params.
  destruct dm as [s|]; [destruct (String.eqb s "no_pixel")|]; simpl; try discriminate.
  all: destruct (StarFit.params (Star.fit star)) as [p|]; [|discriminate].
  all: unfold load; destruct (h !! p) as [v|] eqn:Hv; [|discriminate].
  all: unfold lift, getProfile.
  all: destruct (decide (Z.of_nat (length v) = (size m * size m)%Z)) as [Hlen|];
    [|discriminate].
  all: destruct (StarFit.center (Star.fit star)) as [u0 v0].
  all: destruct conv as [c|]; simpl.
  all: try (destruct (jacobian_fast m star u0 v0 _) as [A|]; [|discriminate]).
  all: unfold ret; intros Heq; injection Heq as <- <-.
  all: split; [done|]; eexists p, v, _, _, _, _; repeat split; done.
Qed.

Lemma iadd_ok (h : heap) (p : loc) (v d : list R) :
  h !! p = Some v -> length v = length d ->
  np.iadd p d h = Ok (tt, <[ p := zip_with Rplus v d ]> h).
Proof.
  intros Hv Hl. unfold np.iadd, bind. rewrite (load_ok h p v Hv).
  rewrite decide_True by done. done.
Qed.

(** [fit] up to its last line: the input star's array is updated in place
    and a new record, with a copy of that array, goes to [normalize]. *)
Lemma fit_builds (m : t) (star : Star.t)
    (conv : option (galsim.Profile -> galsim.Profile)) (dm : option string)
    (h : heap) (p : loc) (v : list R) (chi : R) (n : nat) (A : list (list R))
    (b : list R) :
  (dm = None \/ dm = Some "no_pixel"%string) ->
  chisq InterpolatedImage m star conv None h
  = Ok (Star.mk (Star.data star) (StarFit.withNew (Star.fit star) chi n A b), h) ->
  StarFit.params (Star.fit star) = Some p -> h !! p = Some v ->
  length (lstsq (Z.to_nat (nparams m)) A b) = length v ->
  let dparam := lstsq (Z.to_nat (nparams m)) A b in
  let Adp := np.matvec A dparam in
  let new_chisq := chi + np.dot Adp Adp - 2 * np.dot Adp b in
  let params_var :=
    match inv (np.AtA (Z.to_nat (nparams m)) A) with
    | Some C => np.diagonal C
    | None => (fun x => x * 1e100) <$> replicate (length dparam) 1
    end in
  let w := zip_with Rplus v dparam in
  fit InterpolatedImage lstsq inv m star conv dm h
  = normalize m
      (Star.mk (Star.data star)
         (StarFit.mk (Some (length h)) (StarFit.flux (Star.fit star))
            (StarFit.center (Star.fit star)) (Some params_var) None None
            (Some new_chisq) None))
      (<[ p := w ]> h ++ [w]).
Proof.
  intros Hdm Hchisq Hp Hv Hlen dparam Adp new_chisq params_var w.
  unfold fit. unfold bind at 1.
  replace (check_draw_method dm h) with (Ok (tt, h) : result (unit * heap))
    by (destruct Hdm as [-> | ->]; done).
  unfold bind at 1. rewrite Hchisq.
  cbn [Star.fit Star.data StarFit.A StarFit.b StarFit.chisq StarFit.withNew].
  unfold StarFit.get_params. rewrite Hp.
  unfold bind at 1. rewrite (iadd_ok h p v _ Hv) by done.
  fold dparam. fold w.
  assert (Hw : <[ p := w ]> h !! p = Some w).
  { apply list_lookup_insert_eq. eapply lookup_lt_Some; eauto. }
  unfold bind at 1. rewrite (load_ok _ p w Hw).
  unfold bind at 1. 
  rewrite (newParams_ok (StarFit.withNew (Star.fit star) chi n A b) _ p w w _ _
             Hp Hw eq_refl).
  cbn [StarFit.flux StarFit.center StarFit.withNew]. rewrite length_insert. done.
Qed.

Lemma sentinel_vector (n : nat) :
  (fun x => x * 1e100) <$> replicate n 1 = replicate n 1e100.
Proof.
  induction n as [|n IH]; csimpl; [done|]. rewrite IH. f_equal. lra.
Qed.

(** The whole of [fit] after a successful [chisq]. *)
Lemma fit_outcome (m : t) (star star1 : Star.t)
    (conv : option (galsim.Profile -> galsim.Profile)) (dm : option string)
    (h h1 : heap) :
  (dm = None \/ dm = Some "no_pixel"%string) ->
  chisq InterpolatedImage m star conv None h = Ok (star1, h1) ->
  (forall A b, length (lstsq (Z.to_nat (nparams m)) A b) = Z.to_nat (nparams m)) ->
  exists p v built,
    StarFit.params (Star.fit star) = Some p /\ h !! p = Some v
    /\ Z.of_nat (length v) = nparams m
    /\ let w := zip_with Rplus v (Spec.dparam lstsq m star1) in
       let h2 := <[ p := w ]> h ++ [w] in
       fit InterpolatedImage lstsq inv m star conv dm h = normalize m built h2
       /\ Star.data built = Star.data star
       /\ StarFit.params (Star.fit built) = Some (length h)
       /\ h2 !! length h = Some w
       /\ length w = Z.to_nat (nparams m)
       /\ StarFit.chisq (Star.fit built) = Spec.quadratic_chisq lstsq m star1
       /\ StarFit.params_var (Star.fit built) = Spec.variances inv m star1
       /\ (fit_flux m = true -> normalize m built h2 = Ok (built, h2))
       /\ (fit_flux m = false ->
           exists star',
             normalize m built h2
             = Ok (star', <[ length h := Spec.normalized w ]> h2 ++ [Spec.normalized w])
             /\ StarFit.params (Star.fit star') = Some (length h2)).
Proof.
  intros Hdm Hchisq Hls.
  destruct (chisq_inv _ _ _ _ _ _ _ Hchisq) as [-> (p & v & chi & n & A & b & Hp & Hv & Hlen & ->)].
  pose proof (fit_builds m star conv dm h p v chi n A b Hdm Hchisq Hp Hv) as Hfit.
  rewrite Hls in Hfit. specialize (Hfit ltac:(lia)). cbv zeta in Hfit.
  eexists p, v, _. split; [done|]. split; [done|]. split; [done|].
  unfold Spec.dparam, Spec.quadratic_chisq, Spec.variances.
  cbn [Star.fit StarFit.A StarFit.b StarFit.chisq StarFit.withNew].
  set (w := zip_with Rplus v (lstsq (Z.to_nat (nparams m)) A b)) in *.
  assert (Hlw : length w = Z.to_nat (nparams m)).
  { unfold w. rewrite length_zip_with, Hls. lia. }
  assert (Hh2 : (<[ p := w ]> h ++ [w]) !! length h = Some w).
  { rewrite lookup_app_r by (rewrite length_insert; done).
    rewrite length_insert, Nat.sub_diag. done. }
  cbv zeta. split; [exact Hfit|]. split; [done|]. split; [done|]. split; [done|].
  split; [done|]. split.
  { cbn [Star.fit StarFit.chisq]. f_equal. lra. }
  split.
  { cbn [Star.fit StarFit.params_var]. destruct (inv _); [done|].
    rewrite sentinel_vector, Hls. done. }
  split.
  - intros Hff. eapply normalize_fit_flux_full; [done|done|exact Hh2|].
    rewrite Z.pow_2_r. unfold nparams in *. lia.
  - intros Hff. eexists. split.
    + erewrite normalize_standard; [|done|done|exact Hh2|].
      * cbv zeta. rewrite length_app, length_insert. simpl length.
        unfold Spec.normalized. reflexivity.
      * rewrite Z.pow_2_r. unfold nparams in *. lia.
    + cbn [Star.fit StarFit.params]. rewrite length_app, length_insert. simpl. done.
Qed.

Lemma filter_none {A} (P : A -> Prop) `{forall x, Decision (P x)} (l : list A) :
  Forall (fun x => ~ P x) l -> filter P l = [].
Proof.
  induction 1 as [|x l Hx _ IH]; [done|]. rewrite filter_cons, decide_False by done. done.
Qed.

(** A star whose weights are all zero keeps no pixel. *)
Lemma chisq_zero_weight (m : t) (star : Star.t)
    (conv : option (galsim.Profile -> galsim.Profile)) (dm : option string)
    (h : heap) (p : loc) (v : list R) :
  (dm = None \/ dm = Some "no_pixel"%string) ->
  0 < scale m ->
  StarFit.params (Star.fit star) = Some p -> h !! p = Some v ->
  Z.of_nat (length v) = nparams m ->
  Forall (fun px => pix_weight px = 0) (StarData.pixels (Star.data star)) ->
  chisq InterpolatedImage m star conv dm h
  = Ok (Star.mk (Star.data star) (StarFit.withNew (Star.fit star) 0 0 [] []), h).
Proof.
  intros Hdm Hs Hp Hv Hlen Hw. unfold chisq. unfold bind at 1.
  replace (check_draw_method dm h) with (Ok (tt, h) : result (unit * heap))
    by (destruct Hdm as [-> | ->]; done).
  unfold StarFit.get_params. rewrite Hp. unfold bind at 1. rewrite (load_ok h p v Hv).
  unfold bind at 1, lift at 1, getProfile.
  rewrite decide_True by (unfold nparams in Hlen; done).
  destruct (StarFit.center (Star.fit star)) as [u0 v0].
  assert (Hnone : filter (fun px => in_support m u0 v0 px = true)
                    (StarData.pixels (Star.data star)) = []).
  { apply filter_none. eapply Forall_impl; [exact Hw|]. intros px Hpx.
    unfold in_support. rewrite Hpx.
    rewrite (bool_decide_eq_true_2 (0 = 0)) by done.
    rewrite andb_false_r. done. }
  assert (HA : match conv with
               | Some c => Ok (jacobian_slow m star c u0 v0
                                 (in_support m u0 v0 <$> StarData.pixels (Star.data star)))
               | None => jacobian_fast m star u0 v0
                           (in_support m u0 v0 <$> StarData.pixels (Star.data star))
               end = Ok []).
  { destruct conv as [c|].
    - unfold jacobian_slow. destruct (basis_shifts m) as [du dv].
      rewrite count_mask, Hnone. done.
    - unfold jacobian_fast. rewrite decide_False by (unfold pixel_area; nra).
      rewrite !select_fmap, Hnone. done. }
  unfold bind at 1, lift at 1. rewrite HA.
  unfold StarData.draw. rewrite <- !list_fmap_compose, !select_fmap, Hnone.
  done.
Qed.

End Fit.

(** ** The windows and the two paths of chisq, initialize, the remap *)

Section Claims.
Import PixelGrid.

Lemma slice_length {A} (l : list A) (s e : Z) :
  (0 <= s <= e)%Z -> (e <= Z.of_nat (length l))%Z ->
  length (np.slice l s e) = Z.to_nat (e - s).
Proof.
  intros Hs He. unfold np.slice. rewrite !clamp_in_range by lia.
  rewrite length_take, length_drop. lia.
Qed.

Lemma length_mjoin_same {A} (n : nat) (ls : list (list A)) :
  Forall (fun l => length l = n) ls -> length (mjoin ls) = (length ls * n)%nat.
Proof.
  induction 1 as [|l ls Hl _ IH]; csimpl; [done|]. rewrite length_app, IH, Hl. lia.
Qed.

Lemma window_cols_length (m : t) (i1 i2 j1 j2 : Z) :
  (0 <= i1 <= i2)%Z -> (i2 <= size m)%Z -> (0 <= j1 <= j2)%Z -> (j2 <= size m)%Z ->
  length (window_cols m i1 i2 j1 j2) = (Z.to_nat (i2 - i1) * Z.to_nat (j2 - j1))%nat.
Proof.
  intros. rewrite window_cols_in_range by done.
  rewrite (length_mjoin_same (Z.to_nat (j2 - j1))).
  - rewrite length_fmap, length_seqZ. done.
  - apply Forall_fmap, Forall_true. intros r. simpl. rewrite length_fmap, length_seqZ. done.
Qed.

Lemma window_weights_length (uwt vwt : list R) (p1 p2 q1 q2 : Z) :
  (0 <= p1 <= p2)%Z -> (p2 <= Z.of_nat (length vwt))%Z ->
  (0 <= q1 <= q2)%Z -> (q2 <= Z.of_nat (length uwt))%Z ->
  length (window_weights uwt vwt p1 p2 q1 q2)
  = (Z.to_nat (p2 - p1) * Z.to_nat (q2 - q1))%nat.
Proof.
  intros. unfold window_weights.
  rewrite (length_mjoin_same (Z.to_nat (q2 - q1))).
  - rewrite length_fmap, slice_length by done. done.
  - apply Forall_fmap, Forall_true. intros r. simpl.
    rewrite length_fmap, slice_length by done. done.
Qed.

Lemma kernel_weights_length (m : t) (xr : Z) (uf : R) :
  length (kernel_weights m xr uf) = Z.to_nat (2 * xr).
Proof.
  unfold kernel_weights, np.arange. rewrite !length_fmap, length_seqZ. f_equal. lia.
Qed.

(** C10 (as amended): for a kernel whose support radius rounds up to at
    least one grid step, every retained pixel of the fast path gets index
    windows with [0 <= i1 <= i2 <= size], [0 <= j1 <= j2 <= size],
    [i2 - i1 = p2 - p1] and [j2 - j1 = q2 - q1]; the columns written lie in
    [[0, nparams)], there are as many weights as columns, and the row is
    assigned without an error. *)
Theorem fast_path_windows_in_bounds (m : t) (u0 v0 flux_scaling : R) (p : Pixel) :
  (0 < size m)%Z -> 0 < scale m -> (1 <= Zceil (xrange (interp m)))%Z ->
  in_support m u0 v0 p = true ->
  let xr := Zceil (xrange (interp m)) in
  let u := (pix_u p - u0) / scale m in
  let v := (pix_v p - v0) / scale m in
  let '(i1, i2, p1, p2) := window m xr (Zfloor v) in
  let '(j1, j2, q1, q2) := window m xr (Zfloor u) in
  ((0 <= i1 <= i2)%Z /\ (i2 <= size m)%Z)
  /\ ((0 <= j1 <= j2)%Z /\ (j2 <= size m)%Z)
  /\ (i2 - i1 = p2 - p1)%Z /\ (j2 - j1 = q2 - q1)%Z
  /\ Forall (fun k => (0 <= k < nparams m)%Z) (window_cols m i1 i2 j1 j2)
  /\ length (window_cols m i1 i2 j1 j2)
     = length (window_weights
                 ((fun x => x * flux_scaling) <$> kernel_weights m xr (u - IZR (Zfloor u)))
                 (kernel_weights m xr (v - IZR (Zfloor v))) p1 p2 q1 q2)
  /\ exists row, fast_row m flux_scaling u v = Ok row
                 /\ length row = Z.to_nat (nparams m).
Proof.
  intros Hn Hs Hxr Hin xr u v.
  unfold in_support in Hin. apply andb_prop in Hin as [Hin _].
  apply andb_prop in Hin as [Hu Hv].
  apply bool_decide_eq_true in Hu, Hv.
  pose proof (floor_in_support m _ Hs Hu) as Hui.
  pose proof (floor_in_support m _ Hs Hv) as Hvi.
  fold u in Hui. fold v in Hvi.
  pose proof (window_clipped m xr (Zfloor v) Hn Hxr Hvi) as Hwv.
  pose proof (window_clipped m xr (Zfloor u) Hn Hxr Hui) as Hwu.
  unfold fast_row. fold xr.
  destruct (window m xr (Zfloor v)) as [[[i1 i2] p1] p2].
  destruct (window m xr (Zfloor u)) as [[[j1 j2] q1] q2].
  destruct Hwv as (Ei1 & Ei2 & Hi1 & Hi2 & Hp1 & Hp2 & Hh & Hip).
  destruct Hwu as (Ej1 & Ej2 & Hj1 & Hj2 & Hq1 & Hq2 & Hw & Hjq).
  split; [done|]. split; [done|]. split; [done|]. split; [done|].
  split; [apply window_cols_bounded; done|].
  split.
  - rewrite window_cols_length by done.
    rewrite window_weights_length;
      rewrite ?length_fmap, ?kernel_weights_length; try lia.
  - rewrite (window_weights_fun m xr _ _ _ i1 i2 p1 p2 j1 j2 q1 q2) by done.
    rewrite put_fun.
    + eexists. split; [done|]. rewrite length_imap. apply length_replicate.
    + unfold np.zeros. rewrite length_replicate, Z2Nat.id by (unfold nparams; nia).
      apply window_cols_bounded; done.
Qed.

(** Facts about the concrete inputs. *)
Lemma Zceil_one : Zceil 1 = 1%Z.
Proof. apply Zceil_eq. simpl. lra. Qed.

Lemma Zceil_zero : Zceil 0 = 0%Z.
Proof. apply Zceil_eq. simpl. lra. Qed.

Lemma Linear_symmetric (x : R) : xval Ex.Linear (- x) = xval Ex.Linear x.
Proof. simpl. rewrite Rabs_Ropp. done. Qed.

Lemma Linear_support (x : R) : xrange Ex.Linear <= Rabs x -> xval Ex.Linear x = 0.
Proof. simpl. intros Hx. case_decide; lra. Qed.

Lemma in_support_origin (k : Interpolant) (s : R) (n : Z) (ff : bool) (d w : R) :
  0 < s -> (0 < n)%Z -> w <> 0 ->
  in_support (Ex.grid k s n ff) 0 0
    {| pix_data := d; pix_weight := w; pix_u := 0; pix_v := 0 |} = true.
Proof.
  intros Hs Hn Hw. unfold in_support, maxuv, Ex.grid.
  cbn [pix_u pix_v pix_weight scale size].
  assert (0 < IZR n) by (apply IZR_lt; done).
  rewrite (bool_decide_eq_false_2 (w = 0)) by done.
  rewrite bool_decide_eq_true_2; [done|].
  rewrite Rminus_0_r, Rabs_R0. nra.
Qed.

(** C10, a witness: the pixel at the origin of a grid of size 1 with the
    linear kernel. *)
Lemma fast_path_windows_witness :
  (0 < size (Ex.grid Ex.Linear 1 1 false))%Z
  /\ 0 < scale (Ex.grid Ex.Linear 1 1 false)
  /\ (1 <= Zceil (xrange (interp (Ex.grid Ex.Linear 1 1 false))))%Z
  /\ exists row,
       fast_row (Ex.grid Ex.Linear 1 1 false) 1 ((0 - 0) / 1) ((0 - 0) / 1) = Ok row
       /\ length row = 1%nat.
Proof.
  assert (H1 : (0 < size (Ex.grid Ex.Linear 1 1 false))%Z) by (simpl; lia).
  assert (H2 : 0 < scale (Ex.grid Ex.Linear 1 1 false)) by (simpl; lra).
  assert (H3 : (1 <= Zceil (xrange (interp (Ex.grid Ex.Linear 1 1 false))))%Z)
    by (simpl; rewrite Zceil_one; lia).
  assert (H4 : in_support (Ex.grid Ex.Linear 1 1 false) 0 0
                 {| pix_data := 3; pix_weight := 1; pix_u := 0; pix_v := 0 |} = true)
    by (apply in_support_origin; [lra | lia | lra]).
  pose proof (fast_path_windows_in_bounds _ 0 0 1 _ H1 H2 H3 H4) as H.
  cbv zeta in H.
  destruct (window _ _ _) as [[[i1 i2] p1] p2].
  destruct H as (_ & _ & _ & _ & _ & _ & Hrow).
  split; [exact H1|]. split; [exact H2|]. split; [exact H3|]. exact Hrow.
Defined.

(** C10, the claim as stated fails for a kernel without extent: with
    [galsim.Delta] on a grid of size 1, the pixel at [u = 1] is retained
    and its window along u is [j1 = 2 > j2 = 1]. *)
Lemma fast_path_windows_counterexample :
  (0 < size (Ex.grid Ex.Delta 1 1 false))%Z
  /\ 0 < scale (Ex.grid Ex.Delta 1 1 false)
  /\ in_support (Ex.grid Ex.Delta 1 1 false) 0 0 Ex.edge_pixel = true
  /\ window (Ex.grid Ex.Delta 1 1 false)
       (Zceil (xrange (interp (Ex.grid Ex.Delta 1 1 false))))
       (Zfloor ((pix_u Ex.edge_pixel - 0) / scale (Ex.grid Ex.Delta 1 1 false)))
     = (2, 1, 0, -1)%Z
  /\ ~ (2 <= 1)%Z.
Proof.
  split; [simpl; lia|]. split; [simpl; lra|]. split.
  - unfold in_support, maxuv, Ex.grid, Ex.edge_pixel.
    cbn [pix_u pix_v pix_weight scale size].
    rewrite (bool_decide_eq_false_2 (1 = 0)) by lra.
    rewrite (bool_decide_eq_true_2 (Rabs (1 - 0) <= _))
      by (rewrite Rminus_0_r, Rabs_R1; lra).
    rewrite bool_decide_eq_true_2; [done|].
    rewrite Rminus_0_r, Rabs_R0. lra.
  - split; [|lia]. simpl xrange. simpl scale. simpl pix_u.
    rewrite Zceil_zero. replace ((1 - 0) / 1) with (IZR 1) by (simpl; lra).
    rewrite ZfloorZ. reflexivity.
Qed.

(** C2, a witness: six values on a grid of size 3. *)
Lemma legacy_remap_witness :
  (3 <= size (Ex.grid Ex.Linear 1 3 false))%Z
  /\ scale (Ex.grid Ex.Linear 1 3 false) <> 0
  /\ exists values c,
       legacy_remap (Ex.grid Ex.Linear 1 3 false) [1; 2; 3; 4; 5; 6] = Ok values
       /\ Z.of_nat (length values) = nparams (Ex.grid Ex.Linear 1 3 false)
       /\ Spec.moment_u (Ex.grid Ex.Linear 1 3 false) values = 0
       /\ Spec.moment_v (Ex.grid Ex.Linear 1 3 false) values = 0
       /\ values !! Spec.center_cell (Ex.grid Ex.Linear 1 3 false) = Some c.
Proof.
  assert (H1 : (3 <= size (Ex.grid Ex.Linear 1 3 false))%Z) by (simpl; lia).
  assert (H2 : scale (Ex.grid Ex.Linear 1 3 false) <> 0) by (simpl; lra).
  assert (H3 : Z.of_nat (length [1; 2; 3; 4; 5; 6])
               = (nparams (Ex.grid Ex.Linear 1 3 false) - 3)%Z) by reflexivity.
  destruct (legacy_remap_zero_centroid _ _ H1 H2 H3)
    as (values & c & Hv & Hl & Hu & Hw & Hc & _).
  split; [exact H1|]. split; [exact H2|].
  exists values, c. repeat split; assumption.
Defined.

(** C2, the claim as stated fails on a grid of size 2: the one value that
    [nparams - 3] leaves is accepted, but the cell below the centre does
    not exist and the remap stops with an IndexError. *)
Lemma legacy_remap_counterexample :
  Z.of_nat (length [5]) = (nparams (Ex.grid Ex.Linear 1 2 false) - 3)%Z
  /\ legacy_remap (Ex.grid Ex.Linear 1 2 false) [5] = Raise IndexError.
Proof. split; reflexivity. Qed.




End Claims.

(** ** chisq returns *)

Section Returns.
Import PixelGrid.

Lemma Zceil_nonneg (x : R) : 0 <= x -> (0 <= Zceil x)%Z.
Proof.
  intros Hx. pose proof (Zceil_bound x) as [_ Hc].
  apply le_IZR. lra.
Qed.

Lemma slice_nil {A} (s e : Z) : np.slice (@nil A) s e = [].
Proof. unfold np.slice. rewrite drop_nil, take_nil. done. Qed.

(** A kernel without extent: nothing is scattered. *)
Lemma fast_row_no_extent (m : t) (flux_scaling u v : R) :
  (0 < size m)%Z -> Zceil (xrange (interp m)) = 0%Z ->
  (- size m - 2 <= 2 * Zfloor u <= size m + 1)%Z ->
  (- size m - 2 <= 2 * Zfloor v <= size m + 1)%Z ->
  fast_row m flux_scaling u v = Ok (np.zeros (Z.to_nat (nparams m))).
Proof.
  intros Hn Hxr Hu Hv. pose proof (origin_bounds m Hn) as Ho.
  unfold fast_row. rewrite Hxr.
  assert (Hk : forall f, kernel_weights m 0 f = []) by reflexivity.
  rewrite !Hk. 
  destruct (window m 0 (Zfloor v)) as [[[i1 i2] p1] p2] eqn:Ewv.
  destruct (window m 0 (Zfloor u)) as [[[j1 j2] q1] q2] eqn:Ewu.
  unfold window_weights, window_cols.
  assert (Hrows : np.slice (col_index m) i1 i2 = []).
  { apply slice_empty. unfold col_index, np.arange.
    rewrite length_fmap, length_seqZ, Z2Nat.id by lia.
    unfold window in Ewv.
    destruct (Z.ltb_spec (Zfloor v - 0 + origin m + 1) 0);
      destruct (Z.gtb_spec (Zfloor v + 0 + origin m + 1) (size m));
      injection Ewv as <- <- <- <-; unfold np.clamp;
      repeat match goal with |- context [(?a <? ?b)%Z] => destruct (Z.ltb_spec a b) end;
      lia. }
  rewrite Hrows, slice_nil. reflexivity.
Qed.

Lemma fast_row_returns (m : t) (u0 v0 flux_scaling : R) (p : Pixel) :
  (0 < size m)%Z -> 0 < scale m -> 0 <= xrange (interp m) ->
  in_support m u0 v0 p = true ->
  exists row,
    fast_row m flux_scaling ((pix_u p - u0) / scale m) ((pix_v p - v0) / scale m)
    = Ok row
    /\ length row = Z.to_nat (nparams m).
Proof.
  intros Hn Hs Hxr Hin.
  unfold in_support in Hin. apply andb_prop in Hin as [Hin _].
  apply andb_prop in Hin as [Hu Hv].
  apply bool_decide_eq_true in Hu, Hv.
  pose proof (floor_in_support m _ Hs Hu) as Hui.
  pose proof (floor_in_support m _ Hs Hv) as Hvi.
  pose proof (Zceil_nonneg _ Hxr) as Hxr0.
  destruct (decide (Zceil (xrange (interp m)) = 0%Z)) as [Hz|Hnz].
  { rewrite fast_row_no_extent by done. eexists. split; [done|]. apply length_replicate. }
  assert (Hxr1 : (1 <= Zceil (xrange (interp m)))%Z) by lia.
  pose proof (window_clipped m _ (Zfloor ((pix_v p - v0) / scale m)) Hn Hxr1 Hvi) as Hwv.
  pose proof (window_clipped m _ (Zfloor ((pix_u p - u0) / scale m)) Hn Hxr1 Hui) as Hwu.
  unfold fast_row.
  destruct (window m _ (Zfloor ((pix_v p - v0) / scale m))) as [[[i1 i2] p1] p2].
  destruct (window m _ (Zfloor ((pix_u p - u0) / scale m))) as [[[j1 j2] q1] q2].
  destruct Hwv as (Ei1 & Ei2 & Hi1 & Hi2 & Hp1 & Hp2 & Hh & Hip).
  destruct Hwu as (Ej1 & Ej2 & Hj1 & Hj2 & Hq1 & Hq2 & Hw & Hjq).
  rewrite (window_weights_fun m _ _ _ _ i1 i2 p1 p2 j1 j2 q1 q2) by done.
  rewrite put_fun.
  - eexists. split; [done|]. rewrite length_imap. apply length_replicate.
  - unfold np.zeros. rewrite length_replicate, Z2Nat.id by (unfold nparams; nia).
    apply window_cols_bounded; done.
Qed.

Lemma rows_returns {A} (f : R * R -> result (list R)) (g : A -> R * R) (l : list A) :
  Forall (fun p => exists row, f (g p) = Ok row) l ->
  exists M, rows f (g <$> l) = Ok M.
Proof.
  induction 1 as [|p l [row Hp] _ [M IH]]; csimpl; [eauto|].
  rewrite Hp. simpl. rewrite IH. simpl. eauto.
Qed.

Lemma jacobian_fast_returns (m : t) (star : Star.t) (u0 v0 : R) :
  (0 < size m)%Z -> 0 < scale m -> 0 <= xrange (interp m) ->
  exists M,
    jacobian_fast m star u0 v0 (in_support m u0 v0 <$> StarData.pixels (Star.data star))
    = Ok M.
Proof.
  intros Hn Hs Hxr. unfold jacobian_fast.
  rewrite decide_False by (unfold pixel_area; nra).
  rewrite !select_fmap, <- !list_fmap_compose, zip_fmap_same.
  apply rows_returns. apply Forall_forall. intros p Hp.
  apply list_elem_of_filter in Hp as [Hp _]. simpl.
  destruct (fast_row_returns m u0 v0 (StarData.pixel_area (Star.data star) / pixel_area m)
              p Hn Hs Hxr Hp) as (row & Hrow & _).
  eauto.
Qed.

Section WithImage.

Variable InterpolatedImage :
  Z -> list R -> R -> Interpolant -> option R -> galsim.Profile.

(** [chisq] returns for every star with a full-length parameter vector. *)
Lemma chisq_returns (m : t) (star : Star.t)
    (conv : option (galsim.Profile -> galsim.Profile)) (dm : option string)
    (h : heap) (v : list R) :
  (0 < size m)%Z -> 0 < scale m -> 0 <= xrange (interp m) ->
  (dm = None \/ dm = Some "no_pixel"%string) ->
  Spec.params_of star h = Some v -> Z.of_nat (length v) = nparams m ->
  exists star1, chisq InterpolatedImage m star conv dm h = Ok (star1, h).
Proof.
  intros Hn Hs Hxr Hdm Hv Hlen. unfold Spec.params_of in Hv.
  destruct (StarFit.params (Star.fit star)) as [p|] eqn:Hp; [|done]. simpl in Hv.
  unfold chisq. unfold bind at 1.
  replace (check_draw_method dm h) with (Ok (tt, h) : result (unit * heap))
    by (destruct Hdm as [-> | ->]; done).
  unfold StarFit.get_params. rewrite Hp. unfold bind at 1. rewrite (load_ok h p v Hv).
  unfold bind at 1, lift at 1, getProfile.
  rewrite decide_True by (unfold nparams in Hlen; done).
  destruct (StarFit.center (Star.fit star)) as [u0 v0].
  unfold bind at 1, lift at 1.
  destruct conv as [c|].
  - eexists. reflexivity.
  - destruct (jacobian_fast_returns m star u0 v0 Hn Hs Hxr) as [M ->].
    eexists. reflexivity.
Qed.

End WithImage.

End Returns.

(** ** Runs on the concrete inputs, and what fit returns *)

Section Runs.
Import PixelGrid.

Lemma Linear_at_zero (x : R) : x = 0 -> xval Ex.Linear x = 1.
Proof. intros ->. simpl. rewrite Rabs_R0. rewrite decide_True by lra. lra. Qed.

Lemma one_pixel_profile (ff : bool) :
  Ex.InterpolatedImage 1 [1] 1 Ex.Linear (if ff then None else Some 1) 0 0 = 1.
Proof.
  unfold Ex.InterpolatedImage. cbn [imap np.sum foldr].
  change (Z.of_nat 0 `mod` 1 - 1 `div` 2)%Z with 0%Z.
  change (Z.of_nat 0 `div` 1 - 1 `div` 2)%Z with 0%Z.
  rewrite !Linear_at_zero by lra. destruct ff; lra.
Qed.

(** [chisq] on the star of one pixel: the model is 1 where the data is 3. *)
Lemma one_pixel_chisq (ff : bool) :
  chisq Ex.InterpolatedImage (Ex.grid Ex.Linear 1 1 ff) Ex.star None None [[1]]
  = Ok (Star.mk (Star.data Ex.star) (StarFit.withNew Ex.star_fit 4 1 [[1]] [2]), [[1]]).
Proof.
  pose proof (in_support_origin Ex.Linear 1 1 ff 3 1 ltac:(lra) ltac:(lia) ltac:(lra))
    as Hin.
  assert (HA : jacobian_fast (Ex.grid Ex.Linear 1 1 ff) Ex.star 0 0
                 (in_support (Ex.grid Ex.Linear 1 1 ff) 0 0
                    <$> StarData.pixels (Star.data Ex.star))
               = Ok [[1]]).
  { rewrite jacobian_fast_rendered;
      [|simpl; lia|simpl; lra|simpl; lra|apply Linear_symmetric|apply Linear_support].
    cbn [Ex.star Star.data StarData.pixels]. rewrite filter_cons, decide_True by exact Hin.
    rewrite filter_nil. cbn [fmap list_fmap]. 
    change (Z.to_nat (nparams (Ex.grid Ex.Linear 1 1 ff))) with 1%nat.
    cbn [seq fmap list_fmap].
    assert (Hr : Spec.rendered (Ex.grid Ex.Linear 1 1 ff) (Star.data Ex.star) 0 0
                   {| pix_data := 3; pix_weight := 1; pix_u := 0; pix_v := 0 |} 0 = 1);
      [|cbn [Ex.star Star.data] in Hr; rewrite Hr; done].
    unfold Spec.rendered, galsim.shift, galsim.dilate, galsim.unit_pixel.
    cbn [Ex.grid size scale interp origin pix_u pix_v StarData.pixel_area].
    change (Z.of_nat 0 `mod` 1 - origin (Ex.grid Ex.Linear 1 1 ff))%Z with 0%Z.
    change (Z.of_nat 0 `div` 1 - origin (Ex.grid Ex.Linear 1 1 ff))%Z with 0%Z.
    rewrite !Linear_at_zero by lra.
    change (StarData.pixel_area (Star.data Ex.star)) with 1. lra. }
  unfold chisq. unfold bind at 1. unfold check_draw_method, ret.
  unfold StarFit.get_params.
  change (StarFit.params (Star.fit Ex.star)) with (Some 0%nat).
  unfold bind at 1. unfold load. cbn [lookup list_lookup].
  unfold bind at 1. unfold lift at 1, getProfile.
  rewrite decide_True by reflexivity.
  change (StarFit.center (Star.fit Ex.star)) with (0, 0).
  unfold bind at 1. unfold lift at 1. rewrite HA.
  cbn [Ex.star Star.data StarData.pixels fmap list_fmap]. rewrite Hin.
  cbn [np.select StarData.draw StarData.pixels fmap list_fmap filter list_filter
       zip_with pix_data pix_weight pix_u pix_v StarData.pixel_area Star.fit
       StarFit.flux Ex.star_fit np.sum foldr length].
  unfold galsim.shift. replace (0 - 0 - 0) with 0 by lra.
  cbn [Ex.grid size scale interp fit_flux].
  rewrite (one_pixel_profile ff), sqrt_1.
  change (StarFit.flux (Star.fit Ex.star)) with 1.
  rewrite decide_True by lra.
  change (Star.fit Ex.star) with Ex.star_fit. cbn [length].
  replace (((3 - 1 * 1 * 1) * 1) ^ 2 + 0) with 4 by lra.
  replace (1 * 1 * 1) with 1 by lra.
  replace ((3 - 1) * 1) with 2 by lra.
  reflexivity.
Qed.

End Runs.

Section FitReturns.
Import PixelGrid.

Variable InterpolatedImage :
  Z -> list R -> R -> Interpolant -> option R -> galsim.Profile.
Variable lstsq : nat -> list (list R) -> list R -> list R.
Variable inv : list (list R) -> option (list (list R)).

Lemma sum_normalized (v : list R) : np.sum v <> 0 -> np.sum (Spec.normalized v) = 1.
Proof. intros Hv. unfold Spec.normalized. rewrite sum_div. field. done. Qed.

(** What [fit] returns after a successful [chisq], and what it leaves in
    the array of the star it was given. *)
Lemma fit_returns (m : t) (star star1 : Star.t)
    (conv : option (galsim.Profile -> galsim.Profile)) (dm : option string)
    (h h1 : heap) (v : list R) :
  (dm = None \/ dm = Some "no_pixel"%string) ->
  chisq InterpolatedImage m star conv None h = Ok (star1, h1) ->
  (forall A b, length (lstsq (Z.to_nat (nparams m)) A b) = Z.to_nat (nparams m)) ->
  Spec.params_of star h = Some v ->
  let w := zip_with Rplus v (Spec.dparam lstsq m star1) in
  exists p built h2 star' h',
    StarFit.params (Star.fit star) = Some p
    /\ fit InterpolatedImage lstsq inv m star conv dm h = Ok (star', h')
    /\ normalize m built h2 = Ok (star', h')
    /\ Spec.params_of built h2 = Some w
    /\ StarFit.chisq (Star.fit built) = Spec.quadratic_chisq lstsq m star1
    /\ StarFit.params_var (Star.fit built) = Spec.variances inv m star1
    /\ (fit_flux m = true -> star' = built /\ h' = h2)
    /\ Spec.params_of star' h' = Some (if fit_flux m then w else Spec.normalized w)
    /\ h' !! p = Some w.
Proof.
  intros Hdm Hchisq Hls Hv w.
  destruct (fit_outcome InterpolatedImage lstsq inv m star star1 conv dm h h1
              Hdm Hchisq Hls)
    as (p & v' & built & Hp & Hhp & Hlen & Hout).
  assert (v' = v) as ->.
  { unfold Spec.params_of in Hv. rewrite Hp in Hv. simpl in Hv. congruence. }
  cbv zeta in Hout. fold w in Hout.
  destruct Hout as (Hfit & Hdata & Hbp & Hh2 & Hlw & Hchi & Hvar & Htrue & Hfalse).
  assert (Hpl : (p < length h)%nat) by (eapply lookup_lt_Some; eauto).
  set (h2 := <[ p := w ]> h ++ [w]) in *.
  assert (Hh2p : h2 !! p = Some w).
  { unfold h2. rewrite lookup_app_l by (rewrite length_insert; done).
    apply list_lookup_insert_eq. done. }
  assert (Hlh2 : length h2 = S (length h)).
  { unfold h2. rewrite length_app, length_insert. simpl. lia. }
  assert (Hbuilt : Spec.params_of built h2 = Some w).
  { unfold Spec.params_of. rewrite Hbp. done. }
  destruct (fit_flux m) eqn:Hff.
  - specialize (Htrue eq_refl).
    exists p, built, h2, built, h2. rewrite Hfit. repeat split; try done.
  - destruct (Hfalse eq_refl) as (star' & Hnorm & Hsp).
    exists p, built, h2, star', (<[ length h := Spec.normalized w ]> h2 ++ [Spec.normalized w]).
    rewrite Hfit. repeat split; try done.
    + unfold Spec.params_of. rewrite Hsp. simpl.
      rewrite lookup_app_r by (rewrite length_insert; done).
      rewrite length_insert, Nat.sub_diag. done.
    + rewrite lookup_app_l by (rewrite length_insert; lia).
      rewrite list_lookup_insert_ne by lia. done.
Qed.

(** The record of the star that [fit] returns.  With [fit_flux] on it is
    the record that [fit] makes, with the variances and the chisq.  With
    [fit_flux] off it is the record that [normalize] makes from the
    normalized parameters alone, which has neither. *)
Lemma fit_record (m : t) (star star1 : Star.t)
    (conv : option (galsim.Profile -> galsim.Profile)) (dm : option string)
    (h h1 : heap) (v : list R) :
  (dm = None \/ dm = Some "no_pixel"%string) ->
  chisq InterpolatedImage m star conv None h = Ok (star1, h1) ->
  (forall A b, length (lstsq (Z.to_nat (nparams m)) A b) = Z.to_nat (nparams m)) ->
  Spec.params_of star h = Some v ->
  let w := zip_with Rplus v (Spec.dparam lstsq m star1) in
  exists star' h',
    fit InterpolatedImage lstsq inv m star conv dm h = Ok (star', h')
    /\ Spec.params_of star' h' = Some (if fit_flux m then w else Spec.normalized w)
    /\ StarFit.chisq (Star.fit star')
       = (if fit_flux m then Spec.quadratic_chisq lstsq m star1 else None)
    /\ StarFit.params_var (Star.fit star')
       = (if fit_flux m then Spec.variances inv m star1 else None)
    /\ Star.data star' = Star.data star.
Proof.
  intros Hdm Hchisq Hls Hv w.
  destruct (fit_outcome InterpolatedImage lstsq inv m star star1 conv dm h h1
              Hdm Hchisq Hls)
    as (p & v' & built & Hp & Hhp & Hlen & Hout).
  assert (v' = v) as ->.
  { unfold Spec.params_of in Hv. rewrite Hp in Hv. simpl in Hv. congruence. }
  cbv zeta in Hout. fold w in Hout.
  destruct Hout as (Hfit & Hdata & Hbp & Hh2 & Hlw & Hchi & Hvar & Htrue & _).
  set (h2 := <[ p := w ]> h ++ [w]) in *.
  destruct (fit_flux m) eqn:Hff.
  - exists built, h2. rewrite Hfit, (Htrue eq_refl).
    split; [done|]. split; [|done].
    unfold Spec.params_of. rewrite Hbp. done.
  - assert (Hl2 : (size m ^ 2 <= Z.of_nat (length w))%Z).
    { rewrite Hlw, Z.pow_2_r. unfold nparams in *. lia. }
    pose proof (normalize_standard m built h2 (length h) w Hff Hbp Hh2 Hl2) as Hn.
    cbv zeta in Hn. fold (Spec.normalized w) in Hn.
    eexists _, _. rewrite Hfit. split; [exact Hn|].
    cbn [Star.fit Star.data StarFit.chisq StarFit.params_var].
    split; [|done].
    unfold Spec.params_of. cbn [Star.fit StarFit.params]. simpl.
    rewrite lookup_app_r by (rewrite length_insert; done).
    rewrite length_insert, Nat.sub_diag. done.
Qed.

End FitReturns.

(** ** fit *)

Section FitClaims.
Import PixelGrid.

Variable InterpolatedImage :
  Z -> list R -> R -> Interpolant -> option R -> galsim.Profile.
Variable lstsq : nat -> list (list R) -> list R -> list R.
Variable inv : list (list R) -> option (list (list R)).

(** C3: with [fit_flux] off, [normalize] turns a full-length vector of
    nonzero sum into a vector of sum 1, each value divided by the sum; and
    since [fit] ends with [normalize], the vector of the star that [fit]
    returns sums to 1 whenever the updated vector has a nonzero sum. *)
Theorem normalize_unit_sum (m : t) (star : Star.t)
    (conv : option (galsim.Profile -> galsim.Profile)) (dm : option string)
    (h : heap) (v : list R) :
  fit_flux m = false ->
  Spec.params_of star h = Some v -> Z.of_nat (length v) = nparams m ->
  (np.sum v <> 0 ->
   exists star' h',
     normalize m star h = Ok (star', h')
     /\ Spec.params_of star' h' = Some (Spec.normalized v)
     /\ np.sum (Spec.normalized v) = 1)
  /\ ((0 < size m)%Z -> 0 < scale m -> 0 <= xrange (interp m) ->
      (dm = None \/ dm = Some "no_pixel"%string) ->
      (forall A b, length (lstsq (Z.to_nat (nparams m)) A b) = Z.to_nat (nparams m)) ->
      exists star1 star' h' v',
        chisq InterpolatedImage m star conv None h = Ok (star1, h)
        /\ fit InterpolatedImage lstsq inv m star conv dm h = Ok (star', h')
        /\ Spec.params_of star' h' = Some v'
        /\ v' = Spec.normalized (zip_with Rplus v (Spec.dparam lstsq m star1))
        /\ (np.sum (zip_with Rplus v (Spec.dparam lstsq m star1)) <> 0 ->
            np.sum v' = 1)).
Proof.
  intros Hff Hv Hlen. split.
  - intros Hsum. unfold Spec.params_of in Hv.
    destruct (StarFit.params (Star.fit star)) as [p|] eqn:Hp; [|done]. simpl in Hv.
    eexists _, _. split; [|split].
    + apply (normalize_standard m star h p v Hff Hp Hv).
      rewrite Z.pow_2_r. unfold nparams in Hlen. lia.
    + unfold Spec.params_of. simpl.
      rewrite lookup_app_r by (rewrite length_insert; done).
      rewrite length_insert, Nat.sub_diag. done.
    + apply sum_normalized. done.
  - intros Hn Hs Hxr Hdm Hls.
    destruct (chisq_returns InterpolatedImage m star conv None h v Hn Hs Hxr
                (or_introl eq_refl) Hv Hlen) as [star1 Hchisq].
    destruct (fit_returns InterpolatedImage lstsq inv m star star1 conv dm h h v
                Hdm Hchisq Hls Hv)
      as (p & built & h2 & star' & h' & _ & Hfit & _ & _ & _ & _ & _ & Hret & _).
    rewrite Hff in Hret.
    eexists star1, star', h', _. split; [exact Hchisq|]. split; [exact Hfit|].
    split; [exact Hret|]. split; [done|]. apply sum_normalized.
Qed.



(** C6: for a star with a full-length parameter vector whose weights are
    all zero, [chisq] returns, with no pixel retained: [dof] is 0, the
    residual and the design matrix are empty and chisq is 0.  [fit] on such
    a star returns too, with the parameters moved by the solver's answer to
    the empty system. *)
Theorem zero_weight_star (m : t) (star : Star.t)
    (conv : option (galsim.Profile -> galsim.Profile)) (dm : option string)
    (h : heap) (v : list R) :
  (dm = None \/ dm = Some "no_pixel"%string) ->
  0 < scale m ->
  Spec.params_of star h = Some v -> Z.of_nat (length v) = nparams m ->
  Forall (fun px => pix_weight px = 0) (StarData.pixels (Star.data star)) ->
  (forall A b, length (lstsq (Z.to_nat (nparams m)) A b) = Z.to_nat (nparams m)) ->
  exists star1 star' h',
    chisq InterpolatedImage m star conv dm h = Ok (star1, h)
    /\ StarFit.dof (Star.fit star1) = Some 0%nat
    /\ StarFit.b (Star.fit star1) = Some []
    /\ StarFit.A (Star.fit star1) = Some []
    /\ StarFit.chisq (Star.fit star1) = Some 0
    /\ fit InterpolatedImage lstsq inv m star conv dm h = Ok (star', h')
    /\ let w := zip_with Rplus v (lstsq (Z.to_nat (nparams m)) [] []) in
       Spec.params_of star' h' = Some (if fit_flux m then w else Spec.normalized w).
Proof.
  intros Hdm Hs Hv Hlen Hw Hls.
  unfold Spec.params_of in Hv.
  destruct (StarFit.params (Star.fit star)) as [p|] eqn:Hp; [|done]. simpl in Hv.
  pose proof (chisq_zero_weight InterpolatedImage m star conv dm h p v Hdm Hs Hp Hv
                Hlen Hw) as Hc.
  pose proof (chisq_zero_weight InterpolatedImage m star conv None h p v
                (or_introl eq_refl) Hs Hp Hv Hlen Hw) as Hc0.
  assert (Hv' : Spec.params_of star h = Some v).
  { unfold Spec.params_of. rewrite Hp. done. }
  destruct (fit_returns InterpolatedImage lstsq inv m star _ conv dm h h v
              Hdm Hc0 Hls Hv')
    as (p' & built & h2 & star' & h' & _ & Hfit & _ & _ & _ & _ & _ & Hret & _).
  eexists _, star', h'. split; [exact Hc|].
  repeat split; try done.
Qed.

End FitClaims.

(** ** The concrete inputs under fit and normalize *)

Section Concrete.
Import PixelGrid.

Lemma Ex_lstsq_length (A : list (list R)) (b : list R) :
  length (Ex.lstsq (Z.to_nat (nparams (Ex.grid Ex.Linear 1 1 false))) A b)
  = Z.to_nat (nparams (Ex.grid Ex.Linear 1 1 false)).
Proof.
  change (Z.to_nat (nparams (Ex.grid Ex.Linear 1 1 false))) with 1%nat.
  destruct A as [|[|a [|? ?]] [|? ?]]; try reflexivity.
  destruct b as [|y [|? ?]]; reflexivity.
Qed.


(** C3, a witness: the star of one pixel, whose vector [1] becomes [3]
    under the update. *)
Lemma normalize_unit_sum_witness :
  fit_flux (Ex.grid Ex.Linear 1 1 false) = false
  /\ Spec.params_of Ex.star [[1]] = Some [1]
  /\ (exists star' h',
        normalize (Ex.grid Ex.Linear 1 1 false) Ex.star [[1]] = Ok (star', h')
        /\ Spec.params_of star' h' = Some (Spec.normalized [1])
        /\ np.sum (Spec.normalized [1]) = 1)
  /\ (exists star' h' v',
        fit Ex.InterpolatedImage Ex.lstsq Ex.inv (Ex.grid Ex.Linear 1 1 false)
          Ex.star None None [[1]] = Ok (star', h')
        /\ Spec.params_of star' h' = Some v'
        /\ np.sum v' = 1).
Proof.
  destruct (normalize_unit_sum Ex.InterpolatedImage Ex.lstsq Ex.inv
              (Ex.grid Ex.Linear 1 1 false) Ex.star None None [[1]] [1]
              eq_refl eq_refl eq_refl)
    as [Hn Hf].
  split; [reflexivity|]. split; [reflexivity|]. split.
  - apply Hn. simpl. lra.
  - destruct Hf as (star1 & star' & h' & v' & Hc & H1 & H2 & _ & H4).
    + simpl. lia.
    + simpl. lra.
    + simpl. lra.
    + left. reflexivity.
    + exact Ex_lstsq_length.
    + exists star', h', v'. split; [exact H1|]. split; [exact H2|].
      apply H4. rewrite one_pixel_chisq in Hc. injection Hc as <-.
      simpl. lra.
Defined.





(** C6, a witness: the masked star. *)
Lemma zero_weight_star_witness :
  exists star1 star' h',
    chisq Ex.InterpolatedImage (Ex.grid Ex.Linear 1 1 false) Ex.star_masked None None
      [[2]] = Ok (star1, [[2]])
    /\ StarFit.dof (Star.fit star1) = Some 0%nat
    /\ fit Ex.InterpolatedImage Ex.lstsq Ex.inv (Ex.grid Ex.Linear 1 1 false)
         Ex.star_masked None None [[2]] = Ok (star', h').
Proof.
  destruct (zero_weight_star Ex.InterpolatedImage Ex.lstsq Ex.inv
              (Ex.grid Ex.Linear 1 1 false) Ex.star_masked None None [[2]] [2])
    as (star1 & star' & h' & Hc & Hdof & _ & _ & _ & Hfit & _).
  - left. reflexivity.
  - simpl. lra.
  - reflexivity.
  - reflexivity.
  - repeat constructor.
  - exact Ex_lstsq_length.
  - exists star1, star', h'. split; [exact Hc|]. split; [exact Hdof|exact Hfit].
Defined.


(** C8, the code at the failing input: with [fit_flux] on, [normalize] on a
    star that carries six values for a grid of size 3 rebuilds the nine
    values, but leaves the star without parameters. *)
Theorem normalize_fit_flux_loses_legacy_params :
  exists values star',
    legacy_remap (Ex.grid Ex.Linear 1 3 true) [1; 2; 3; 4; 5; 6] = Ok values
    /\ Spec.params_of Ex.star [[1; 2; 3; 4; 5; 6]] = Some [1; 2; 3; 4; 5; 6]
    /\ normalize (Ex.grid Ex.Linear 1 3 true) Ex.star [[1; 2; 3; 4; 5; 6]]
       = Ok (star', [[1; 2; 3; 4; 5; 6]; values])
    /\ StarFit.params (Star.fit star') = None
    /\ Spec.params_of star' [[1; 2; 3; 4; 5; 6]; values] = None.
Proof.
  assert (H1 : (3 <= size (Ex.grid Ex.Linear 1 3 true))%Z) by (simpl; lia).
  assert (H2 : scale (Ex.grid Ex.Linear 1 3 true) <> 0) by (simpl; lra).
  pose proof (legacy_remap_short3 (Ex.grid Ex.Linear 1 3 true) [1; 2; 3; 4; 5; 6]
                H1 H2 eq_refl) as Heq.
  cbv zeta in Heq.
  eexists _, _. split; [exact Heq|]. split; [reflexivity|]. split.
  - eapply (normalize_fit_flux_legacy _ Ex.star [[1; 2; 3; 4; 5; 6]] 0%nat);
      [reflexivity | reflexivity | reflexivity | simpl; lia | exact Heq].
  - split; reflexivity.
Qed.

End Concrete.

(** ** The constructor and the geometry of the grid *)

Section Geometry.
Import PixelGrid.

Lemma center_cell_bounds (m : t) :
  (0 < size m)%Z ->
  (0 <= origin m < size m)%Z
  /\ (0 <= origin m * size m + origin m < nparams m)%Z.
Proof.
  intros Hn. pose proof (origin_bounds m Hn) as Ho. unfold nparams.
  assert (0 <= origin m < size m)%Z as Hb by lia.
  split; [done|]. nia.
Qed.

(** X1: the constructor accepts exactly the positive sizes: any other size is a
    ValueError, and a model that it returns holds the arguments, has
    [size * size] parameters, and its central cell [(origin, origin)] is a
    cell of the grid. *)
Theorem new_accepts_positive_sizes (s : R) (n : Z) (k : Interpolant) (c : bool)
    (i : option string) (ff : bool) :
  ((n <= 0)%Z -> new s n k c i ff = Raise ValueError)
  /\ ((0 < n)%Z ->
      exists m, new s n k c i ff = Ok m
        /\ scale m = s /\ size m = n /\ interp m = k /\ fit_flux m = ff
        /\ nparams m = (n * n)%Z
        /\ (0 <= origin m < n)%Z
        /\ (n <= 2 * origin m + 1)%Z
        /\ (0 <= origin m * n + origin m < nparams m)%Z).
Proof.
  unfold new. split; intros Hn.
  - destruct (Z.leb_spec n 0); [done|lia].
  - destruct (Z.leb_spec n 0); [lia|].
    eexists. split; [done|]. cbn [scale size interp fit_flux].
    set (m := mk s n k c i ff).
    pose proof (origin_bounds m Hn) as Ho.
    pose proof (center_cell_bounds m Hn) as [Hb Hc].
    change (size m) with n in *.
    repeat split; try done; try lia.
Qed.

Lemma basis_shifts_lookup (m : t) :
  (0 < size m)%Z ->
  forall k, (k < Z.to_nat (nparams m))%nat ->
    (basis_shifts m).1 !! k = Some (Spec.du m k)
    /\ (basis_shifts m).2 !! k = Some (Spec.dv m k).
Proof.
  intros Hn k Hk. unfold basis_shifts.
  destruct (meshgrid_arange_lookup (- origin m) (- origin m + size m) (size m) k)
    as [Hu Hv]; [done|lia|done|].
  rewrite Hu, Hv. unfold Spec.du, Spec.dv. split; f_equal; lia.
Qed.

(** X2: the shifts of the basis pixels enumerate the grid in row-major order:
    both arrays have one entry per parameter, entry [k] of the first is the
    column offset [k mod size - origin], entry [k] of the second the row
    offset [k div size - origin], and the central cell has shift (0, 0). *)
Theorem basis_shifts_row_major (m : t) :
  (0 < size m)%Z ->
  length (basis_shifts m).1 = Z.to_nat (nparams m)
  /\ length (basis_shifts m).2 = Z.to_nat (nparams m)
  /\ (forall k, (k < Z.to_nat (nparams m))%nat ->
        (basis_shifts m).1 !! k = Some (Spec.du m k)
        /\ (basis_shifts m).2 !! k = Some (Spec.dv m k))
  /\ (basis_shifts m).1 !! Spec.center_cell m = Some 0%Z
  /\ (basis_shifts m).2 !! Spec.center_cell m = Some 0%Z.
Proof.
  intros Hn. pose proof (basis_shifts_lookup m Hn) as Hk.
  destruct (meshgrid_length (np.arange (- origin m) (- origin m + size m))
              (np.arange (- origin m) (- origin m + size m))) as [L1 L2].
  rewrite arange_length in L1, L2. fold (basis_shifts m) in L1, L2.
  split; [rewrite L1; unfold nparams; nia|].
  split; [rewrite L2; unfold nparams; nia|].
  split; [exact Hk|].
  pose proof (center_cell_bounds m Hn) as [Hb Hc].
  assert (Hcc : (Spec.center_cell m < Z.to_nat (nparams m))%nat).
  { unfold Spec.center_cell, Spec.cell. lia. }
  destruct (Hk _ Hcc) as [Hu Hv]. rewrite Hu, Hv.
  destruct (cell_div_mod m (origin m) (origin m)) as [Hmod Hdiv]; [lia..|].
  unfold Spec.du, Spec.dv, Spec.center_cell. rewrite Hmod, Hdiv.
  split; f_equal; lia.
Qed.

End Geometry.

(** ** The initial parameter vectors *)

Section InitialParams.
Import PixelGrid.

Lemma sum_unit (n i : nat) :
  (i < n)%nat -> np.sum (<[ i := 1 ]> (np.zeros n)) = 1.
Proof.
  intros Hi. rewrite (sum_insert _ _ _ 0).
  - rewrite sum_zeros. lra.
  - unfold np.zeros. apply lookup_replicate_2. done.
Qed.

Lemma wsum_unit (f : nat -> R) (n i : nat) :
  (i < n)%nat ->
  np.sum (imap (fun k x => f k * x) (<[ i := 1 ]> (np.zeros n))) = f i.
Proof.
  intros Hi.
  replace (imap (fun k x => f k * x) (<[ i := 1 ]> (np.zeros n)))
    with (<[ i := f i ]> (np.zeros n)); [|unfold np.zeros].
  - rewrite (sum_insert _ _ _ 0).
    + rewrite sum_zeros. lra.
    + unfold np.zeros. apply lookup_replicate_2. done.
  - apply list_eq; intros k. rewrite list_lookup_imap.
    destruct (decide (k = i)) as [->|Hk].
    + rewrite !list_lookup_insert_eq by (rewrite length_replicate; done). simpl.
      f_equal. lra.
    + rewrite !list_lookup_insert_ne by done.
      destruct (decide (k < n)%nat).
      * rewrite lookup_replicate_2 by done. simpl. f_equal. lra.
      * rewrite lookup_ge_None_2 by (rewrite length_replicate; lia). done.
Qed.

Lemma initial_params_delta_eq (m : t) (sigma : R) :
  (0 < size m)%Z ->
  initial_params m "delta" sigma
  = Ok (<[ Spec.center_cell m := 1 ]> (np.zeros (Z.to_nat (nparams m))))
  /\ (Spec.center_cell m < Z.to_nat (nparams m))%nat.
Proof.
  intros Hn. pose proof (center_cell_bounds m Hn) as [Hb Hc].
  assert (Hcc : (Spec.center_cell m < Z.to_nat (nparams m))%nat).
  { unfold Spec.center_cell, Spec.cell. lia. }
  split; [|done]. unfold initial_params.
  change (String.eqb "delta" "hsm" || String.eqb "delta" "zero") with false.
  change (String.eqb "delta" "delta") with true. cbv iota.
  assert (Hlen : length (np.zeros (Z.to_nat (size m ^ 2))) = Z.to_nat (nparams m)).
  { unfold np.zeros. rewrite length_replicate, Z.pow_2_r. done. }
  rewrite Hlen, Z2Nat.id by lia.
  rewrite index_in_range by done. simpl rbind.
  rewrite Z.pow_2_r. done.
Qed.

(** X3: method 'delta' never fails on a grid of positive size: it returns the
    vector of [nparams] values that is 1 at the central cell and 0 elsewhere,
    which has sum 1 and first moments 0 along both axes. *)
Theorem initial_params_delta (m : t) (sigma : R) :
  (0 < size m)%Z ->
  exists v,
    initial_params m "delta" sigma = Ok v
    /\ Z.of_nat (length v) = nparams m
    /\ v !! Spec.center_cell m = Some 1
    /\ (forall k, k <> Spec.center_cell m -> (k < length v)%nat -> v !! k = Some 0)
    /\ np.sum v = 1
    /\ Spec.moment_u m v = 0
    /\ Spec.moment_v m v = 0.
Proof.
  intros Hn. pose proof (center_cell_bounds m Hn) as [Hb Hc].
  destruct (initial_params_delta_eq m sigma Hn) as [Heq Hcc].
  eexists. split; [exact Heq|].
  split; [rewrite length_insert; unfold np.zeros; rewrite length_replicate; lia|].
  split; [apply list_lookup_insert_eq; unfold np.zeros; rewrite length_replicate; done|].
  split.
  { intros k Hk Hlt. rewrite length_insert in Hlt.
    rewrite list_lookup_insert_ne by done.
    unfold np.zeros in *. rewrite length_replicate in Hlt.
    apply lookup_replicate_2. done. }
  split; [apply sum_unit; done|].
  destruct (cell_div_mod m (origin m) (origin m)) as [Hmod Hdiv]; [lia..|].
  fold (Spec.center_cell m) in Hmod, Hdiv.
  unfold Spec.moment_u, Spec.moment_v.
  rewrite (wsum_unit (fun k => IZR (Z.of_nat k `mod` size m - origin m))) by done.
  rewrite (wsum_unit (fun k => IZR (Z.of_nat k `div` size m - origin m))) by done.
  rewrite Hmod, Hdiv, Z.sub_diag. done.
Qed.

End InitialParams.

(** ** The Gaussian start *)

Section Gaussian.
Import PixelGrid.

Lemma sum_mjoin (ls : list (list R)) : np.sum (mjoin ls) = np.sum (np.sum <$> ls).
Proof.
  induction ls as [|l ls IH]; csimpl; [done|]. rewrite sum_app, IH. done.
Qed.

Lemma sum_positive (l : list R) : Forall (fun x => 0 < x) l -> l <> [] -> 0 < np.sum l.
Proof.
  induction 1 as [|x l Hx Hl IH]; intros Hne; [done|]. simpl.
  destruct l as [|y l]; [simpl; lra|]. specialize (IH ltac:(done)). lra.
Qed.

Lemma sum_const_zero {A} (f : A -> R) (l : list A) :
  (forall x, f x = 0) -> np.sum (f <$> l) = 0.
Proof. intros Hf. induction l as [|x l IH]; csimpl; [done|]. rewrite Hf, IH. lra. Qed.

Lemma sum_fmap_ext {A} (f g : A -> R) (l : list A) :
  (forall x, f x = g x) -> np.sum (f <$> l) = np.sum (g <$> l).
Proof. intros Hf. induction l as [|x l IH]; csimpl; [done|]. rewrite Hf, IH. done. Qed.

Lemma sum_fmap_mult {A} (c : R) (g : A -> R) (l : list A) :
  np.sum ((fun x => c * g x) <$> l) = c * np.sum (g <$> l).
Proof. induction l as [|x l IH]; csimpl; [lra|]. rewrite IH. lra. Qed.

(** An odd function sums to zero over a range that is symmetric about 0. *)
Lemma sum_odd (f : Z -> R) (o : nat) :
  (forall x, f (- x)%Z = - f x) ->
  np.sum (f <$> seqZ (- Z.of_nat o) (2 * Z.of_nat o + 1)) = 0.
Proof.
  intros Hodd. induction o as [|o IH].
  - change (np.sum (f <$> seqZ (- Z.of_nat 0) (2 * Z.of_nat 0 + 1))) with (f 0%Z + 0).
    pose proof (Hodd 0%Z) as H0. change (- 0)%Z with 0%Z in H0. lra.
  - replace (2 * Z.of_nat (S o) + 1)%Z with (1 + ((2 * Z.of_nat o + 1) + 1))%Z by lia.
    rewrite seqZ_app by lia. rewrite seqZ_app by lia.
    replace (- Z.of_nat (S o) + 1)%Z with (- Z.of_nat o)%Z by lia.
    rewrite !fmap_app, !sum_app, IH.
    change (seqZ (- Z.of_nat (S o)) 1) with [(- Z.of_nat (S o))%Z].
    replace (- Z.of_nat o + (2 * Z.of_nat o + 1))%Z with (Z.of_nat (S o)) by lia.
    change (seqZ (Z.of_nat (S o)) 1) with [Z.of_nat (S o)].
    simpl. rewrite Hodd. lra.
Qed.

Lemma zip_with_mjoin {A B C} (f : A -> B -> C) (F : A -> list A) (G : A -> list B)
    (l : list A) :
  (forall y, length (F y) = length (G y)) ->
  zip_with f (mjoin (F <$> l)) (mjoin (G <$> l))
  = mjoin ((fun y => zip_with f (F y) (G y)) <$> l).
Proof.
  intros Hlen. induction l as [|y l IH]; csimpl; [done|].
  rewrite zip_with_app by apply Hlen. rewrite IH. done.
Qed.

Lemma zip_with_fmap_same {A B C} (f : A -> B -> C) (g : A -> B) (l : list A) :
  zip_with f l (g <$> l) = (fun x => f x (g x)) <$> l.
Proof. induction l as [|x l IH]; csimpl; [done|]. rewrite IH. done. Qed.

Lemma zip_with_const_fmap {A B C} (f : A -> B -> C) (a : A) (g : A -> B) (l : list A) :
  zip_with f ((fun _ => a) <$> l) (g <$> l) = (fun x => f a (g x)) <$> l.
Proof. induction l as [|x l IH]; csimpl; [done|]. rewrite IH. done. Qed.

(** The vector of method 'hsm', cell by cell. *)
Lemma initial_params_hsm_cells (m : t) (sigma : R) :
  let off := np.arange (- origin m) (size m - origin m) in
  let E := fun y x : Z =>
             exp (- ((IZR y * scale m) * (IZR y * scale m)
                     + (IZR x * scale m) * (IZR x * scale m)) / (2 * sigma ^ 2)) in
  let S := np.sum (mjoin ((fun y => E y <$> off) <$> off)) in
  initial_params m "hsm" sigma
  = Ok (mjoin ((fun y => (fun x => E y x / S) <$> off) <$> off)).
Proof.
  intros off E S. unfold initial_params.
  change (String.eqb "hsm" "hsm" || String.eqb "hsm" "zero") with true.
  change (String.eqb "hsm" "zero") with false. cbv iota. fold off.
  assert (Hg : mjoin ((fun row => (fun x => exp (- x / (2 * sigma ^ 2))) <$> row)
                        <$> ((fun a => (fun c => a * a + c * c)
                                         <$> ((fun i => IZR i * scale m) <$> off))
                               <$> ((fun i => IZR i * scale m) <$> off)))
               = mjoin ((fun y => E y <$> off) <$> off)).
  { f_equal. rewrite <- !list_fmap_compose. apply list_fmap_ext; intros _ y _. simpl.
    rewrite <- !list_fmap_compose. apply list_fmap_ext; intros _ x _. done. }
  rewrite Hg. fold S. f_equal.
  rewrite fmap_mjoin, <- list_fmap_compose. f_equal.
  apply list_fmap_ext; intros _ y _. simpl. rewrite <- list_fmap_compose. done.
Qed.

Lemma gauss_sum_positive (m : t) (E : Z -> Z -> R) :
  (0 < size m)%Z -> (forall y x, 0 < E y x) ->
  let off := np.arange (- origin m) (size m - origin m) in
  0 < np.sum (mjoin ((fun y => E y <$> off) <$> off)).
Proof.
  intros Hn HE off.
  assert (Hoff : off <> []).
  { intros Hnil. apply (f_equal length) in Hnil. unfold off in Hnil.
    rewrite arange_length in Hnil. simpl in Hnil. lia. }
  apply sum_positive.
  - apply Forall_forall. intros z Hz. apply list_elem_of_join in Hz as (row & Hz & Hrow).
    apply list_elem_of_fmap in Hrow as (y & -> & _).
    apply list_elem_of_fmap in Hz as (x & -> & _). apply HE.
  - destruct off as [|y off']; [done|]. csimpl. done.
Qed.

Lemma initial_params_hsm_sum (m : t) (sigma : R) :
  (0 < size m)%Z ->
  exists v,
    initial_params m "hsm" sigma = Ok v
    /\ initial_params m "zero" sigma = Ok ((fun x => x * 1e-10) <$> v)
    /\ Z.of_nat (length v) = nparams m
    /\ Forall (fun x => 0 < x) v
    /\ np.sum v = 1.
Proof.
  intros Hn.
  pose proof (initial_params_hsm_cells m sigma) as Hv. cbv zeta in Hv.
  set (off := np.arange (- origin m) (size m - origin m)) in *.
  set (E := fun y x : Z => exp _) in *.
  set (S := np.sum _) in *.
  assert (HS : 0 < S) by (apply gauss_sum_positive; [done|]; intros; apply exp_pos).
  destruct (initial_params_hsm_zero m sigma) as (v & Hh & Hz).
  rewrite Hv in Hh. injection Hh as <-.
  eexists. split; [exact Hv|]. split; [exact Hz|].
  split.
  { rewrite (length_mjoin_same (length off)).
    - rewrite length_fmap. unfold off. rewrite arange_length. unfold nparams. nia.
    - apply Forall_fmap, Forall_true. intros y. simpl. apply length_fmap. }
  split.
  { apply Forall_forall. intros z Hz'. apply list_elem_of_join in Hz' as (row & Hz' & Hrow).
    apply list_elem_of_fmap in Hrow as (y & -> & _).
    apply list_elem_of_fmap in Hz' as (x & -> & _).
    apply Rdiv_lt_0_compat; [apply exp_pos|done]. }
  transitivity (np.sum ((fun x => x / S) <$> mjoin ((fun y => E y <$> off) <$> off))).
  - f_equal. rewrite fmap_mjoin, <- list_fmap_compose. f_equal.
    apply list_fmap_ext; intros _ y _. simpl. rewrite <- list_fmap_compose. done.
  - rewrite sum_div. fold S. field. lra.
Qed.

(** X4: methods 'hsm' and 'zero' never fail on a grid of positive size: for a
    size estimate that is not zero, 'hsm' returns [nparams] positive values
    of sum 1, and 'zero' the same values times 1e-10, of sum 1e-10. *)
Theorem initial_params_hsm_unit_sum (m : t) (sigma : R) :
  (0 < size m)%Z -> sigma <> 0 ->
  exists v,
    initial_params m "hsm" sigma = Ok v
    /\ initial_params m "zero" sigma = Ok ((fun x => x * 1e-10) <$> v)
    /\ Z.of_nat (length v) = nparams m
    /\ Forall (fun x => 0 < x) v
    /\ np.sum v = 1
    /\ Forall (fun x => 0 < x) ((fun x => x * 1e-10) <$> v)
    /\ np.sum ((fun x => x * 1e-10) <$> v) = 1e-10.
Proof.
  intros Hn _.
  destruct (initial_params_hsm_sum m sigma Hn) as (v & Hh & Hz & Hl & Hp & Hs).
  exists v. repeat (split; [done|]). split.
  - apply Forall_fmap. eapply Forall_impl; [exact Hp|]. intros x Hx. simpl. lra.
  - rewrite sum_scale, Hs. lra.
Qed.

(** X5: on a grid of odd size the Gaussian start is centred: the vectors of
    methods 'hsm' and 'zero' have first moments 0 along both axes. *)
Theorem initial_params_hsm_centered (m : t) (sigma : R) :
  (0 < size m)%Z -> Z.odd (size m) = true -> sigma <> 0 ->
  exists v,
    initial_params m "hsm" sigma = Ok v
    /\ initial_params m "zero" sigma = Ok ((fun x => x * 1e-10) <$> v)
    /\ Spec.moment_u m v = 0 /\ Spec.moment_v m v = 0
    /\ Spec.moment_u m ((fun x => x * 1e-10) <$> v) = 0
    /\ Spec.moment_v m ((fun x => x * 1e-10) <$> v) = 0.
Proof.
  intros Hn Hodd _.
  pose proof (initial_params_hsm_cells m sigma) as Hv. cbv zeta in Hv.
  assert (Hsize : size m = (2 * origin m + 1)%Z).
  { unfold origin. rewrite (Z.div_mod (size m) 2) at 1 by lia.
    rewrite Zmod_odd, Hodd. lia. }
  assert (Ho : (0 <= origin m)%Z) by lia.
  assert (Hoff : np.arange (- origin m) (size m - origin m)
                 = seqZ (- Z.of_nat (Z.to_nat (origin m)))
                     (2 * Z.of_nat (Z.to_nat (origin m)) + 1)).
  { unfold np.arange. rewrite Z2Nat.id by done. f_equal. lia. }
  assert (Hoff2 : np.arange (- (size m / 2)) (size m - size m / 2)
                  = np.arange (- origin m) (size m - origin m)) by done.
  set (off := np.arange (- origin m) (size m - origin m)) in *.
  set (E := fun y x : Z => exp _) in *.
  set (S := np.sum _) in *.
  set (G := fun y x : Z => E y x / S).
  change (mjoin ((fun y => (fun x => E y x / S) <$> off) <$> off))
    with (mjoin ((fun y => G y <$> off) <$> off)) in Hv.
  assert (HGx : forall y x, G y (- x)%Z = G y x).
  { intros y x. unfold G, E. rewrite opp_IZR. do 3 f_equal. lra. }
  assert (HGy : forall y x, G (- y)%Z x = G y x).
  { intros y x. unfold G, E. rewrite opp_IZR. do 3 f_equal. lra. }
  set (v := mjoin ((fun y => G y <$> off) <$> off)) in *.
  assert (Hlen : length v = Z.to_nat (size m * size m)).
  { unfold v. rewrite (length_mjoin_same (length off)).
    - rewrite length_fmap. unfold off, np.arange. rewrite length_seqZ. nia.
    - apply Forall_fmap, Forall_true. intros y. simpl. apply length_fmap. }
  destruct (moments_meshgrid m v Hn Hlen) as [Hmu Hmv]. rewrite Hoff2 in Hmu, Hmv.
  unfold np.meshgrid in Hmu, Hmv. cbn [fst snd] in Hmu, Hmv.
  assert (Hu : Spec.moment_u m v = 0).
  { rewrite <- Hmu. unfold v.
    rewrite (zip_with_mjoin _ (fun _ => off) (fun y => G y <$> off))
      by (intros; rewrite length_fmap; done).
    rewrite sum_mjoin, <- list_fmap_compose. apply sum_const_zero. intros y. simpl.
    rewrite zip_with_fmap_same. rewrite Hoff.
    apply (sum_odd (fun x => IZR x * G y x)). intros x.
    rewrite HGx, opp_IZR. lra. }
  assert (Hv0 : Spec.moment_v m v = 0).
  { rewrite <- Hmv. unfold v.
    rewrite (zip_with_mjoin _ (fun y => (fun _ => y) <$> off) (fun y => G y <$> off))
      by (intros; rewrite !length_fmap; done).
    rewrite sum_mjoin, <- list_fmap_compose.
    rewrite (sum_fmap_ext _ (fun y => IZR y * np.sum (G y <$> off))).
    - rewrite Hoff. apply (sum_odd (fun y => IZR y * np.sum (G y <$> seqZ _ _))).
      intros y. rewrite opp_IZR.
      rewrite (sum_fmap_ext (G (- y)%Z) (G y)) by (intros; apply HGy). lra.
    - intros y. simpl. rewrite zip_with_const_fmap. apply sum_fmap_mult. }
  destruct (initial_params_hsm_zero m sigma) as (v' & Hh & Hz).
  rewrite Hv in Hh. injection Hh as <-.
  exists v. split; [exact Hv|]. split; [exact Hz|]. split; [exact Hu|]. split; [exact Hv0|].
  assert (Hscale : forall w : nat -> R,
            np.sum (imap (fun k x => w k * x) ((fun x => x * 1e-10) <$> v))
            = np.sum (imap (fun k x => w k * x) v) * 1e-10).
  { intros w. rewrite <- sum_scale. f_equal.
    apply list_eq; intros k. rewrite list_lookup_fmap, !list_lookup_imap, list_lookup_fmap.
    destruct (v !! k); simpl; [f_equal; lra|done]. }
  unfold Spec.moment_u, Spec.moment_v in *.
  rewrite !Hscale, Hu, Hv0. lra.
Qed.

End Gaussian.

(** ** initialize: the choice of the method *)

Section InitializeMethod.
Import PixelGrid.

Lemma eqb_false (a b : string) : a <> b -> String.eqb a b = false.
Proof. intros H. apply String.eqb_neq. done. Qed.

(** X6: the method of the model is used when it has one, otherwise the caller's
    default; a method other than 'hsm', 'zero' and 'delta' is a ValueError,
    whatever the star. *)
Theorem initialize_invalid_method (m : t) (star : Star.t) (d : option string)
    (h : heap) (method : string) :
  (init m = Some method \/ (init m = None /\ d = Some method)) ->
  method <> "hsm"%string -> method <> "zero"%string -> method <> "delta"%string ->
  initialize m star d h = Raise ValueError.
Proof.
  intros Hm H1 H2 H3. unfold initialize.
  replace (match match init m with Some i => Some i | None => d end with
           | Some i => i | None => "hsm"%string end) with method
    by (destruct Hm as [-> | [-> ->]]; done).
  unfold bind, lift, initial_params.
  rewrite (eqb_false _ _ H1), (eqb_false _ _ H2), (eqb_false _ _ H3). done.
Qed.

(** X7: a star that has no parameters yet gets the initial vector in an array
    of its own: the arrays already in the store are left as they were, and
    the star keeps its data, flux and center. *)
Theorem initialize_new_array (m : t) (star : Star.t) (d : option string) (h : heap)
    (method : string) (v : list R) :
  (init m = Some method \/ (init m = None /\ default "hsm"%string d = method)) ->
  initial_params m method (StarData.hsm_sigma (Star.data star)) = Ok v ->
  StarFit.params (Star.fit star) = None ->
  exists star',
    initialize m star d h = Ok (star', h ++ [v])
    /\ Star.data star' = Star.data star
    /\ StarFit.flux (Star.fit star') = StarFit.flux (Star.fit star)
    /\ StarFit.center (Star.fit star') = StarFit.center (Star.fit star)
    /\ Spec.params_of star' (h ++ [v]) = Some v
    /\ (forall l w, h !! l = Some w -> (h ++ [v]) !! l = Some w).
Proof.
  intros Hm Hv Hnone. unfold initialize.
  replace (match match init m with Some i => Some i | None => d end with
           | Some i => i | None => "hsm"%string end) with method
    by (destruct Hm as [-> | [-> <-]]; [done|destruct d; done]).
  unfold bind at 1. unfold lift. rewrite Hv.
  unfold bind at 1. rewrite newParams_fresh by done.
  unfold ret. eexists. split; [reflexivity|].
  cbn [Star.data Star.fit StarFit.flux StarFit.center].
  split; [done|]. split; [done|]. split; [done|]. split.
  - unfold Spec.params_of. cbn [Star.fit StarFit.params]. simpl.
    rewrite lookup_app_r by done. rewrite Nat.sub_diag. done.
  - intros l w Hl. apply lookup_app_l_Some. done.
Qed.

End InitializeMethod.

(** ** normalize: the older encodings and the standard path *)

Section NormalizeMore.
Import PixelGrid.

Lemma sum_put_mask (mask : list bool) (vals : list R) (n : nat) :
  length mask = n -> np.count_true mask = length vals ->
  np.sum (np.put_mask mask vals (np.zeros n)) = np.sum vals.
Proof.
  unfold np.zeros. revert vals n.
  induction mask as [|[|] mask IH]; intros vals n Hn Hc.
  - destruct vals; [|done]. simpl. subst n. done.
  - rewrite count_true_cons in Hc. destruct n as [|n]; [done|].
    destruct vals as [|x vals]; [done|]. simpl in *.
    rewrite (IH vals n) by lia. done.
  - rewrite count_true_cons in Hc. destruct n as [|n]; [done|]. simpl in *.
    rewrite (IH vals n) by lia. lra.
Qed.

Lemma fmap_div_one (l : list R) : (fun x => x / 1) <$> l = l.
Proof.
  induction l as [|x l IH]; csimpl; [done|]. rewrite IH. f_equal. lra.
Qed.

(** The remap of a vector that leaves out the central cell only. *)
Lemma legacy_remap_short1 (m : t) (params : list R) :
  (0 < size m)%Z -> scale m <> 0 ->
  Z.of_nat (length params) = (nparams m - 1)%Z ->
  let N := Z.to_nat (nparams m) in
  let mask := <[ Spec.center_cell m := false ]> (replicate N true) in
  let temp0 := np.put_mask mask params (np.zeros N) in
  legacy_remap m params
  = Ok (<[ Spec.center_cell m := 1 / pixel_area m - np.sum temp0 ]> temp0)
  /\ (Spec.center_cell m < N)%nat
  /\ length mask = N /\ np.count_true mask = length params
  /\ mask !! Spec.center_cell m = Some false
  /\ length temp0 = N /\ temp0 !! Spec.center_cell m = Some 0.
Proof.
  intros Hn Hs Hlen N mask temp0.
  pose proof (center_cell_bounds m Hn) as [Ho Hc].
  assert (Hcc : (Spec.center_cell m < N)%nat).
  { unfold Spec.center_cell, Spec.cell, N. lia. }
  assert (Hml : length mask = N).
  { unfold mask. rewrite length_insert, length_replicate. done. }
  assert (Hcount : np.count_true mask = length params).
  { unfold mask. rewrite count_true_insert_false, count_true_replicate.
    - unfold N. lia.
    - apply lookup_replicate_2. done. }
  assert (Hm0 : mask !! Spec.center_cell m = Some false).
  { unfold mask. apply list_lookup_insert_eq. rewrite length_replicate. done. }
  assert (Hl0 : length temp0 = N).
  { unfold temp0. rewrite put_mask_length. apply length_replicate. }
  assert (Ht0 : temp0 !! Spec.center_cell m = Some 0).
  { unfold temp0. rewrite put_mask_lookup_false by done. apply lookup_replicate_2. done. }
  split; [|done].
  unfold legacy_remap. unfold nparams in *. rewrite Z.pow_2_r.
  replace ((size m * size m - Z.of_nat (length params) =? 1)%Z) with true
    by (symmetry; apply Z.eqb_eq; lia).
  replace ((size m * size m =? Z.of_nat (length params) + 3)%Z) with false
    by (symmetry; apply Z.eqb_neq; lia).
  simpl negb. cbv iota.
  rewrite set2_in_range by (unfold origin in Ho; lia). simpl rbind.
  fold N.
  change (Z.to_nat (size m / 2 * size m + size m / 2)) with (Spec.center_cell m).
  fold mask.
  unfold np.set_mask. rewrite decide_True by done. simpl rbind. fold temp0.
  rewrite decide_False by (apply pixel_area_nonzero; done).
  rewrite set2_in_range by (unfold origin in Ho; lia).
  reflexivity.
Qed.

(** X8: a vector that is one value short is the older encoding without the
    central cell: on any grid of positive size and nonzero scale the remap
    returns [nparams] values, the supplied values in order in the other
    cells and [1 / pixel_area] minus their sum at the centre, so that the
    values sum to [1 / pixel_area]. *)
Theorem legacy_remap_one_reserved (m : t) (params : list R) :
  (0 < size m)%Z -> scale m <> 0 ->
  Z.of_nat (length params) = (nparams m - 1)%Z ->
  exists values,
    legacy_remap m params = Ok values
    /\ Z.of_nat (length values) = nparams m
    /\ values !! Spec.center_cell m = Some (1 / pixel_area m - np.sum params)
    /\ np.select (<[ Spec.center_cell m := false ]> (replicate (length values) true))
         values = params
    /\ np.sum values = 1 / pixel_area m.
Proof.
  intros Hn Hs Hlen.
  destruct (legacy_remap_short1 m params Hn Hs Hlen)
    as (Heq & Hcc & Hml & Hcount & Hm0 & Hl0 & Ht0).
  set (N := Z.to_nat (nparams m)) in *.
  set (mask := <[ Spec.center_cell m := false ]> (replicate N true)) in *.
  set (temp0 := np.put_mask mask params (np.zeros N)) in *.
  assert (Hsum : np.sum temp0 = np.sum params) by (apply sum_put_mask; done).
  eexists. split; [exact Heq|].
  assert (HN : (0 <= nparams m)%Z) by (unfold nparams; nia).
  split; [rewrite length_insert, Hl0; unfold N; lia|].
  split; [rewrite Hsum; apply list_lookup_insert_eq; lia|].
  split.
  - rewrite length_insert, Hl0. fold mask.
    rewrite select_insert_false by done.
    apply select_put_mask; [|done]. rewrite Hml. symmetry. apply length_replicate.
  - rewrite (sum_insert _ _ _ 0) by done. lra.
Qed.

(** The remapped vector of either older encoding sums to [1 / pixel_area]. *)
Lemma legacy_remap_sum (m : t) (v : list R) :
  scale m <> 0 ->
  (((0 < size m)%Z /\ Z.of_nat (length v) = (nparams m - 1)%Z)
   \/ ((3 <= size m)%Z /\ Z.of_nat (length v) = (nparams m - 3)%Z)) ->
  exists temp,
    legacy_remap m v = Ok temp
    /\ length temp = Z.to_nat (nparams m)
    /\ np.sum temp = 1 / pixel_area m.
Proof.
  intros Hs [[Hn Hlen]|[Hn Hlen]].
  - destruct (legacy_remap_short1 m v Hn Hs Hlen)
      as (Heq & Hcc & Hml & Hcount & Hm0 & Hl0 & Ht0).
    eexists. split; [exact Heq|]. split; [rewrite length_insert; done|].
    rewrite (sum_insert _ _ _ 0) by done. lra.
  - pose proof (legacy_remap_short3 m v Hn Hs Hlen) as Heq. cbv zeta in Heq.
    destruct (reserved_cells m Hn) as (Hc0 & Hc1 & Hc2 & H01 & H02 & H12).
    set (N := Z.to_nat (nparams m)) in *.
    set (mask := <[ Spec.right_cell m := false ]> _) in *.
    set (temp0 := np.put_mask mask v (np.zeros N)) in *.
    set (temp1 := <[ Spec.below_cell m := _ ]> temp0) in *.
    set (temp2 := <[ Spec.right_cell m := _ ]> temp1) in *.
    assert (Hl2 : length temp2 = N).
    { unfold temp2, temp1, temp0. rewrite !length_insert, put_mask_length.
      apply length_replicate. }
    assert (Ht2 : temp2 !! Spec.center_cell m = Some 0).
    { unfold temp2, temp1. rewrite !list_lookup_insert_ne by done.
      unfold temp0. rewrite put_mask_lookup_false.
      - apply lookup_replicate_2. done.
      - unfold mask. rewrite !list_lookup_insert_ne by done.
        apply list_lookup_insert_eq. rewrite length_replicate. done. }
    eexists. split; [exact Heq|]. split; [rewrite length_insert; done|].
    rewrite (sum_insert _ _ _ 0) by done. lra.
Qed.

(** X9: a vector shorter than the grid by anything but 1 or 3 values fails the
    assertion of [normalize]. *)
Theorem normalize_rejects_other_lengths (m : t) (star : Star.t) (h : heap)
    (p : loc) (v : list R) :
  StarFit.params (Star.fit star) = Some p -> h !! p = Some v ->
  (Z.of_nat (length v) < nparams m)%Z ->
  Z.of_nat (length v) <> (nparams m - 1)%Z ->
  Z.of_nat (length v) <> (nparams m - 3)%Z ->
  normalize m star h = Raise AssertionError.
Proof.
  intros Hp Hv Hlt H1 H3. unfold normalize, StarFit.get_params. rewrite Hp.
  unfold bind at 1. rewrite (load_ok h p v Hv).
  unfold nparams in *. rewrite Z.pow_2_r.
  replace (Z.of_nat (length v) <? size m * size m)%Z with true
    by (symmetry; apply Z.ltb_lt; done).
  unfold bind at 1. unfold bind at 1. unfold lift, legacy_remap. rewrite Z.pow_2_r.
  replace ((size m * size m - Z.of_nat (length v) =? 1)%Z) with false
    by (symmetry; apply Z.eqb_neq; lia).
  replace ((size m * size m - Z.of_nat (length v) =? 3)%Z) with false
    by (symmetry; apply Z.eqb_neq; lia).
  done.
Qed.

(** X10: with [fit_flux] off, a star that carries one of the older encodings
    comes out of [normalize] with a full-length vector of sum 1: the
    remapped values, which sum to [1 / pixel_area], each multiplied by the
    pixel area.  The array the star came with is left as it was. *)
Theorem normalize_legacy_unit_sum (m : t) (star : Star.t) (h : heap)
    (p : loc) (v : list R) :
  fit_flux m = false -> scale m <> 0 ->
  StarFit.params (Star.fit star) = Some p -> h !! p = Some v ->
  (((0 < size m)%Z /\ Z.of_nat (length v) = (nparams m - 1)%Z)
   \/ ((3 <= size m)%Z /\ Z.of_nat (length v) = (nparams m - 3)%Z)) ->
  exists temp star' h' w,
    legacy_remap m v = Ok temp
    /\ normalize m star h = Ok (star', h')
    /\ Spec.params_of star' h' = Some w
    /\ w = (fun x => x * pixel_area m) <$> temp
    /\ Z.of_nat (length w) = nparams m
    /\ np.sum w = 1
    /\ Star.data star' = Star.data star
    /\ h' !! p = Some v.
Proof.
  intros Hff Hs Hp Hv Hcase.
  destruct (legacy_remap_sum m v Hs Hcase) as (temp & Ht & Hlt & Hsum).
  assert (Ha : pixel_area m <> 0) by (apply pixel_area_nonzero; done).
  assert (Hshort : (Z.of_nat (length v) < size m ^ 2)%Z).
  { rewrite Z.pow_2_r. unfold nparams in Hcase. lia. }
  assert (Hpl : (p < length h)%nat) by (eapply lookup_lt_Some; eauto).
  set (w := (fun x => x / np.sum temp) <$> temp).
  assert (Hw : w = (fun x => x * pixel_area m) <$> temp).
  { unfold w. apply list_fmap_ext; intros _ x _. rewrite Hsum. field. done. }
  exists temp.
  eexists (Star.mk (Star.data star)
             (StarFit.mk (Some (S (length h))) (StarFit.flux (Star.fit star))
                (StarFit.center (Star.fit star)) None None None None None)),
    (<[ length h := w ]> (h ++ [temp]) ++ [w]), w.
  split; [exact Ht|]. split.
  { unfold normalize, StarFit.get_params. rewrite Hp.
    unfold bind at 1. rewrite (load_ok h p v Hv).
    replace (Z.of_nat (length v) <? size m ^ 2)%Z with true
      by (symmetry; apply Z.ltb_lt; done).
    unfold bind at 1. unfold bind at 1. unfold lift. rewrite Ht.
    unfold bind at 1. unfold alloc, ret. rewrite Hff.
    assert (Hh1 : (h ++ [temp]) !! length h = Some temp).
    { rewrite lookup_app_r by done. rewrite Nat.sub_diag. done. }
    unfold bind at 1. rewrite (load_ok _ _ _ Hh1).
    unfold bind at 1. rewrite (idiv_ok _ _ _ _ Hh1). fold w.
    assert (Hh2 : <[ length h := w ]> (h ++ [temp]) !! length h = Some w).
    { apply list_lookup_insert_eq. rewrite length_app. simpl. lia. }
    unfold bind at 1. rewrite (load_ok _ _ _ Hh2).
    unfold bind at 1. rewrite newParams_fresh by done.
    rewrite length_insert, length_app. cbn [length Star.data Star.fit StarFit.set_params
      StarFit.flux StarFit.center].
    replace (length h + 1)%nat with (S (length h)) by lia. done. }
  split.
  { unfold Spec.params_of. cbn [Star.fit StarFit.params]. simpl.
    rewrite lookup_app_r by (rewrite length_insert, length_app; simpl; lia).
    rewrite length_insert, length_app. simpl.
    replace (S (length h) - (length h + 1))%nat with 0%nat by lia. done. }
  split; [exact Hw|].
  split; [unfold w; rewrite length_fmap, Hlt; unfold nparams; nia|].
  split.
  { unfold w. rewrite sum_div. field. rewrite Hsum.
    unfold Rdiv. rewrite Rmult_1_l. apply Rinv_neq_0_compat. done. }
  split; [done|].
  rewrite lookup_app_l by (rewrite length_insert, length_app; simpl; lia).
  rewrite list_lookup_insert_ne by lia.
  rewrite lookup_app_l by done. done.
Qed.

(** X11: [normalize] is idempotent on the parameter values: with [fit_flux] off,
    normalizing a vector of nonzero sum a second time returns the same
    values. *)
Theorem normalize_idempotent (m : t) (star : Star.t) (h : heap) (v : list R) :
  fit_flux m = false ->
  Spec.params_of star h = Some v -> (nparams m <= Z.of_nat (length v))%Z ->
  np.sum v <> 0 ->
  exists star1 h1 star2 h2,
    normalize m star h = Ok (star1, h1)
    /\ normalize m star1 h1 = Ok (star2, h2)
    /\ Spec.params_of star1 h1 = Some (Spec.normalized v)
    /\ Spec.params_of star2 h2 = Some (Spec.normalized v).
Proof.
  intros Hff Hv Hlen Hsum. unfold Spec.params_of in Hv.
  destruct (StarFit.params (Star.fit star)) as [p|] eqn:Hp; [|done]. simpl in Hv.
  assert (Hl2 : (size m ^ 2 <= Z.of_nat (length v))%Z).
  { rewrite Z.pow_2_r. done. }
  pose proof (normalize_standard m star h p v Hff Hp Hv Hl2) as H1. cbv zeta in H1.
  fold (Spec.normalized v) in H1.
  set (w := Spec.normalized v) in *.
  set (star1 := Star.mk _ _) in H1.
  set (h1 := <[ p := w ]> h ++ [w]) in *.
  assert (Hh1 : h1 !! length h = Some w).
  { unfold h1. rewrite lookup_app_r by (rewrite length_insert; done).
    rewrite length_insert, Nat.sub_diag. done. }
  assert (Hw1 : np.sum w = 1) by (apply sum_normalized; done).
  assert (Hlw : (size m ^ 2 <= Z.of_nat (length w))%Z).
  { unfold w, Spec.normalized. rewrite length_fmap. done. }
  pose proof (normalize_standard m star1 h1 (length h) w Hff eq_refl Hh1 Hlw) as H2.
  cbv zeta in H2. rewrite Hw1, fmap_div_one in H2.
  eexists star1, h1, _, _. split; [exact H1|]. split; [exact H2|]. split.
  - unfold Spec.params_of. simpl. exact Hh1.
  - unfold Spec.params_of. cbn [Star.fit StarFit.params]. simpl.
    rewrite lookup_app_r by (rewrite length_insert; done).
    rewrite length_insert, Nat.sub_diag. done.
Qed.

End NormalizeMore.

(** ** The rows of the fast path, for any kernel *)

Section FastRowEntries.
Import PixelGrid.

(** X13: along both axes the fast path gives basis pixel [k] the kernel at its
    position minus the position of the image pixel, in grid units, when it
    is within [xr] cells of that pixel, and leaves the entry 0 otherwise;
    no property of the kernel is needed for this. *)
Theorem fast_row_entries (m : t) (u0 v0 flux_scaling : R) (p : Pixel) :
  (0 < size m)%Z -> 0 < scale m -> 0 <= xrange (interp m) ->
  in_support m u0 v0 p = true ->
  let xr := Zceil (xrange (interp m)) in
  let u := (pix_u p - u0) / scale m in
  let v := (pix_v p - v0) / scale m in
  exists row,
    fast_row m flux_scaling u v = Ok row
    /\ length row = Z.to_nat (nparams m)
    /\ forall k, (k < Z.to_nat (nparams m))%nat ->
         row !! k
         = Some (if decide ((Zfloor u - xr < Spec.du m k <= Zfloor u + xr)%Z
                            /\ (Zfloor v - xr < Spec.dv m k <= Zfloor v + xr)%Z)
                 then xval (interp m) (IZR (Spec.du m k) - u) * flux_scaling
                      * xval (interp m) (IZR (Spec.dv m k) - v)
                 else 0).
Proof.
  intros Hn Hs Hxr Hin xr u v.
  unfold in_support in Hin. apply andb_prop in Hin as [Hin _].
  apply andb_prop in Hin as [Hu Hv].
  apply bool_decide_eq_true in Hu, Hv.
  pose proof (floor_in_support m _ Hs Hu) as Hui.
  pose proof (floor_in_support m _ Hs Hv) as Hvi.
  fold u in Hui. fold v in Hvi.
  pose proof (Zceil_nonneg _ Hxr) as Hxr0. fold xr in Hxr0.
  pose proof (origin_bounds m Hn) as Ho.
  destruct (decide (xr = 0%Z)) as [Hz|Hnz].
  { rewrite fast_row_no_extent by done. eexists. split; [done|].
    split; [apply length_replicate|].
    intros k Hk. unfold np.zeros. rewrite lookup_replicate_2 by done.
    rewrite decide_False by lia. done. }
  assert (Hxr1 : (1 <= xr)%Z) by lia.
  pose proof (window_clipped m xr (Zfloor v) Hn Hxr1 Hvi) as Hwv.
  pose proof (window_clipped m xr (Zfloor u) Hn Hxr1 Hui) as Hwu.
  unfold fast_row. fold xr.
  destruct (window m xr (Zfloor v)) as [[[i1 i2] p1] p2].
  destruct (window m xr (Zfloor u)) as [[[j1 j2] q1] q2].
  destruct Hwv as (Ei1 & Ei2 & Hi1 & Hi2 & Hp1 & Hp2 & Hh & Hip).
  destruct Hwu as (Ej1 & Ej2 & Hj1 & Hj2 & Hq1 & Hq2 & Hw & Hjq).
  rewrite (window_weights_fun m xr _ _ _ i1 i2 p1 p2 j1 j2 q1 q2) by done.
  rewrite put_fun.
  2:{ unfold np.zeros. rewrite length_replicate, Z2Nat.id by (unfold nparams; nia).
      apply window_cols_bounded; done. }
  eexists. split; [done|].
  split; [rewrite length_imap; apply length_replicate|].
  intros k Hk. rewrite list_lookup_imap.
  unfold np.zeros. rewrite lookup_replicate_2 by done. simpl. f_equal.
  assert (Hkn : (0 <= Z.of_nat k < size m * size m)%Z) by (unfold nparams in Hk; lia).
  pose proof (Z.mod_pos_bound (Z.of_nat k) (size m) Hn) as Hc.
  assert (Hr : (0 <= Z.of_nat k `div` size m < size m)%Z).
  { split; [apply Z.div_pos; lia|]. apply Z.div_lt_upper_bound; lia. }
  unfold Spec.du, Spec.dv.
  set (c := (Z.of_nat k `mod` size m)%Z) in *.
  set (r := (Z.of_nat k `div` size m)%Z) in *.
  destruct (decide (Z.of_nat k ∈ window_cols m i1 i2 j1 j2)) as [Hmem|Hmem].
  - apply elem_of_window_cols in Hmem as [Hr' Hc']; [|done..].
    fold r c in Hr', Hc'. rewrite decide_True by lia.
    replace (c - j1 + q1 - xr + 1)%Z with (c - origin m - Zfloor u)%Z by lia.
    replace (r - i1 + p1 - xr + 1)%Z with (r - origin m - Zfloor v)%Z by lia.
    rewrite !(minus_IZR _ (Zfloor _)).
    f_equal; [f_equal|]; f_equal; lra.
  - rewrite decide_False; [done|]. intros [Hcu Hrv]. apply Hmem.
    apply elem_of_window_cols; [done..|]. fold r c. lia.
Qed.

End FastRowEntries.

(** ** The slow path, for any composition function *)

Section SlowEntries.
Import PixelGrid.

(** X14: with a composition function, entry [(i, k)] of the matrix is the
    rendering at the [i]-th retained pixel of the function applied to the
    basis profile, dilated by the scale and shifted to grid cell [k]; the
    matrix has one row per retained pixel and [nparams] columns. *)
Theorem jacobian_slow_entries (m : t) (star : Star.t)
    (conv : galsim.Profile -> galsim.Profile) :
  (0 < size m)%Z ->
  let u0 := (StarFit.center (Star.fit star)).1 in
  let v0 := (StarFit.center (Star.fit star)).2 in
  jacobian_slow m star conv u0 v0 (in_support m u0 v0 <$> StarData.pixels (Star.data star))
  = (fun px =>
       (fun k =>
          conv (galsim.shift (IZR (Spec.du m k) * scale m) (IZR (Spec.dv m k) * scale m)
                  (galsim.dilate (scale m) (galsim.unit_pixel (interp m))))
            (pix_u px - u0) (pix_v px - v0)
          * StarData.pixel_area (Star.data star))
         <$> seq 0 (Z.to_nat (nparams m)))
      <$> Spec.retained m star.
Proof.
  intros Hn u0 v0. unfold jacobian_slow, basis_shifts, Spec.retained. fold u0 v0.
  set (g := np.meshgrid _ _).
  assert (Hg : forall k, (k < Z.to_nat (nparams m))%nat ->
            g.1 !! k = Some (Spec.du m k) /\ g.2 !! k = Some (Spec.dv m k)).
  { intros k Hk. destruct (basis_shifts_lookup m Hn k Hk) as [Hu Hv]. done. }
  destruct g as [du dv] eqn:Eg. simpl in Hg.
  rewrite count_mask.
  set (kept := filter _ _).
  set (E := fun px k =>
              conv (galsim.shift (IZR (Spec.du m k) * scale m) (IZR (Spec.dv m k) * scale m)
                      (galsim.dilate (scale m) (galsim.unit_pixel (interp m))))
                (pix_u px - u0) (pix_v px - v0)
              * StarData.pixel_area (Star.data star)).
  set (F := fun o : option Pixel =>
              (fun k => default 0 ((fun px => E px k) <$> o))
                <$> seq 0 (Z.to_nat (nparams m))).
  transitivity ((fun i => F (kept !! i)) <$> seq 0 (length kept)).
  - apply list_fmap_ext; intros _ i _. unfold F.
    apply list_fmap_ext; intros j k Hk. apply lookup_seq in Hk as [-> Hk]. simpl.
    destruct (Hg j Hk) as [Hdu Hdv].
    rewrite list_lookup_fmap.
    erewrite (proj2 (lookup_zip_with_Some pair _ _ j _)); cycle 1.
    { eexists _, _. split; [done|]. split.
      - unfold np.arange. apply lookup_seqZ_lt. unfold nparams in *. lia.
      - apply lookup_zip_with_Some. eexists _, _. split; [done|].
        rewrite !list_lookup_fmap, Hdu, Hdv. done. }
    simpl.
    unfold StarData.draw. rewrite select_fmap. fold kept.
    rewrite list_lookup_fmap. destruct (kept !! i) as [px|]; simpl; done.
  - rewrite fmap_seq_lookup. apply list_fmap_ext; intros _ px _. unfold F. simpl. done.
Qed.

End SlowEntries.

(** ** What chisq computes *)

Section ChisqMore.
Import PixelGrid.

Variable InterpolatedImage :
  Z -> list R -> R -> Interpolant -> option R -> galsim.Profile.
Variable lstsq : nat -> list (list R) -> list R -> list R.
Variable inv : list (list R) -> option (list (list R)).

Lemma zip_with_fmap_both {A B C D} (f : B -> C -> D) (g : A -> B) (k : A -> C)
    (l : list A) :
  zip_with f (g <$> l) (k <$> l) = (fun x => f (g x) (k x)) <$> l.
Proof. induction l as [|x l IH]; csimpl; [done|]. rewrite IH. done. Qed.

Lemma sum_squares_nonneg (l : list R) : 0 <= np.sum ((fun x => x ^ 2) <$> l).
Proof.
  induction l as [|x l IH]; [simpl; lra|].
  change (0 <= x ^ 2 + np.sum ((fun x => x ^ 2) <$> l)).
  pose proof (pow2_ge_0 x). lra.
Qed.

Lemma rows_shape {A} (f : R * R -> result (list R)) (g : A -> R * R) (n : nat)
    (l : list A) :
  Forall (fun p => exists row, f (g p) = Ok row /\ length row = n) l ->
  exists M, rows f (g <$> l) = Ok M
            /\ length M = length l /\ Forall (fun row => length row = n) M.
Proof.
  induction 1 as [|p l (row & Hp & Hl) _ (M & IH & HM & HF)]; csimpl.
  - exists []. done.
  - rewrite Hp. simpl. rewrite IH. simpl. exists (row :: M).
    split; [done|]. split; [simpl; lia|]. constructor; done.
Qed.

(** The matrix of derivatives, on either path: one row per retained pixel,
    one column per parameter. *)
Lemma jacobian_shape (m : t) (star : Star.t)
    (conv : option (galsim.Profile -> galsim.Profile)) :
  (0 < size m)%Z -> 0 < scale m -> 0 <= xrange (interp m) ->
  let u0 := (StarFit.center (Star.fit star)).1 in
  let v0 := (StarFit.center (Star.fit star)).2 in
  let mask := in_support m u0 v0 <$> StarData.pixels (Star.data star) in
  exists J,
    match conv with
    | Some c => Ok (jacobian_slow m star c u0 v0 mask)
    | None => jacobian_fast m star u0 v0 mask
    end = Ok J
    /\ length J = length (Spec.retained m star)
    /\ Forall (fun row => length row = Z.to_nat (nparams m)) J.
Proof.
  intros Hn Hs Hxr u0 v0 mask. destruct conv as [c|].
  - eexists. split; [done|]. unfold jacobian_slow.
    destruct (basis_shifts m) as [du dv]. unfold mask. rewrite count_mask.
    fold (Spec.retained m star). split.
    + rewrite length_fmap, length_seq. done.
    + apply Forall_fmap, Forall_true. intros i. simpl.
      rewrite length_fmap, length_seq. done.
  - unfold jacobian_fast, mask.
    rewrite decide_False by (unfold pixel_area; nra).
    rewrite !select_fmap, <- !list_fmap_compose, zip_fmap_same.
    fold (Spec.retained m star).
    apply rows_shape. apply Forall_forall. intros p Hp.
    apply list_elem_of_filter in Hp as [Hp _]. simpl.
    apply fast_row_returns; done.
Qed.

Lemma retained_weights (m : t) (star : Star.t) :
  Forall (fun px => pix_weight px <> 0) (Spec.retained m star).
Proof.
  apply Forall_forall. intros px Hpx. apply list_elem_of_filter in Hpx as [Hin _].
  unfold in_support in Hin. apply andb_prop in Hin as [_ Hw].
  apply negb_true_iff, bool_decide_eq_false in Hw. done.
Qed.

Lemma filter_all {A} (P : A -> Prop) `{forall x, Decision (P x)} (l : list A) :
  Forall P l -> filter P l = l.
Proof.
  induction 1 as [|x l Hx _ IH]; [done|]. rewrite filter_cons, decide_True by done.
  rewrite IH. done.
Qed.

(** [chisq] in closed form, for a star with a full-length vector. *)
Lemma chisq_closed (m : t) (star : Star.t)
    (conv : option (galsim.Profile -> galsim.Profile)) (dm : option string)
    (h : heap) (p : loc) (v : list R) (J : list (list R)) :
  (dm = None \/ dm = Some "no_pixel"%string) ->
  StarFit.params (Star.fit star) = Some p -> h !! p = Some v ->
  Z.of_nat (length v) = nparams m ->
  let u0 := (StarFit.center (Star.fit star)).1 in
  let v0 := (StarFit.center (Star.fit star)).2 in
  let mask := in_support m u0 v0 <$> StarData.pixels (Star.data star) in
  match conv with
  | Some c => Ok (jacobian_slow m star c u0 v0 mask)
  | None => jacobian_fast m star u0 v0 mask
  end = Ok J ->
  let kept := Spec.retained m star in
  let b := (fun px => (pix_data px - Spec.model_at InterpolatedImage m star conv v px)
                      * sqrt (pix_weight px)) <$> kept in
  let A := zip_with (fun row px =>
                       (fun x => x * StarFit.flux (Star.fit star) * sqrt (pix_weight px))
                         <$> row) J kept in
  chisq InterpolatedImage m star conv dm h
  = Ok (Star.mk (Star.data star)
          (StarFit.withNew (Star.fit star) (np.sum ((fun x => x ^ 2) <$> b))
             (length kept) A b), h).
Proof.
  intros Hdm Hp Hv Hlen u0 v0 mask HJ kept b A. unfold chisq. unfold bind at 1.
  replace (check_draw_method dm h) with (Ok (tt, h) : result (unit * heap))
    by (destruct Hdm as [-> | ->]; done).
  unfold StarFit.get_params. rewrite Hp. unfold bind at 1. rewrite (load_ok h p v Hv).
  unfold bind at 1, lift at 1, getProfile.
  rewrite decide_True by (unfold nparams in Hlen; done).
  pose proof (retained_weights m star) as Hrw. unfold Spec.retained in Hrw.
  unfold Spec.model_at in b. unfold Spec.retained in kept.
  unfold u0, v0 in *. clear u0 v0.
  destruct (StarFit.center (Star.fit star)) as [u0 v0]. cbn [fst snd] in *.
  unfold bind at 1, lift at 1. fold mask. rewrite HJ. unfold ret.
  unfold StarData.draw. unfold mask.
  rewrite <- !list_fmap_compose, !select_fmap. fold kept.
  do 3 f_equal.
  assert (Hb : zip_with Rmult
                 (zip_with Rminus (pix_data <$> kept)
                    (((fun x => x * StarFit.flux (Star.fit star))
                        ∘ (fun p0 =>
                             match conv with
                             | Some c =>
                                 c (galsim.shift u0 v0
                                      (InterpolatedImage (size m) v (scale m) (interp m)
                                         (if fit_flux m then None else Some 1)))
                             | None =>
                                 galsim.shift u0 v0
                                   (InterpolatedImage (size m) v (scale m) (interp m)
                                      (if fit_flux m then None else Some 1))
                             end (pix_u p0 - 0) (pix_v p0 - 0)
                             * StarData.pixel_area (Star.data star))) <$> kept))
                 (sqrt <$> (pix_weight <$> kept)) = b).
  { rewrite zip_with_fmap_both, <- list_fmap_compose, zip_with_fmap_both.
    unfold b. apply list_fmap_ext; intros _ px _. simpl. rewrite !Rminus_0_r. done. }
  rewrite Hb.
  assert (Hdof : length (filter (fun w => w <> 0) (pix_weight <$> kept)) = length kept).
  { rewrite filter_all; [apply length_fmap|].
    apply Forall_fmap. exact Hrw. }
  rewrite Hdof. f_equal. unfold A.
  rewrite <- list_fmap_compose.
  rewrite zip_with_fmap_l, zip_with_fmap_r.
  apply zip_with_ext; [|done..]. intros row px. simpl.
  rewrite <- list_fmap_compose. done.
Qed.

(** X15: any draw method other than the default and 'no_pixel' fails the
    assertion that opens [chisq] and [fit], whatever the star. *)
Theorem draw_method_must_be_no_pixel (m : t) (star : Star.t)
    (conv : option (galsim.Profile -> galsim.Profile)) (s : string) (h : heap) :
  s <> "no_pixel"%string ->
  chisq InterpolatedImage m star conv (Some s) h = Raise AssertionError
  /\ fit InterpolatedImage lstsq inv m star conv (Some s) h = Raise AssertionError.
Proof.
  intros Hs. apply String.eqb_neq in Hs.
  unfold fit, chisq, bind, check_draw_method. rewrite Hs. done.
Qed.

(** X16: a star whose vector does not have [size * size] values cannot be
    rendered: [chisq] and [fit] stop with the ValueError of the reshape in
    [getProfile].  A vector in one of the older encodings is such a vector:
    it has to go through [normalize] first. *)
Theorem chisq_rejects_wrong_length (m : t) (star : Star.t)
    (conv : option (galsim.Profile -> galsim.Profile)) (dm : option string)
    (h : heap) (v : list R) :
  (dm = None \/ dm = Some "no_pixel"%string) ->
  Spec.params_of star h = Some v -> Z.of_nat (length v) <> nparams m ->
  getProfile InterpolatedImage m v = Raise ValueError
  /\ chisq InterpolatedImage m star conv dm h = Raise ValueError
  /\ fit InterpolatedImage lstsq inv m star conv dm h = Raise ValueError.
Proof.
  intros Hdm Hv Hlen. unfold Spec.params_of in Hv.
  destruct (StarFit.params (Star.fit star)) as [p|] eqn:Hp; [|done]. simpl in Hv.
  assert (Hg : getProfile InterpolatedImage m v = Raise ValueError).
  { unfold getProfile. rewrite decide_False by (unfold nparams in Hlen; done). done. }
  assert (Hc : forall dm', (dm' = None \/ dm' = Some "no_pixel"%string) ->
            chisq InterpolatedImage m star conv dm' h = Raise ValueError).
  { intros dm' Hdm'. unfold chisq. unfold bind at 1.
    replace (check_draw_method dm' h) with (Ok (tt, h) : result (unit * heap))
      by (destruct Hdm' as [-> | ->]; done).
    unfold StarFit.get_params. rewrite Hp. unfold bind at 1. rewrite (load_ok h p v Hv).
    unfold bind at 1, lift at 1. rewrite Hg. done. }
  split; [exact Hg|]. split; [apply Hc; done|].
  unfold fit. unfold bind at 1.
  replace (check_draw_method dm h) with (Ok (tt, h) : result (unit * heap))
    by (destruct Hdm as [-> | ->]; done).
  unfold bind at 1. rewrite Hc by (left; done). done.
Qed.

(** The residual that [chisq] returns has one entry per row of the matrix,
    and chisq is the sum of its squares. *)
Lemma chisq_residual_lengths (m : t) (star : Star.t)
    (conv : option (galsim.Profile -> galsim.Profile)) (dm : option string)
    (h : heap) (v : list R) :
  (0 < size m)%Z -> 0 < scale m -> 0 <= xrange (interp m) ->
  (dm = None \/ dm = Some "no_pixel"%string) ->
  Spec.params_of star h = Some v -> Z.of_nat (length v) = nparams m ->
  exists chi n A b,
    chisq InterpolatedImage m star conv dm h
    = Ok (Star.mk (Star.data star) (StarFit.withNew (Star.fit star) chi n A b), h)
    /\ length A = length b
    /\ chi = np.sum ((fun x => x ^ 2) <$> b).
Proof.
  intros Hn Hs Hxr Hdm Hv Hlen. unfold Spec.params_of in Hv.
  destruct (StarFit.params (Star.fit star)) as [p|] eqn:Hp; [|done]. simpl in Hv.
  destruct (jacobian_shape m star conv Hn Hs Hxr) as (J & HJ & HJl & HJr).
  cbv zeta in HJ.
  pose proof (chisq_closed m star conv dm h p v J Hdm Hp Hv Hlen HJ) as Hc.
  cbv zeta in Hc.
  eexists _, _, _, _. split; [exact Hc|].
  split; [rewrite length_zip_with, length_fmap; lia|done].
Qed.

(** X17: the shape of what [chisq] returns, on either path: the matrix has one
    row per retained pixel and one column per parameter, the residual one
    entry per retained pixel, dof is the number of retained pixels, and
    chisq is the sum of the squared residuals, so it is never negative.
    The store and the star's own fields are left alone. *)
Theorem chisq_shape (m : t) (star : Star.t)
    (conv : option (galsim.Profile -> galsim.Profile)) (dm : option string)
    (h : heap) (v : list R) :
  (0 < size m)%Z -> 0 < scale m -> 0 <= xrange (interp m) ->
  (dm = None \/ dm = Some "no_pixel"%string) ->
  Spec.params_of star h = Some v -> Z.of_nat (length v) = nparams m ->
  exists chi A b,
    chisq InterpolatedImage m star conv dm h
    = Ok (Star.mk (Star.data star)
            (StarFit.withNew (Star.fit star) chi (length (Spec.retained m star)) A b), h)
    /\ length A = length (Spec.retained m star)
    /\ Forall (fun row => length row = Z.to_nat (nparams m)) A
    /\ length b = length (Spec.retained m star)
    /\ (length (Spec.retained m star) <= length (StarData.pixels (Star.data star)))%nat
    /\ chi = np.sum ((fun x => x ^ 2) <$> b)
    /\ 0 <= chi.
Proof.
  intros Hn Hs Hxr Hdm Hv Hlen. unfold Spec.params_of in Hv.
  destruct (StarFit.params (Star.fit star)) as [p|] eqn:Hp; [|done]. simpl in Hv.
  destruct (jacobian_shape m star conv Hn Hs Hxr) as (J & HJ & HJl & HJr).
  cbv zeta in HJ.
  pose proof (chisq_closed m star conv dm h p v J Hdm Hp Hv Hlen HJ) as Hc.
  cbv zeta in Hc.
  eexists _, _, _. split; [exact Hc|].
  split; [rewrite length_zip_with; lia|].
  split.
  { apply Forall_forall. intros row Hrow.
    apply elem_of_lookup_zip_with in Hrow as (i & r0 & px & -> & Hr0 & _).
    rewrite length_fmap. eapply (proj1 (Forall_forall _ _) HJr).
    eapply list_elem_of_lookup_2. exact Hr0. }
  split; [apply length_fmap|].
  split; [apply length_filter|].
  split; [done|]. apply sum_squares_nonneg.
Qed.

(** X18: [chisq] sets up weighted least squares: for weights that are not
    negative, the residual of a retained pixel is [sqrt weight] times data
    minus model, its row of the matrix is the row of derivatives times the
    flux and [sqrt weight], and chisq is the weighted sum of the squared
    differences between data and model. *)
Theorem chisq_weighted_least_squares (m : t) (star : Star.t)
    (conv : option (galsim.Profile -> galsim.Profile)) (dm : option string)
    (h : heap) (v : list R) :
  (0 < size m)%Z -> 0 < scale m -> 0 <= xrange (interp m) ->
  (dm = None \/ dm = Some "no_pixel"%string) ->
  Spec.params_of star h = Some v -> Z.of_nat (length v) = nparams m ->
  Forall (fun px => 0 <= pix_weight px) (StarData.pixels (Star.data star)) ->
  exists J chi A b,
    match conv with
    | Some c =>
        Ok (jacobian_slow m star c (StarFit.center (Star.fit star)).1
              (StarFit.center (Star.fit star)).2
              (in_support m (StarFit.center (Star.fit star)).1
                 (StarFit.center (Star.fit star)).2 <$> StarData.pixels (Star.data star)))
    | None =>
        jacobian_fast m star (StarFit.center (Star.fit star)).1
          (StarFit.center (Star.fit star)).2
          (in_support m (StarFit.center (Star.fit star)).1
             (StarFit.center (Star.fit star)).2 <$> StarData.pixels (Star.data star))
    end = Ok J
    /\ chisq InterpolatedImage m star conv dm h
       = Ok (Star.mk (Star.data star)
               (StarFit.withNew (Star.fit star) chi (length (Spec.retained m star)) A b), h)
    /\ b = (fun px => (pix_data px - Spec.model_at InterpolatedImage m star conv v px)
                      * sqrt (pix_weight px)) <$> Spec.retained m star
    /\ A = zip_with (fun row px =>
                       (fun x => x * StarFit.flux (Star.fit star) * sqrt (pix_weight px))
                         <$> row) J (Spec.retained m star)
    /\ chi = np.sum ((fun px =>
                        pix_weight px
                        * (pix_data px - Spec.model_at InterpolatedImage m star conv v px) ^ 2)
                       <$> Spec.retained m star).
Proof.
  intros Hn Hs Hxr Hdm Hv Hlen Hw. unfold Spec.params_of in Hv.
  destruct (StarFit.params (Star.fit star)) as [p|] eqn:Hp; [|done]. simpl in Hv.
  destruct (jacobian_shape m star conv Hn Hs Hxr) as (J & HJ & HJl & HJr).
  cbv zeta in HJ.
  pose proof (chisq_closed m star conv dm h p v J Hdm Hp Hv Hlen HJ) as Hc.
  cbv zeta in Hc.
  eexists J, _, _, _. split; [exact HJ|]. split; [exact Hc|].
  split; [done|]. split; [done|].
  rewrite <- list_fmap_compose. f_equal.
  apply list_fmap_ext. intros i px Hpx. simpl.
  assert (Hpos : 0 <= pix_weight px).
  { apply list_elem_of_lookup_2 in Hpx. apply list_elem_of_filter in Hpx as [_ Hpx].
    eapply (proj1 (Forall_forall _ _) Hw). done. }
  pose proof (sqrt_sqrt _ Hpos) as Hq.
  set (s := sqrt (pix_weight px)) in *. rewrite <- Hq. ring.
Qed.

Lemma residual_norm (x b : list R) :
  length x = length b ->
  np.sum ((fun y => y ^ 2) <$> b) - 2 * np.dot x b + np.dot x x
  = np.sum ((fun y => y ^ 2) <$> zip_with Rminus x b).
Proof.
  unfold np.dot. revert b. induction x as [|a x IH]; intros [|c b] Hl; try done.
  - unfold np.sum. simpl. lra.
  - simpl in Hl. specialize (IH b ltac:(lia)).
    change (c ^ 2 + np.sum ((fun y => y ^ 2) <$> b)
            - 2 * (a * c + np.sum (zip_with Rmult x b))
            + (a * a + np.sum (zip_with Rmult x x))
            = (a - c) ^ 2 + np.sum ((fun y => y ^ 2) <$> zip_with Rminus x b)).
    rewrite <- IH. ring.
Qed.

Lemma sum_squares_diag (b : list R) :
  np.sum ((fun y => y ^ 2) <$> zip_with Rminus b b) = 0.
Proof.
  induction b as [|c b IH]; [done|].
  change (np.sum ((fun y => y ^ 2) <$> zip_with Rminus (c :: b) (c :: b)))
    with ((c - c) ^ 2 + np.sum ((fun y => y ^ 2) <$> zip_with Rminus b b)).
  rewrite IH. ring.
Qed.

(** X19: with [fit_flux] on, the chisq of the star that [fit] returns is the
    squared norm of the residual of the linearized model, [A dp - b], for
    whatever update the solver returns: it is never negative, and it is 0
    when the update solves [A dp = b]. *)
Theorem fit_chisq_is_residual_norm (m : t) (star : Star.t)
    (conv : option (galsim.Profile -> galsim.Profile)) (dm : option string)
    (h : heap) (v : list R) :
  fit_flux m = true ->
  (0 < size m)%Z -> 0 < scale m -> 0 <= xrange (interp m) ->
  (dm = None \/ dm = Some "no_pixel"%string) ->
  (forall A b, length (lstsq (Z.to_nat (nparams m)) A b) = Z.to_nat (nparams m)) ->
  Spec.params_of star h = Some v -> Z.of_nat (length v) = nparams m ->
  exists star1 A b star' h' chi,
    chisq InterpolatedImage m star conv None h = Ok (star1, h)
    /\ StarFit.A (Star.fit star1) = Some A /\ StarFit.b (Star.fit star1) = Some b
    /\ fit InterpolatedImage lstsq inv m star conv dm h = Ok (star', h')
    /\ StarFit.chisq (Star.fit star') = Some chi
    /\ chi = np.sum ((fun y => y ^ 2)
                       <$> zip_with Rminus
                             (np.matvec A (lstsq (Z.to_nat (nparams m)) A b)) b)
    /\ 0 <= chi
    /\ (np.matvec A (lstsq (Z.to_nat (nparams m)) A b) = b -> chi = 0).
Proof.
  intros Hff Hn Hs Hxr Hdm Hls Hv Hlen.
  destruct (chisq_residual_lengths m star conv None h v Hn Hs Hxr (or_introl eq_refl)
              Hv Hlen) as (chi0 & n & A & b & Hc & HA & Hchi).
  destruct (fit_record InterpolatedImage lstsq inv m star _ conv dm h h v Hdm Hc Hls Hv)
    as (star' & h' & Hfit & _ & Hq & _).
  rewrite Hff in Hq. unfold Spec.quadratic_chisq in Hq.
  cbn [Star.fit StarFit.A StarFit.b StarFit.chisq StarFit.withNew] in Hq.
  eexists _, A, b, star', h', _.
  split; [exact Hc|]. split; [done|]. split; [done|]. split; [exact Hfit|].
  split; [exact Hq|].
  assert (Hl : length (np.matvec A (lstsq (Z.to_nat (nparams m)) A b)) = length b).
  { unfold np.matvec. rewrite length_fmap. done. }
  rewrite Hchi, (residual_norm _ _ Hl).
  split; [done|]. split; [apply sum_squares_nonneg|].
  intros ->. apply sum_squares_diag.
Qed.

(** X20: of the arrays that exist when [fit] is called, [fit] writes to one
    only, the parameter array of the input star: every other array of the
    store is as it was when [fit] returns. *)
Theorem fit_leaves_other_arrays (m : t) (star : Star.t)
    (conv : option (galsim.Profile -> galsim.Profile)) (dm : option string)
    (h : heap) (p : loc) (v : list R) :
  (0 < size m)%Z -> 0 < scale m -> 0 <= xrange (interp m) ->
  (dm = None \/ dm = Some "no_pixel"%string) ->
  (forall A b, length (lstsq (Z.to_nat (nparams m)) A b) = Z.to_nat (nparams m)) ->
  StarFit.params (Star.fit star) = Some p -> h !! p = Some v ->
  Z.of_nat (length v) = nparams m ->
  exists star' h',
    fit InterpolatedImage lstsq inv m star conv dm h = Ok (star', h')
    /\ (forall l, l <> p -> (l < length h)%nat -> h' !! l = h !! l).
Proof.
  intros Hn Hs Hxr Hdm Hls Hp Hv Hlen.
  assert (Hpv : Spec.params_of star h = Some v).
  { unfold Spec.params_of. rewrite Hp. done. }
  destruct (chisq_returns InterpolatedImage m star conv None h v Hn Hs Hxr
              (or_introl eq_refl) Hpv Hlen) as (star1 & Hc).
  destruct (fit_outcome InterpolatedImage lstsq inv m star star1 conv dm h h Hdm Hc Hls)
    as (p' & v' & built & Hp' & Hv' & _ & Hout).
  assert (p' = p) as -> by congruence.
  cbv zeta in Hout.
  destruct Hout as (Hfit & _ & Hbp & _ & _ & _ & _ & Htrue & Hfalse).
  assert (Hpl : (p < length h)%nat) by (eapply lookup_lt_Some; eauto).
  set (w := zip_with Rplus v' (Spec.dparam lstsq m star1)) in *.
  set (h2 := <[ p := w ]> h ++ [w]) in *.
  assert (Hl2 : length h2 = S (length h)).
  { unfold h2. rewrite length_app, length_insert. simpl. lia. }
  assert (Hframe2 : forall l, l <> p -> (l < length h)%nat -> h2 !! l = h !! l).
  { intros l Hl Hlt. unfold h2. rewrite lookup_app_l by (rewrite length_insert; done).
    apply list_lookup_insert_ne. done. }
  destruct (fit_flux m) eqn:Hff.
  - exists built, h2. rewrite Hfit, (Htrue eq_refl).
    split; [done|exact Hframe2].
  - destruct (Hfalse eq_refl) as (star' & Hnorm & Hsp).
    eexists star', _. rewrite Hfit.
    split; [exact Hnorm|].
    intros l Hl Hlt. rewrite lookup_app_l by (rewrite length_insert; lia).
    rewrite list_lookup_insert_ne by lia. apply Hframe2; done.
Qed.

End ChisqMore.

(** ** Keyword arguments read back from older files *)

Section Kwargs.
Import PixelGrid.

Lemma fix_kwargs_lookup (kw : gmap string kwarg) (k : string) :
  _fix_kwargs kw !! k
  = if decide (k = "degenerate"%string \/ k = "start_sigma"%string) then None
    else if decide (k = "interp"%string)
         then Some (default (KLanczos 3) (kw !! "interp"%string))
         else kw !! k.
Proof.
  unfold _fix_kwargs.
  assert (Hi : delete "start_sigma"%string (delete "degenerate"%string kw) !! "interp"%string
               = kw !! "interp"%string).
  { rewrite !lookup_delete_ne by done. done. }
  rewrite Hi.
  destruct (decide (k = "degenerate"%string \/ k = "start_sigma"%string)) as [[->| ->]|Hk].
  - destruct (kw !! "interp"%string).
    + rewrite lookup_delete_ne by done. apply lookup_delete_eq.
    + rewrite lookup_insert_ne by done. rewrite lookup_delete_ne by done.
      apply lookup_delete_eq.
  - destruct (kw !! "interp"%string).
    + apply lookup_delete_eq.
    + rewrite lookup_insert_ne by done. apply lookup_delete_eq.
  - assert (k <> "degenerate"%string /\ k <> "start_sigma"%string) as [H1 H2] by tauto.
    destruct (decide (k = "interp"%string)) as [->|Hn].
    + destruct (kw !! "interp"%string) eqn:E; simpl.
      * rewrite !lookup_delete_ne by done. done.
      * apply lookup_insert_eq.
    + destruct (kw !! "interp"%string).
      * rewrite !lookup_delete_ne by done. done.
      * rewrite lookup_insert_ne by done. rewrite !lookup_delete_ne by done. done.
Qed.

Lemma fix_kwargs_result_aux (kw : gmap string kwarg) :
  _fix_kwargs kw !! "degenerate"%string = None
  /\ _fix_kwargs kw !! "start_sigma"%string = None
  /\ _fix_kwargs kw !! "interp"%string
     = Some (default (KLanczos 3) (kw !! "interp"%string)).
Proof. rewrite !fix_kwargs_lookup. done. Qed.

(** X21: after [_fix_kwargs] the two obsolete keys are gone and there is an
    interpolant: the one that was given, or [Lanczos(3)] when there was
    none.  Every other entry is as it was. *)
Theorem fix_kwargs_result (kw : gmap string kwarg) :
  _fix_kwargs kw !! "degenerate"%string = None
  /\ _fix_kwargs kw !! "start_sigma"%string = None
  /\ _fix_kwargs kw !! "interp"%string
     = Some (default (KLanczos 3) (kw !! "interp"%string))
  /\ forall k, k <> "degenerate"%string -> k <> "start_sigma"%string ->
               k <> "interp"%string -> _fix_kwargs kw !! k = kw !! k.
Proof.
  split; [rewrite fix_kwargs_lookup; done|].
  split; [rewrite fix_kwargs_lookup; done|].
  split; [rewrite fix_kwargs_lookup; done|].
  intros k H1 H2 H3. rewrite fix_kwargs_lookup.
  rewrite decide_False by tauto. rewrite decide_False by done. done.
Qed.

(** X22: [_fix_kwargs] is idempotent, and it changes nothing in the keyword
    arguments that the constructor records for a model. *)
Theorem fix_kwargs_idempotent (kw : gmap string kwarg) (repr : Interpolant -> string)
    (m : t) :
  _fix_kwargs (_fix_kwargs kw) = _fix_kwargs kw
  /\ _fix_kwargs (kwargs repr m) = kwargs repr m.
Proof.
  split.
  - apply map_eq. intros k. rewrite (fix_kwargs_lookup (_fix_kwargs kw)).
    destruct (fix_kwargs_result_aux kw) as (Hd & Hs & Hi).
    case_decide as Hk.
    + destruct Hk as [-> | ->]; done.
    + case_decide as Hn; [|done]. subst k. rewrite Hi. done.
  - apply map_eq. intros k. rewrite fix_kwargs_lookup.
    case_decide as Hk.
    + symmetry. unfold kwargs. destruct Hk as [-> | ->]; done.
    + case_decide as Hi; [|done]. subst k. unfold kwargs. done.
Qed.

End Kwargs.

(** ** initialize followed by normalize *)

Section InitializeNormalize.
Import PixelGrid.

Lemma normalized_unit (v : list R) : np.sum v = 1 -> Spec.normalized v = v.
Proof. intros Hs. unfold Spec.normalized. rewrite Hs. apply fmap_div_one. Qed.

Lemma normalized_scaled (v : list R) (c : R) :
  np.sum v = 1 -> c <> 0 -> Spec.normalized ((fun x => x * c) <$> v) = v.
Proof.
  intros Hs Hc. unfold Spec.normalized. rewrite sum_scale, Hs.
  rewrite <- list_fmap_compose. rewrite <- (list_fmap_id v) at 2.
  apply list_fmap_ext; intros _ x _. simpl. field. done.
Qed.

(** The vector that each method starts from, once normalized: the
    Gaussian for 'hsm' and for 'zero', the unit vector for 'delta'. *)
Lemma initial_params_normalized (m : t) (method : string) (sigma : R) :
  (0 < size m)%Z ->
  (method = "hsm" \/ method = "zero" \/ method = "delta")%string ->
  exists v v0,
    initial_params m method sigma = Ok v
    /\ initial_params m (if String.eqb method "zero" then "hsm" else method)%string sigma
       = Ok v0
    /\ Z.of_nat (length v) = nparams m
    /\ np.sum v <> 0
    /\ Spec.normalized v = v0.
Proof.
  intros Hn [-> | [-> | ->]].
  - destruct (initial_params_hsm_sum m sigma Hn) as (v & Hh & Hz & Hl & Hp & Hs).
    exists v, v. split; [done|]. split; [done|]. split; [done|].
    split; [lra|]. apply normalized_unit. done.
  - destruct (initial_params_hsm_sum m sigma Hn) as (v & Hh & Hz & Hl & Hp & Hs).
    eexists _, v. split; [exact Hz|]. split; [done|].
    split; [rewrite length_fmap; done|].
    split; [rewrite sum_scale, Hs; lra|]. apply normalized_scaled; [done|lra].
  - destruct (initial_params_delta_eq m sigma Hn) as [Heq Hcc].
    eexists _, _. split; [exact Heq|]. split; [exact Heq|].
    assert (HN : (0 <= nparams m)%Z) by (unfold nparams; nia).
    split; [rewrite length_insert; unfold np.zeros; rewrite length_replicate; lia|].
    rewrite sum_unit by done. split; [lra|].
    apply normalized_unit. apply sum_unit. done.
Qed.

(** X23: with [fit_flux] off, a star that was just initialized is already
    normalized when the method is 'hsm' or 'delta': [normalize] gives it the
    same values again.  After method 'zero' it gives the values of method
    'hsm': the factor 1e-10 does not survive [normalize]. *)
Theorem initialize_then_normalize (m : t) (star : Star.t) (d : option string)
    (h : heap) (method : string) :
  fit_flux m = false -> (0 < size m)%Z ->
  StarData.hsm_sigma (Star.data star) <> 0 ->
  (init m = Some method \/ (init m = None /\ default "hsm"%string d = method)) ->
  (method = "hsm" \/ method = "zero" \/ method = "delta")%string ->
  StarFit.params (Star.fit star) = None ->
  exists v v0 star1 h1 star2 h2,
    initial_params m method (StarData.hsm_sigma (Star.data star)) = Ok v
    /\ initial_params m (if String.eqb method "zero" then "hsm" else method)%string
         (StarData.hsm_sigma (Star.data star)) = Ok v0
    /\ initialize m star d h = Ok (star1, h1)
    /\ Spec.params_of star1 h1 = Some v
    /\ normalize m star1 h1 = Ok (star2, h2)
    /\ Spec.params_of star2 h2 = Some v0.
Proof.
  intros Hff Hn _ Hm Hmethod Hnone.
  destruct (initial_params_normalized m method (StarData.hsm_sigma (Star.data star))
              Hn Hmethod) as (v & v0 & Hv & Hv0 & Hlen & Hsum & Hnorm).
  assert (Hinit : initialize m star d h
                  = Ok (Star.mk (Star.data star)
                          (StarFit.mk (Some (length h)) (StarFit.flux (Star.fit star))
                             (StarFit.center (Star.fit star)) None None None None None),
                        h ++ [v])).
  { unfold initialize.
    replace (match match init m with Some i => Some i | None => d end with
             | Some i => i | None => "hsm"%string end) with method
      by (destruct Hm as [-> | [-> <-]]; [done|destruct d; done]).
    unfold bind at 1. unfold lift. rewrite Hv.
    unfold bind at 1. rewrite newParams_fresh by done. done. }
  set (star1 := Star.mk _ _) in Hinit.
  assert (Hh1 : (h ++ [v]) !! length h = Some v).
  { rewrite lookup_app_r by done. rewrite Nat.sub_diag. done. }
  assert (Hl2 : (size m ^ 2 <= Z.of_nat (length v))%Z).
  { rewrite Z.pow_2_r. unfold nparams in Hlen. lia. }
  pose proof (normalize_standard m star1 (h ++ [v]) (length h) v Hff eq_refl Hh1 Hl2) as H2.
  cbv zeta in H2. fold (Spec.normalized v) in H2. rewrite Hnorm in H2.
  eexists v, v0, star1, _, _, _.
  split; [exact Hv|]. split; [exact Hv0|]. split; [exact Hinit|].
  split; [unfold Spec.params_of; simpl; exact Hh1|].
  split; [exact H2|].
  unfold Spec.params_of. cbn [Star.fit StarFit.params]. simpl.
  rewrite lookup_app_r by (rewrite length_insert; done).
  rewrite length_insert, Nat.sub_diag. done.
Qed.

End InitializeNormalize.

(** ** The properties above on concrete inputs *)

Section Instances.
Import PixelGrid.

(** X2, a witness: the basis shifts of a grid of size 3. *)
Lemma basis_shifts_row_major_witness :
  (0 < size (Ex.grid Ex.Linear 1 3 false))%Z
  /\ length (basis_shifts (Ex.grid Ex.Linear 1 3 false)).1
     = Z.to_nat (nparams (Ex.grid Ex.Linear 1 3 false))
  /\ (basis_shifts (Ex.grid Ex.Linear 1 3 false)).1
       !! Spec.center_cell (Ex.grid Ex.Linear 1 3 false) = Some 0%Z.
Proof.
  assert (H1 : (0 < size (Ex.grid Ex.Linear 1 3 false))%Z) by (simpl; lia).
  destruct (basis_shifts_row_major _ H1) as (L1 & _ & _ & C1 & _).
  split; [exact H1|]. split; [exact L1|exact C1].
Defined.

(** X3, a witness: method 'delta' on a grid of size 3. *)
Lemma initial_params_delta_witness :
  (0 < size (Ex.grid Ex.Linear 1 3 false))%Z
  /\ exists v,
       initial_params (Ex.grid Ex.Linear 1 3 false) "delta" 1 = Ok v
       /\ np.sum v = 1
       /\ Spec.moment_u (Ex.grid Ex.Linear 1 3 false) v = 0.
Proof.
  assert (H1 : (0 < size (Ex.grid Ex.Linear 1 3 false))%Z) by (simpl; lia).
  destruct (initial_params_delta _ 1 H1) as (v & Hv & _ & _ & _ & Hs & Hu & _).
  split; [exact H1|]. exists v. split; [exact Hv|]. split; [exact Hs|exact Hu].
Defined.

(** X4, a witness: methods 'hsm' and 'zero' on a grid of size 3, for a
    size estimate of 1. *)
Lemma initial_params_hsm_unit_sum_witness :
  (0 < size (Ex.grid Ex.Linear 1 3 false))%Z
  /\ 1 <> 0
  /\ exists v,
       initial_params (Ex.grid Ex.Linear 1 3 false) "hsm" 1 = Ok v
       /\ np.sum v = 1
       /\ np.sum ((fun x => x * 1e-10) <$> v) = 1e-10.
Proof.
  assert (H1 : (0 < size (Ex.grid Ex.Linear 1 3 false))%Z) by (simpl; lia).
  assert (H2 : 1 <> 0) by lra.
  destruct (initial_params_hsm_unit_sum _ 1 H1 H2) as (v & Hv & _ & _ & _ & Hs & _ & Hz).
  split; [exact H1|]. split; [exact H2|].
  exists v. split; [exact Hv|]. split; [exact Hs|exact Hz].
Defined.

(** X5, a witness: the Gaussian start on a grid of size 3. *)
Lemma initial_params_hsm_centered_witness :
  (0 < size (Ex.grid Ex.Linear 1 3 false))%Z
  /\ Z.odd (size (Ex.grid Ex.Linear 1 3 false)) = true
  /\ 1 <> 0
  /\ exists v,
       initial_params (Ex.grid Ex.Linear 1 3 false) "hsm" 1 = Ok v
       /\ Spec.moment_u (Ex.grid Ex.Linear 1 3 false) v = 0
       /\ Spec.moment_v (Ex.grid Ex.Linear 1 3 false) v = 0.
Proof.
  assert (H1 : (0 < size (Ex.grid Ex.Linear 1 3 false))%Z) by (simpl; lia).
  assert (H2 : Z.odd (size (Ex.grid Ex.Linear 1 3 false)) = true) by reflexivity.
  assert (H3 : 1 <> 0) by lra.
  destruct (initial_params_hsm_centered _ 1 H1 H2 H3) as (v & Hv & _ & Hu & Hw & _).
  split; [exact H1|]. split; [exact H2|]. split; [exact H3|].
  exists v. split; [exact Hv|]. split; [exact Hu|exact Hw].
Defined.

(** X6, a witness: a method that does not exist. *)
Lemma initialize_invalid_method_witness :
  init (Spec.with_init (Ex.grid Ex.Linear 1 1 false) "gauss") = Some "gauss"%string
  /\ initialize (Spec.with_init (Ex.grid Ex.Linear 1 1 false) "gauss") Ex.fresh_star
       (Some "delta"%string) []
     = Raise ValueError.
Proof.
  split; [reflexivity|].
  apply (initialize_invalid_method _ Ex.fresh_star (Some "delta"%string) [] "gauss").
  - left. reflexivity.
  - discriminate.
  - discriminate.
  - discriminate.
Defined.

(** X7, a witness: method 'delta' for a star that has no parameters yet. *)
Lemma initialize_new_array_witness :
  initial_params (Spec.with_init (Ex.grid Ex.Linear 1 1 false) "delta") "delta"
    (StarData.hsm_sigma (Star.data Ex.fresh_star)) = Ok [1]
  /\ StarFit.params (Star.fit Ex.fresh_star) = None
  /\ exists star',
       initialize (Spec.with_init (Ex.grid Ex.Linear 1 1 false) "delta") Ex.fresh_star
         None [[5]]
       = Ok (star', [[5]; [1]])
       /\ Spec.params_of star' [[5]; [1]] = Some [1].
Proof.
  assert (H1 : initial_params (Spec.with_init (Ex.grid Ex.Linear 1 1 false) "delta") "delta"
                 (StarData.hsm_sigma (Star.data Ex.fresh_star)) = Ok [1]) by reflexivity.
  assert (H2 : StarFit.params (Star.fit Ex.fresh_star) = None) by reflexivity.
  destruct (initialize_new_array (Spec.with_init (Ex.grid Ex.Linear 1 1 false) "delta")
              Ex.fresh_star None [[5]] "delta" [1] (or_introl eq_refl) H1 H2)
    as (star' & Hi & _ & _ & _ & Hp & _).
  split; [exact H1|]. split; [exact H2|]. exists star'. split; [exact Hi|exact Hp].
Defined.

(** X23, a witness: method 'zero' followed by [normalize]. *)
Lemma initialize_then_normalize_witness :
  fit_flux (Spec.with_init (Ex.grid Ex.Linear 1 1 false) "zero") = false
  /\ StarData.hsm_sigma (Star.data Ex.fresh_star) <> 0
  /\ exists v0 star1 h1 star2 h2,
       initial_params (Spec.with_init (Ex.grid Ex.Linear 1 1 false) "zero") "hsm"
         (StarData.hsm_sigma (Star.data Ex.fresh_star)) = Ok v0
       /\ initialize (Spec.with_init (Ex.grid Ex.Linear 1 1 false) "zero") Ex.fresh_star
            None [] = Ok (star1, h1)
       /\ normalize (Spec.with_init (Ex.grid Ex.Linear 1 1 false) "zero") star1 h1
          = Ok (star2, h2)
       /\ Spec.params_of star2 h2 = Some v0.
Proof.
  assert (H1 : fit_flux (Spec.with_init (Ex.grid Ex.Linear 1 1 false) "zero") = false)
    by reflexivity.
  assert (H2 : (0 < size (Spec.with_init (Ex.grid Ex.Linear 1 1 false) "zero"))%Z)
    by (simpl; lia).
  assert (H3 : StarData.hsm_sigma (Star.data Ex.fresh_star) <> 0) by (simpl; lra).
  destruct (initialize_then_normalize (Spec.with_init (Ex.grid Ex.Linear 1 1 false) "zero")
              Ex.fresh_star None [] "zero" H1 H2 H3 (or_introl eq_refl)
              (or_intror (or_introl eq_refl)) eq_refl)
    as (v & v0 & star1 & h1 & star2 & h2 & _ & Hv0 & Hi & _ & Hn & Hp).
  split; [exact H1|]. split; [exact H3|].
  exists v0, star1, h1, star2, h2. split; [exact Hv0|]. split; [exact Hi|].
  split; [exact Hn|exact Hp].
Defined.

(** X8, a witness: three values on a grid of size 2. *)
Lemma legacy_remap_one_reserved_witness :
  (0 < size (Ex.grid Ex.Linear 1 2 false))%Z
  /\ scale (Ex.grid Ex.Linear 1 2 false) <> 0
  /\ Z.of_nat (length [1; 2; 3]) = (nparams (Ex.grid Ex.Linear 1 2 false) - 1)%Z
  /\ exists values,
       legacy_remap (Ex.grid Ex.Linear 1 2 false) [1; 2; 3] = Ok values
       /\ Z.of_nat (length values) = nparams (Ex.grid Ex.Linear 1 2 false)
       /\ np.sum values = 1 / pixel_area (Ex.grid Ex.Linear 1 2 false).
Proof.
  assert (H1 : (0 < size (Ex.grid Ex.Linear 1 2 false))%Z) by (simpl; lia).
  assert (H2 : scale (Ex.grid Ex.Linear 1 2 false) <> 0) by (simpl; lra).
  assert (H3 : Z.of_nat (length [1; 2; 3])
               = (nparams (Ex.grid Ex.Linear 1 2 false) - 1)%Z) by reflexivity.
  destruct (legacy_remap_one_reserved _ _ H1 H2 H3) as (values & Hv & Hl & _ & _ & Hs).
  split; [exact H1|]. split; [exact H2|]. split; [exact H3|].
  exists values. split; [exact Hv|]. split; [exact Hl|exact Hs].
Defined.

(** X9, a witness: two values where nine are expected. *)
Lemma normalize_rejects_other_lengths_witness :
  (Z.of_nat (length [1; 2]) < nparams (Ex.grid Ex.Linear 1 3 false))%Z
  /\ normalize (Ex.grid Ex.Linear 1 3 false) Ex.star [[1; 2]] = Raise AssertionError.
Proof.
  assert (H1 : (Z.of_nat (length [1; 2]) < nparams (Ex.grid Ex.Linear 1 3 false))%Z)
    by (vm_compute; reflexivity).
  split; [exact H1|].
  apply (normalize_rejects_other_lengths _ Ex.star [[1; 2]] 0%nat [1; 2]
           eq_refl eq_refl H1).
  - vm_compute. discriminate.
  - vm_compute. discriminate.
Defined.

(** X10, a witness: the older encoding on a grid of size 2, with
    [fit_flux] off. *)
Lemma normalize_legacy_unit_sum_witness :
  fit_flux (Ex.grid Ex.Linear 1 2 false) = false
  /\ scale (Ex.grid Ex.Linear 1 2 false) <> 0
  /\ exists star' h' w,
       normalize (Ex.grid Ex.Linear 1 2 false) Ex.star [[1; 2; 3]] = Ok (star', h')
       /\ Spec.params_of star' h' = Some w
       /\ Z.of_nat (length w) = nparams (Ex.grid Ex.Linear 1 2 false)
       /\ np.sum w = 1.
Proof.
  assert (H1 : fit_flux (Ex.grid Ex.Linear 1 2 false) = false) by reflexivity.
  assert (H2 : scale (Ex.grid Ex.Linear 1 2 false) <> 0) by (simpl; lra).
  assert (H3 : (0 < size (Ex.grid Ex.Linear 1 2 false))%Z
               /\ Z.of_nat (length [1; 2; 3])
                  = (nparams (Ex.grid Ex.Linear 1 2 false) - 1)%Z)
    by (split; [simpl; lia|reflexivity]).
  destruct (normalize_legacy_unit_sum _ Ex.star [[1; 2; 3]] 0%nat [1; 2; 3]
              H1 H2 eq_refl eq_refl (or_introl H3))
    as (temp & star' & h' & w & _ & Hn & Hp & _ & Hl & Hs & _).
  split; [exact H1|]. split; [exact H2|].
  exists star', h', w. split; [exact Hn|]. split; [exact Hp|]. split; [exact Hl|exact Hs].
Defined.

(** X11, a witness: a vector of one value, of sum 2. *)
Lemma normalize_idempotent_witness :
  fit_flux (Ex.grid Ex.Linear 1 1 false) = false
  /\ Spec.params_of Ex.star [[2]] = Some [2]
  /\ np.sum [2] <> 0
  /\ exists star1 h1 star2 h2,
       normalize (Ex.grid Ex.Linear 1 1 false) Ex.star [[2]] = Ok (star1, h1)
       /\ normalize (Ex.grid Ex.Linear 1 1 false) star1 h1 = Ok (star2, h2)
       /\ Spec.params_of star2 h2 = Spec.params_of star1 h1.
Proof.
  assert (H1 : fit_flux (Ex.grid Ex.Linear 1 1 false) = false) by reflexivity.
  assert (H2 : Spec.params_of Ex.star [[2]] = Some [2]) by reflexivity.
  assert (H3 : (nparams (Ex.grid Ex.Linear 1 1 false) <= Z.of_nat (length [2]))%Z)
    by (vm_compute; discriminate).
  assert (H4 : np.sum [2] <> 0) by (simpl; lra).
  destruct (normalize_idempotent _ Ex.star [[2]] [2] H1 H2 H3 H4)
    as (star1 & h1 & star2 & h2 & Hn1 & Hn2 & Hp1 & Hp2).
  split; [exact H1|]. split; [exact H2|]. split; [exact H4|].
  exists star1, h1, star2, h2. split; [exact Hn1|]. split; [exact Hn2|].
  rewrite Hp1, Hp2. reflexivity.
Defined.

(** X13, a witness: the pixel at the origin of a grid of size 1. *)
Lemma fast_row_entries_witness :
  (0 < size (Ex.grid Ex.Linear 1 1 false))%Z
  /\ 0 < scale (Ex.grid Ex.Linear 1 1 false)
  /\ 0 <= xrange (interp (Ex.grid Ex.Linear 1 1 false))
  /\ exists row,
       fast_row (Ex.grid Ex.Linear 1 1 false) 1 ((0 - 0) / 1) ((0 - 0) / 1) = Ok row
       /\ length row = 1%nat.
Proof.
  assert (H1 : (0 < size (Ex.grid Ex.Linear 1 1 false))%Z) by (simpl; lia).
  assert (H2 : 0 < scale (Ex.grid Ex.Linear 1 1 false)) by (simpl; lra).
  assert (H3 : 0 <= xrange (interp (Ex.grid Ex.Linear 1 1 false))) by (simpl; lra).
  assert (H4 : in_support (Ex.grid Ex.Linear 1 1 false) 0 0
                 {| pix_data := 3; pix_weight := 1; pix_u := 0; pix_v := 0 |} = true)
    by (apply in_support_origin; [lra | lia | lra]).
  pose proof (fast_row_entries _ 0 0 1 _ H1 H2 H3 H4) as H. cbv zeta in H.
  destruct H as (row & Hr & Hl & _).
  split; [exact H1|]. split; [exact H2|]. split; [exact H3|].
  exists row. split; [exact Hr|exact Hl].
Defined.

(** X14, a witness: the slow path with the identity as composition function. *)
Lemma jacobian_slow_entries_witness :
  (0 < size (Ex.grid Ex.Linear 1 1 false))%Z
  /\ length (jacobian_slow (Ex.grid Ex.Linear 1 1 false) Ex.star (fun prof => prof)
               (StarFit.center (Star.fit Ex.star)).1 (StarFit.center (Star.fit Ex.star)).2
               (in_support (Ex.grid Ex.Linear 1 1 false)
                  (StarFit.center (Star.fit Ex.star)).1
                  (StarFit.center (Star.fit Ex.star)).2
                  <$> StarData.pixels (Star.data Ex.star)))
     = length (Spec.retained (Ex.grid Ex.Linear 1 1 false) Ex.star).
Proof.
  assert (H1 : (0 < size (Ex.grid Ex.Linear 1 1 false))%Z) by (simpl; lia).
  pose proof (jacobian_slow_entries _ Ex.star (fun prof => prof) H1) as H.
  cbv zeta in H. split; [exact H1|].
  rewrite H. apply length_fmap.
Defined.

(** X15, a witness: a draw method that is not 'no_pixel'. *)
Lemma draw_method_must_be_no_pixel_witness :
  "auto"%string <> "no_pixel"%string
  /\ fit Ex.InterpolatedImage Ex.lstsq Ex.inv (Ex.grid Ex.Linear 1 1 false) Ex.star
       None (Some "auto"%string) [[1]]
     = Raise AssertionError.
Proof.
  assert (H1 : "auto"%string <> "no_pixel"%string) by discriminate.
  destruct (draw_method_must_be_no_pixel Ex.InterpolatedImage Ex.lstsq Ex.inv
              (Ex.grid Ex.Linear 1 1 false) Ex.star None "auto" [[1]] H1) as [_ Hf].
  split; [exact H1|exact Hf].
Defined.

(** X16, a witness: one value where nine are expected. *)
Lemma chisq_rejects_wrong_length_witness :
  Spec.params_of Ex.star [[1]] = Some [1]
  /\ Z.of_nat (length [1]) <> nparams (Ex.grid Ex.Linear 1 3 false)
  /\ chisq Ex.InterpolatedImage (Ex.grid Ex.Linear 1 3 false) Ex.star None None [[1]]
     = Raise ValueError
  /\ fit Ex.InterpolatedImage Ex.lstsq Ex.inv (Ex.grid Ex.Linear 1 3 false) Ex.star
       None None [[1]]
     = Raise ValueError.
Proof.
  assert (H1 : Spec.params_of Ex.star [[1]] = Some [1]) by reflexivity.
  assert (H2 : Z.of_nat (length [1]) <> nparams (Ex.grid Ex.Linear 1 3 false))
    by (vm_compute; discriminate).
  destruct (chisq_rejects_wrong_length Ex.InterpolatedImage Ex.lstsq Ex.inv
              (Ex.grid Ex.Linear 1 3 false) Ex.star None None [[1]] [1]
              (or_introl eq_refl) H1 H2) as (_ & Hc & Hf).
  split; [exact H1|]. split; [exact H2|]. split; [exact Hc|exact Hf].
Defined.

(** X17, a witness: the star of one pixel. *)
Lemma chisq_shape_witness :
  Spec.params_of Ex.star [[1]] = Some [1]
  /\ exists chi A b,
       chisq Ex.InterpolatedImage (Ex.grid Ex.Linear 1 1 false) Ex.star None None [[1]]
       = Ok (Star.mk (Star.data Ex.star)
               (StarFit.withNew (Star.fit Ex.star) chi
                  (length (Spec.retained (Ex.grid Ex.Linear 1 1 false) Ex.star)) A b),
             [[1]])
       /\ length A = length (Spec.retained (Ex.grid Ex.Linear 1 1 false) Ex.star)
       /\ 0 <= chi.
Proof.
  assert (H1 : (0 < size (Ex.grid Ex.Linear 1 1 false))%Z) by (simpl; lia).
  assert (H2 : 0 < scale (Ex.grid Ex.Linear 1 1 false)) by (simpl; lra).
  assert (H3 : 0 <= xrange (interp (Ex.grid Ex.Linear 1 1 false))) by (simpl; lra).
  assert (H4 : Spec.params_of Ex.star [[1]] = Some [1]) by reflexivity.
  assert (H5 : Z.of_nat (length [1]) = nparams (Ex.grid Ex.Linear 1 1 false))
    by reflexivity.
  destruct (chisq_shape Ex.InterpolatedImage (Ex.grid Ex.Linear 1 1 false) Ex.star None
              None [[1]] [1] H1 H2 H3 (or_introl eq_refl) H4 H5)
    as (chi & A & b & Hc & HA & _ & _ & _ & _ & Hpos).
  split; [exact H4|]. exists chi, A, b. split; [exact Hc|]. split; [exact HA|exact Hpos].
Defined.

(** X18, a witness: the star of one pixel, of weight 1. *)
Lemma chisq_weighted_least_squares_witness :
  Spec.params_of Ex.star [[1]] = Some [1]
  /\ Forall (fun px => 0 <= pix_weight px) (StarData.pixels (Star.data Ex.star))
  /\ exists chi A b,
       chisq Ex.InterpolatedImage (Ex.grid Ex.Linear 1 1 false) Ex.star None None [[1]]
       = Ok (Star.mk (Star.data Ex.star)
               (StarFit.withNew (Star.fit Ex.star) chi
                  (length (Spec.retained (Ex.grid Ex.Linear 1 1 false) Ex.star)) A b),
             [[1]])
       /\ chi = np.sum ((fun px =>
                           pix_weight px
                           * (pix_data px
                              - Spec.model_at Ex.InterpolatedImage
                                  (Ex.grid Ex.Linear 1 1 false) Ex.star None [1] px) ^ 2)
                          <$> Spec.retained (Ex.grid Ex.Linear 1 1 false) Ex.star).
Proof.
  assert (H1 : (0 < size (Ex.grid Ex.Linear 1 1 false))%Z) by (simpl; lia).
  assert (H2 : 0 < scale (Ex.grid Ex.Linear 1 1 false)) by (simpl; lra).
  assert (H3 : 0 <= xrange (interp (Ex.grid Ex.Linear 1 1 false))) by (simpl; lra).
  assert (H4 : Spec.params_of Ex.star [[1]] = Some [1]) by reflexivity.
  assert (H5 : Z.of_nat (length [1]) = nparams (Ex.grid Ex.Linear 1 1 false))
    by reflexivity.
  assert (H6 : Forall (fun px => 0 <= pix_weight px) (StarData.pixels (Star.data Ex.star)))
    by (repeat constructor; simpl; lra).
  destruct (chisq_weighted_least_squares Ex.InterpolatedImage
              (Ex.grid Ex.Linear 1 1 false) Ex.star None None [[1]] [1]
              H1 H2 H3 (or_introl eq_refl) H4 H5 H6)
    as (J & chi & A & b & _ & Hc & _ & _ & Hchi).
  split; [exact H4|]. split; [exact H6|].
  exists chi, A, b. split; [exact Hc|exact Hchi].
Defined.

(** X19, a witness: [fit] with [fit_flux] on, on the star of one pixel. *)
Lemma fit_chisq_is_residual_norm_witness :
  fit_flux (Ex.grid Ex.Linear 1 1 true) = true
  /\ Spec.params_of Ex.star [[1]] = Some [1]
  /\ exists star' h' chi,
       fit Ex.InterpolatedImage Ex.lstsq Ex.inv (Ex.grid Ex.Linear 1 1 true) Ex.star
         None None [[1]] = Ok (star', h')
       /\ StarFit.chisq (Star.fit star') = Some chi
       /\ 0 <= chi.
Proof.
  assert (H0 : fit_flux (Ex.grid Ex.Linear 1 1 true) = true) by reflexivity.
  assert (H1 : (0 < size (Ex.grid Ex.Linear 1 1 true))%Z) by (simpl; lia).
  assert (H2 : 0 < scale (Ex.grid Ex.Linear 1 1 true)) by (simpl; lra).
  assert (H3 : 0 <= xrange (interp (Ex.grid Ex.Linear 1 1 true))) by (simpl; lra).
  assert (H4 : Spec.params_of Ex.star [[1]] = Some [1]) by reflexivity.
  assert (H5 : Z.of_nat (length [1]) = nparams (Ex.grid Ex.Linear 1 1 true))
    by reflexivity.
  destruct (fit_chisq_is_residual_norm Ex.InterpolatedImage Ex.lstsq Ex.inv
              (Ex.grid Ex.Linear 1 1 true) Ex.star None None [[1]] [1]
              H0 H1 H2 H3 (or_introl eq_refl) Ex_lstsq_length H4 H5)
    as (star1 & A & b & star' & h' & chi & _ & _ & _ & Hf & Hq & _ & Hpos & _).
  split; [exact H0|]. split; [exact H4|]. exists star', h', chi.
  split; [exact Hf|]. split; [exact Hq|exact Hpos].
Defined.

(** X20, a witness: a store with a second array, which [fit] does not touch. *)
Lemma fit_leaves_other_arrays_witness :
  StarFit.params (Star.fit Ex.star) = Some 0%nat
  /\ [[1]; [7]] !! 0%nat = Some [1]
  /\ exists star' h',
       fit Ex.InterpolatedImage Ex.lstsq Ex.inv (Ex.grid Ex.Linear 1 1 false) Ex.star
         None None [[1]; [7]] = Ok (star', h')
       /\ h' !! 1%nat = Some [7].
Proof.
  assert (H1 : (0 < size (Ex.grid Ex.Linear 1 1 false))%Z) by (simpl; lia).
  assert (H2 : 0 < scale (Ex.grid Ex.Linear 1 1 false)) by (simpl; lra).
  assert (H3 : 0 <= xrange (interp (Ex.grid Ex.Linear 1 1 false))) by (simpl; lra).
  assert (H4 : StarFit.params (Star.fit Ex.star) = Some 0%nat) by reflexivity.
  assert (H5 : [[1]; [7]] !! 0%nat = Some [1]) by reflexivity.
  assert (H6 : Z.of_nat (length [1]) = nparams (Ex.grid Ex.Linear 1 1 false))
    by reflexivity.
  destruct (fit_leaves_other_arrays Ex.InterpolatedImage Ex.lstsq Ex.inv
              (Ex.grid Ex.Linear 1 1 false) Ex.star None None [[1]; [7]] 0%nat [1]
              H1 H2 H3 (or_introl eq_refl) Ex_lstsq_length H4 H5 H6)
    as (star' & h' & Hf & Hframe).
  split; [exact H4|]. split; [exact H5|].
  exists star', h'. split; [exact Hf|].
  rewrite (Hframe 1%nat); [reflexivity|discriminate|simpl; lia].
Defined.

End Instances.

(** ** The solver's contract and the pixels that do not count *)

Section FitMore.
Import PixelGrid.

Variable InterpolatedImage :
  Z -> list R -> R -> Interpolant -> option R -> galsim.Profile.
Variable lstsq : nat -> list (list R) -> list R -> list R.
Variable inv : list (list R) -> option (list (list R)).

Lemma dot_self_nonneg (x : list R) : 0 <= np.dot x x.
Proof.
  unfold np.dot. induction x as [|a x IH]; [simpl; lra|].
  change (0 <= a * a + np.sum (zip_with Rmult x x)). nra.
Qed.

(** X24: with [fit_flux] on, when the solver returns a least-squares
    solution, so that the fitted vector [A dp] is orthogonal to the residual
    [A dp - b], the chisq of the star that [fit] returns is the chisq of the
    input star minus the squared norm of [A dp]: it lies between 0 and the
    chisq that [chisq] computed. *)
Theorem fit_chisq_never_increases (m : t) (star : Star.t)
    (conv : option (galsim.Profile -> galsim.Profile)) (dm : option string)
    (h : heap) (v : list R) :
  fit_flux m = true ->
  (0 < size m)%Z -> 0 < scale m -> 0 <= xrange (interp m) ->
  (dm = None \/ dm = Some "no_pixel"%string) ->
  (forall A b, length (lstsq (Z.to_nat (nparams m)) A b) = Z.to_nat (nparams m)) ->
  (forall A b,
     np.dot (np.matvec A (lstsq (Z.to_nat (nparams m)) A b))
            (np.matvec A (lstsq (Z.to_nat (nparams m)) A b))
     = np.dot (np.matvec A (lstsq (Z.to_nat (nparams m)) A b)) b) ->
  Spec.params_of star h = Some v -> Z.of_nat (length v) = nparams m ->
  exists star1 chi0 A b star' h' chi,
    chisq InterpolatedImage m star conv None h = Ok (star1, h)
    /\ StarFit.chisq (Star.fit star1) = Some chi0
    /\ StarFit.A (Star.fit star1) = Some A /\ StarFit.b (Star.fit star1) = Some b
    /\ fit InterpolatedImage lstsq inv m star conv dm h = Ok (star', h')
    /\ StarFit.chisq (Star.fit star') = Some chi
    /\ chi = chi0 - np.dot (np.matvec A (lstsq (Z.to_nat (nparams m)) A b))
                           (np.matvec A (lstsq (Z.to_nat (nparams m)) A b))
    /\ 0 <= chi <= chi0.
Proof.
  intros Hff Hn Hs Hxr Hdm Hls Horth Hv Hlen.
  destruct (chisq_residual_lengths InterpolatedImage m star conv None h v Hn Hs Hxr
              (or_introl eq_refl) Hv Hlen) as (chi0 & n & A & b & Hc & HA & Hchi).
  destruct (fit_record InterpolatedImage lstsq inv m star _ conv dm h h v Hdm Hc Hls Hv)
    as (star' & h' & Hfit & _ & Hq & _).
  rewrite Hff in Hq. unfold Spec.quadratic_chisq in Hq.
  cbn [Star.fit StarFit.A StarFit.b StarFit.chisq StarFit.withNew] in Hq.
  set (Adp := np.matvec A (lstsq (Z.to_nat (nparams m)) A b)) in *.
  assert (Hl : length Adp = length b).
  { unfold Adp, np.matvec. rewrite length_fmap. done. }
  pose proof (Horth A b) as Ho. fold Adp in Ho.
  pose proof (residual_norm Adp b Hl) as Hr. rewrite <- Hchi in Hr.
  pose proof (sum_squares_nonneg (zip_with Rminus Adp b)) as Hpos.
  pose proof (dot_self_nonneg Adp) as Hsq.
  eexists _, chi0, A, b, star', h', _.
  split; [exact Hc|]. split; [done|]. split; [done|]. split; [done|].
  split; [exact Hfit|]. split; [exact Hq|].
  fold Adp. rewrite <- Hr in Hpos. split; [lra|]. split; lra.
Qed.

(** X25: [chisq] sees a star's image only through the pixels it retains:
    two stars with the same fit and pixel area whose retained pixels are the
    same get the same matrix, residual, chisq and dof, or fail alike.  So
    pixels of zero weight, and pixels outside the support, have no
    influence. *)
Theorem chisq_ignores_masked_pixels (m : t) (star star2 : Star.t)
    (conv : option (galsim.Profile -> galsim.Profile)) (dm : option string)
    (h : heap) :
  Star.fit star2 = Star.fit star ->
  StarData.pixel_area (Star.data star2) = StarData.pixel_area (Star.data star) ->
  Spec.retained m star2 = Spec.retained m star ->
  match chisq InterpolatedImage m star conv dm h,
        chisq InterpolatedImage m star2 conv dm h with
  | Ok (s1, h1), Ok (s2, h2) => Star.fit s2 = Star.fit s1 /\ h1 = h /\ h2 = h
  | Raise e, Raise e2 => e = e2
  | _, _ => False
  end.
Proof.
  intros Hfit Harea Hret. unfold Spec.retained in Hret. rewrite Hfit in Hret.
  unfold chisq, bind. rewrite Hfit.
  destruct (check_draw_method dm h) as [[[] h0]|] eqn:Hdm; [|done].
  assert (h0 = h) as ->.
  { unfold check_draw_method in Hdm. destruct dm as [s|].
    - destruct (String.eqb s "no_pixel"); [|done]. unfold ret in Hdm. congruence.
    - unfold ret in Hdm. congruence. }
  destruct (StarFit.get_params (Star.fit star)) as [p|]; [|done].
  unfold load. destruct (h !! p) as [v|]; [|done].
  unfold lift at 1 3. destruct (getProfile InterpolatedImage m v) as [prof|]; [|done].
  destruct (StarFit.center (Star.fit star)) as [u0 v0]. cbn [fst snd] in Hret.
  set (J1 := match conv with
             | Some c => Ok (jacobian_slow m star c u0 v0
                               (in_support m u0 v0 <$> StarData.pixels (Star.data star)))
             | None => jacobian_fast m star u0 v0
                         (in_support m u0 v0 <$> StarData.pixels (Star.data star))
             end).
  assert (HJ : match conv with
               | Some c => Ok (jacobian_slow m star2 c u0 v0
                                 (in_support m u0 v0 <$> StarData.pixels (Star.data star2)))
               | None => jacobian_fast m star2 u0 v0
                           (in_support m u0 v0 <$> StarData.pixels (Star.data star2))
               end = J1).
  { unfold J1. destruct conv as [c|].
    - f_equal. unfold jacobian_slow. destruct (basis_shifts m) as [du dv].
      rewrite !count_mask, Hret.
      apply list_fmap_ext; intros _ i _. apply list_fmap_ext; intros _ k _.
      f_equal. rewrite !list_lookup_fmap.
      destruct (zip _ _ !! k) as [[k' [duk dvk]]|]; [|done]. simpl.
      unfold StarData.draw. rewrite !select_fmap, Hret, Harea. done.
    - unfold jacobian_fast. rewrite !select_fmap, Hret, Harea. done. }
  rewrite HJ. unfold lift.
  destruct J1 as [J|]; [|done].
  unfold ret. split; [|done].
  cbn [Star.fit]. unfold StarData.draw.
  rewrite <- !list_fmap_compose, !select_fmap, Hret, Harea. done.
Qed.

End FitMore.

Section FitMoreInstances.
Import PixelGrid.

Lemma dot_zero_l (x y : list R) : Forall (fun a => a = 0) x -> np.dot x y = 0.
Proof.
  unfold np.dot. intros Hx. revert y.
  induction Hx as [|a x Ha _ IH]; intros [|c y]; try reflexivity.
  subst a. change (0 * c + np.sum (zip_with Rmult x y) = 0). rewrite IH. lra.
Qed.

Lemma matvec_zero (A : list (list R)) :
  Forall (fun a => a = 0) (np.matvec A [0]).
Proof.
  unfold np.matvec. apply Forall_fmap, Forall_true. intros row. simpl.
  unfold np.dot. destruct row as [|r row]; [reflexivity|].
  cbn [zip_with]. rewrite zip_with_nil_r.
  change (r * 0 + 0 = 0). lra.
Qed.

(** The solver of the concrete inputs returns least-squares solutions. *)
Lemma Ex_lstsq_orthogonal (A : list (list R)) (b : list R) :
  np.dot (np.matvec A (Ex.lstsq (Z.to_nat (nparams (Ex.grid Ex.Linear 1 1 false))) A b))
         (np.matvec A (Ex.lstsq (Z.to_nat (nparams (Ex.grid Ex.Linear 1 1 false))) A b))
  = np.dot (np.matvec A (Ex.lstsq (Z.to_nat (nparams (Ex.grid Ex.Linear 1 1 false))) A b)) b.
Proof.
  change (Z.to_nat (nparams (Ex.grid Ex.Linear 1 1 false))) with 1%nat.
  assert (Hz : np.dot (np.matvec A [0]) (np.matvec A [0]) = np.dot (np.matvec A [0]) b).
  { rewrite !dot_zero_l by apply matvec_zero. done. }
  destruct A as [|[|a [|? ?]] [|? ?]]; try exact Hz.
  destruct b as [|y [|? ?]]; try exact Hz.
  unfold Ex.lstsq, np.matvec, np.dot. simpl.
  destruct (decide (a = 0)) as [->|Ha].
  - lra.
  - replace (a * (y / a)) with y by (field; done). lra.
Qed.

End FitMoreInstances.

Section FitMoreWitnesses.
Import PixelGrid.

(** X24, a witness: [fit] with [fit_flux] on, on the star of one pixel. *)
Lemma fit_chisq_never_increases_witness :
  fit_flux (Ex.grid Ex.Linear 1 1 true) = true
  /\ Spec.params_of Ex.star [[1]] = Some [1]
  /\ exists star1 chi0 star' h' chi,
       chisq Ex.InterpolatedImage (Ex.grid Ex.Linear 1 1 true) Ex.star None None [[1]]
       = Ok (star1, [[1]])
       /\ StarFit.chisq (Star.fit star1) = Some chi0
       /\ fit Ex.InterpolatedImage Ex.lstsq Ex.inv (Ex.grid Ex.Linear 1 1 true) Ex.star
            None None [[1]] = Ok (star', h')
       /\ StarFit.chisq (Star.fit star') = Some chi
       /\ 0 <= chi <= chi0.
Proof.
  assert (H0 : fit_flux (Ex.grid Ex.Linear 1 1 true) = true) by reflexivity.
  assert (H1 : (0 < size (Ex.grid Ex.Linear 1 1 true))%Z) by (simpl; lia).
  assert (H2 : 0 < scale (Ex.grid Ex.Linear 1 1 true)) by (simpl; lra).
  assert (H3 : 0 <= xrange (interp (Ex.grid Ex.Linear 1 1 true))) by (simpl; lra).
  assert (H4 : Spec.params_of Ex.star [[1]] = Some [1]) by reflexivity.
  assert (H5 : Z.of_nat (length [1]) = nparams (Ex.grid Ex.Linear 1 1 true))
    by reflexivity.
  destruct (fit_chisq_never_increases Ex.InterpolatedImage Ex.lstsq Ex.inv
              (Ex.grid Ex.Linear 1 1 true) Ex.star None None [[1]] [1]
              H0 H1 H2 H3 (or_introl eq_refl) Ex_lstsq_length Ex_lstsq_orthogonal H4 H5)
    as (star1 & chi0 & A & b & star' & h' & chi & Hc & Hq0 & _ & _ & Hf & Hq & _ & Hle).
  split; [exact H0|]. split; [exact H4|]. exists star1, chi0, star', h', chi.
  split; [exact Hc|]. split; [exact Hq0|]. split; [exact Hf|]. split; [exact Hq|exact Hle].
Defined.

Lemma retained_padded :
  Spec.retained (Ex.grid Ex.Linear 1 1 false) Ex.star_padded
  = Spec.retained (Ex.grid Ex.Linear 1 1 false) Ex.star.
Proof.
  unfold Spec.retained. cbn [Ex.star_padded Ex.star Star.data Star.fit StarData.pixels].
  rewrite !(filter_cons _ {| pix_data := 3 |}), filter_cons.
  rewrite (decide_False (P := in_support _ _ _ {| pix_data := 9 |} = true)); [done|].
  unfold in_support. cbn [pix_weight].
  rewrite (bool_decide_eq_true_2 (0 = 0)) by done.
  rewrite andb_false_r. done.
Qed.

(** X25, a witness: the star of one pixel, and the same star with a second
    pixel of weight zero. *)
Lemma chisq_ignores_masked_pixels_witness :
  Star.fit Ex.star_padded = Star.fit Ex.star
  /\ Spec.retained (Ex.grid Ex.Linear 1 1 false) Ex.star_padded
     = Spec.retained (Ex.grid Ex.Linear 1 1 false) Ex.star
  /\ match chisq Ex.InterpolatedImage (Ex.grid Ex.Linear 1 1 false) Ex.star None None [[1]],
           chisq Ex.InterpolatedImage (Ex.grid Ex.Linear 1 1 false) Ex.star_padded None
             None [[1]] with
     | Ok (s1, h1), Ok (s2, h2) => Star.fit s2 = Star.fit s1 /\ h1 = [[1]] /\ h2 = [[1]]
     | Raise e, Raise e2 => e = e2
     | _, _ => False
     end.
Proof.
  assert (H1 : Star.fit Ex.star_padded = Star.fit Ex.star) by reflexivity.
  assert (H2 : StarData.pixel_area (Star.data Ex.star_padded)
               = StarData.pixel_area (Star.data Ex.star)) by reflexivity.
  split; [exact H1|]. split; [exact retained_padded|].
  exact (chisq_ignores_masked_pixels Ex.InterpolatedImage (Ex.grid Ex.Linear 1 1 false)
           Ex.star Ex.star_padded None None [[1]] H1 H2 retained_padded).
Defined.

End FitMoreWitnesses.
